(** * MouseControl.js: orbit, pan and zoom controllers over three.js objects

    A shallow embedding of [src/MouseControl.js] and the properties of its
    gesture pipeline.

    Numbers.  JavaScript numbers are modelled as exact reals ([R]); the one
    non-finite value the source itself writes, [Infinity] for
    [maxDistance], has a constructor of its own.  A number is falsy exactly
    when it is zero.  Rounding is outside the model.  So are the
    [Infinity] and [NaN] that JavaScript answers a division by zero and
    the root of a negative number with: where a property depends on such
    a quotient or root ([touchStart_ / touchEnd_] in a pinch,
    [sqrt (1 - dynamicDampingFactor)] in an idle orbit step), its theorem
    assumes the divisor not zero and the radicand not negative.

    Memory.  Scene-graph objects are owned by the host and shared by
    reference: a controller holds handles ([oid]) into a [scene] map, so two
    entries (or two controllers) naming the same handle see each other's
    writes.  [THREE.Vector3] values that cross the public interface
    ([getTarget], [setTarget]) live on a [heap] of vectors addressed by
    [loc]; [clone] allocates a fresh address.  Events are appended to a log
    in dispatch order. *)

From Stdlib Require Import Reals Lra String.
From stdpp Require Import gmap list.

Local Open Scope R_scope.

(** ** JavaScript numbers *)

Module JS.

#[global] Instance Req_decision (a b : R) : Decision (a = b) := Req_dec_T a b.
#[global] Instance Rlt_decision (a b : R) : Decision (a < b) := Rlt_dec a b.
#[global] Instance Rle_decision (a b : R) : Decision (a <= b) := Rle_dec a b.

(** [ToBoolean] on a number. *)
Definition truthy (a : R) : bool := bool_decide (a <> 0).

(** [a || b] on numbers. *)
Definition or (a b : R) : R := if truthy a then a else b.

(** [ToInt32]: truncate towards zero, then wrap into [-2^31, 2^31). *)
Definition trunc (a : R) : Z :=
  if decide (0 <= a) then Int_part a else (- Int_part (- a))%Z.

Definition wrap32 (n : Z) : Z :=
  ((n + 2147483648) mod 4294967296 - 2147483648)%Z.

Definition ToInt32 (a : R) : Z := wrap32 (trunc a).

(** [a >> k] and [a << k]. *)
Definition shr (a : R) (k : Z) : R := IZR (Z.shiftr (ToInt32 a) k).
Definition shl (a : R) (k : Z) : R := IZR (wrap32 (Z.shiftl (ToInt32 a) k)).

End JS.

(** ** three.js vectors

    The methods of [THREE.Vector2], [THREE.Vector3] and [THREE.Quaternion]
    that the source calls, transcribed from three.js.  A method that mutates
    its receiver is a function returning the receiver's new value. *)

Module Vector2.

Record t : Type := mk { x : R; y : R }.

Definition zero : t := mk 0 0.
Definition add (a b : t) : t := mk (x a + x b) (y a + y b).
Definition sub (a b : t) : t := mk (x a - x b) (y a - y b).
Definition multiplyScalar (a : t) (s : R) : t := mk (x a * s) (y a * s).
Definition lengthSq (a : t) : R := x a * x a + y a * y a.

End Vector2.

Module Vector3.

Record t : Type := mk { x : R; y : R; z : R }.

Definition zero : t := mk 0 0 0.

Definition add (a b : t) : t := mk (x a + x b) (y a + y b) (z a + z b).
Definition addVectors (a b : t) : t := add a b.
Definition sub (a b : t) : t := mk (x a - x b) (y a - y b) (z a - z b).
Definition multiplyScalar (a : t) (s : R) : t :=
  mk (x a * s) (y a * s) (z a * s).
Definition divideScalar (a : t) (s : R) : t := multiplyScalar a (1 / s).

Definition dot (a b : t) : R := x a * x b + y a * y b + z a * z b.
Definition lengthSq (a : t) : R := x a * x a + y a * y a + z a * z a.
Definition length (a : t) : R := sqrt (lengthSq a).

Definition normalize (a : t) : t := divideScalar a (JS.or (length a) 1).
Definition setLength (a : t) (l : R) : t := multiplyScalar (normalize a) l.

Definition crossVectors (a b : t) : t :=
  mk (y a * z b - z a * y b)
     (z a * x b - x a * z b)
     (x a * y b - y a * x b).
Definition cross (a b : t) : t := crossVectors a b.

Definition distanceToSquared (a b : t) : R :=
  let dx := x a - x b in
  let dy := y a - y b in
  let dz := z a - z b in
  dx * dx + dy * dy + dz * dz.

End Vector3.

Module Quaternion.

Record t : Type := mk { x : R; y : R; z : R; w : R }.

Definition setFromAxisAngle (axis : Vector3.t) (angle : R) : t :=
  let halfAngle := angle / 2 in
  let s := sin halfAngle in
  mk (Vector3.x axis * s) (Vector3.y axis * s) (Vector3.z axis * s)
     (cos halfAngle).

End Quaternion.

(** [Vector3.applyQuaternion]. *)
Definition applyQuaternion (v : Vector3.t) (q : Quaternion.t) : Vector3.t :=
  let x := Vector3.x v in
  let y := Vector3.y v in
  let z := Vector3.z v in
  let qx := Quaternion.x q in
  let qy := Quaternion.y q in
  let qz := Quaternion.z q in
  let qw := Quaternion.w q in
  let ix := qw * x + qy * z - qz * y in
  let iy := qw * y + qz * x - qx * z in
  let iz := qw * z + qx * y - qy * x in
  let iw := - qx * x - qy * y - qz * z in
  Vector3.mk (ix * qw + iw * - qx + iy * - qz - iz * - qy)
             (iy * qw + iw * - qy + iz * - qx - ix * - qz)
             (iz * qw + iw * - qz + ix * - qy - iy * - qx).

#[global] Instance Vector3_inhabited : Inhabited Vector3.t :=
  populate Vector3.zero.

(** ** Data model *)

(** Handle of a host-owned [THREE.Object3D]. *)
Definition oid : Type := positive.

(** Address of a [THREE.Vector3] on the heap. *)
Definition loc : Type := positive.

(** The part of a [THREE.Object3D] the controllers read and write.
    [lookAt] sets the object's rotation from its position, the looked-at
    point and its up-vector; the rotation is kept in that symbolic form. *)
Module Object3D.

Inductive Orientation : Type :=
| Initial
| LookAt (position target up : Vector3.t).

Record t : Type := mk {
  position : Vector3.t;
  up : Vector3.t;
  orientation : Orientation;
}.

Definition set_position (v : Vector3.t) (o : t) : t :=
  mk v (up o) (orientation o).
Definition set_up (v : Vector3.t) (o : t) : t :=
  mk (position o) v (orientation o).
Definition lookAt (target : Vector3.t) (o : t) : t :=
  mk (position o) (up o) (LookAt (position o) target (up o)).

End Object3D.

#[global] Instance Object3D_inhabited : Inhabited Object3D.t :=
  populate (Object3D.mk Vector3.zero Vector3.zero Object3D.Initial).

(** [ObjectInfo.last]: [angle] and [axis] exist only once
    [THREE.RotationControl]'s constructor has added them. *)
Module Last.

Record t : Type := mk {
  pos : Vector3.t;
  angle : option R;
  axis : option Vector3.t;
}.

Definition set_pos (v : Vector3.t) (l : t) : t := mk v (angle l) (axis l).
Definition set_angle (a : R) (l : t) : t := mk (pos l) (Some a) (axis l).
Definition set_axis (v : Vector3.t) (l : t) : t :=
  mk (pos l) (angle l) (Some v).

End Last.

(** The [ObjectInfo] typedef.  [pos], [up] and [last.pos] are private clones
    that never leave the controller and are held by value; [target] is
    handed out by [setTarget] and is held by address. *)
Module ObjectInfo.

Record t : Type := mk {
  last : Last.t;
  obj : oid;
  pos : Vector3.t;
  up : Vector3.t;
  target : loc;
}.

Definition set_last (l : Last.t) (i : t) : t :=
  mk l (obj i) (pos i) (up i) (target i).
Definition set_target (a : loc) (i : t) : t :=
  mk (last i) (obj i) (pos i) (up i) a.

End ObjectInfo.

Module Mouse.

Record t : Type := mk {
  capture : bool;
  curr : Vector2.t;
  prev : Vector2.t;
}.

Definition set_capture (b : bool) (m : t) : t := mk b (curr m) (prev m).
Definition set_curr (v : Vector2.t) (m : t) : t := mk (capture m) v (prev m).
Definition set_prev (v : Vector2.t) (m : t) : t := mk (capture m) (curr m) v.

End Mouse.

Module Rect.

Record t : Type := mk { left : R; top : R; width : R; height : R }.

End Rect.

(** [THREE.MouseControl.ButtonEnum], with the number behind each
    enumerator. *)
Module ButtonEnum.

Inductive t : Type := left | middle | right.

Definition value (b : t) : Z :=
  match b with
  | left => 0
  | middle => 1
  | right => 2
  end.

End ButtonEnum.

#[global] Instance ButtonEnum_eq_dec : EqDecision ButtonEnum.t.
Proof. solve_decision. Defined.

(** [THREE.MouseControl.EventEnum]. *)
Module EventEnum.

Inductive t : Type :=
| contextMenu
| mouseDown
| mouseMove
| mouseUp
| mouseWheel
| moveChange
| moveStart
| moveStop
| resize
| touchEnd
| touchMove
| touchStart.

End EventEnum.

#[global] Instance EventEnum_eq_dec : EqDecision EventEnum.t.
Proof. solve_decision. Defined.

(** The classes of the file. *)
Inductive Class : Type :=
| MouseControl
| TouchControl
| RotationControl
| PanControl
| ZoomControl.

#[global] Instance Class_eq_dec : EqDecision Class.
Proof. solve_decision. Defined.

(** [extends]. *)
Definition super (k : Class) : option Class :=
  match k with
  | MouseControl => None
  | TouchControl => Some MouseControl
  | RotationControl => Some TouchControl
  | PanControl => Some MouseControl
  | ZoomControl => Some TouchControl
  end.

(** [maxDistance] is a number or [Infinity]. *)
Inductive Distance : Type :=
| Finite (d : R)
| Infinity.

(** The element a controller listens on, with what [resize_] reads from it. *)
Inductive Dom : Type :=
| Body (innerWidth innerHeight : R)
| Element (boundingClientRect : Rect.t)
          (pageXOffset pageYOffset clientLeft clientTop : R).

(** The two shapes of event object the controllers dispatch, with the
    payload as a listener reads it during the dispatch:
    [{type, mouse: {curr, prev}}] and [{lookAt, object, position, type}]. *)
Inductive Event : Type :=
| MoveEvent (type : EventEnum.t) (curr prev : Vector2.t)
| ChangeEvent (lookAt : Vector3.t) (object : oid) (position : Vector3.t)
              (type : EventEnum.t).

Definition type (e : Event) : EventEnum.t :=
  match e with
  | MoveEvent t _ _ => t
  | ChangeEvent _ _ _ t => t
  end.

(** A controller instance: the fields of [THREE.MouseControl], then those
    [THREE.ZoomControl] adds.  The listeners a controller registers live
    on DOM elements that controllers share; they are not part of this
    state (see [deliver] for the events they bring). *)
Module Control.

Record t : Type := mk {
  class : Class;
  speed : R;
  dynamicDampingFactor : R;
  _objInfo : list ObjectInfo.t;
  _mouse : Mouse.t;
  button_ : ButtonEnum.t;
  dom_ : Dom;
  rect_ : Rect.t;
  minDistance : R;
  maxDistance : Distance;
  touchStart_ : R;
  touchEnd_ : R;
}.

Definition set_class (k : Class) (c : t) : t :=
  mk k (speed c) (dynamicDampingFactor c) (_objInfo c) (_mouse c)
     (button_ c) (dom_ c) (rect_ c) (minDistance c)
     (maxDistance c) (touchStart_ c) (touchEnd_ c).
Definition set_speed (v : R) (c : t) : t :=
  mk (class c) v (dynamicDampingFactor c) (_objInfo c) (_mouse c)
     (button_ c) (dom_ c) (rect_ c) (minDistance c)
     (maxDistance c) (touchStart_ c) (touchEnd_ c).
Definition set_dynamicDampingFactor (f : R) (c : t) : t :=
  mk (class c) (speed c) f (_objInfo c) (_mouse c)
     (button_ c) (dom_ c) (rect_ c) (minDistance c)
     (maxDistance c) (touchStart_ c) (touchEnd_ c).
Definition set__objInfo (l : list ObjectInfo.t) (c : t) : t :=
  mk (class c) (speed c) (dynamicDampingFactor c) l (_mouse c)
     (button_ c) (dom_ c) (rect_ c) (minDistance c)
     (maxDistance c) (touchStart_ c) (touchEnd_ c).
Definition set__mouse (m : Mouse.t) (c : t) : t :=
  mk (class c) (speed c) (dynamicDampingFactor c) (_objInfo c) m
     (button_ c) (dom_ c) (rect_ c) (minDistance c)
     (maxDistance c) (touchStart_ c) (touchEnd_ c).
Definition set_button_ (b : ButtonEnum.t) (c : t) : t :=
  mk (class c) (speed c) (dynamicDampingFactor c) (_objInfo c) (_mouse c)
     b (dom_ c) (rect_ c) (minDistance c)
     (maxDistance c) (touchStart_ c) (touchEnd_ c).
Definition set_rect_ (r : Rect.t) (c : t) : t :=
  mk (class c) (speed c) (dynamicDampingFactor c) (_objInfo c) (_mouse c)
     (button_ c) (dom_ c) r (minDistance c)
     (maxDistance c) (touchStart_ c) (touchEnd_ c).
Definition set_distances (lo : R) (hi : Distance) (c : t) : t :=
  mk (class c) (speed c) (dynamicDampingFactor c) (_objInfo c) (_mouse c)
     (button_ c) (dom_ c) (rect_ c) lo hi
     (touchStart_ c) (touchEnd_ c).
Definition set_touchStart_ (d : R) (c : t) : t :=
  mk (class c) (speed c) (dynamicDampingFactor c) (_objInfo c) (_mouse c)
     (button_ c) (dom_ c) (rect_ c) (minDistance c)
     (maxDistance c) d (touchEnd_ c).
Definition set_touchEnd_ (d : R) (c : t) : t :=
  mk (class c) (speed c) (dynamicDampingFactor c) (_objInfo c) (_mouse c)
     (button_ c) (dom_ c) (rect_ c) (minDistance c)
     (maxDistance c) (touchStart_ c) d.

End Control.

(** What lies outside the controller: the host's objects, the vector heap
    and the events dispatched so far (oldest first). *)
Module World.

Record t : Type := mk {
  scene : gmap oid Object3D.t;
  heap : gmap loc Vector3.t;
  events : list Event;
}.

Definition set_scene (s : gmap oid Object3D.t) (w : t) : t :=
  mk s (heap w) (events w).
Definition set_heap (h : gmap loc Vector3.t) (w : t) : t :=
  mk (scene w) h (events w).

(** [dispatchEvent]. *)
Definition dispatchEvent (e : Event) (w : t) : t :=
  mk (scene w) (heap w) (events w ++ [e]).

(** The object behind a handle, and an in-place update of it. *)
Definition object (o : oid) (w : t) : Object3D.t := scene w !!! o.
Definition update (o : oid) (f : Object3D.t -> Object3D.t) (w : t) : t :=
  set_scene (<[o := f (object o w)]> (scene w)) w.

(** Reading a vector, overwriting one in place, and [new]/[clone]. *)
Definition read (a : loc) (w : t) : Vector3.t := heap w !!! a.
Definition write (a : loc) (v : Vector3.t) (w : t) : t :=
  set_heap (<[a := v]> (heap w)) w.
Definition alloc (v : Vector3.t) (w : t) : loc * t :=
  let a := fresh (dom (heap w)) in (a, write a v w).

End World.

(** Exceptions. *)
Inductive result (A : Type) : Type :=
| Ok (a : A)
| Throw (message : string).

Arguments Ok {A} a.
Arguments Throw {A} message.

Definition bind {A B : Type} (m : result A) (k : A -> result B) : result B :=
  match m with
  | Ok a => k a
  | Throw e => Throw e
  end.

(** [Array.prototype.forEach] over [_objInfo]: the callback sees one entry
    and the rest of the state, and may update both. *)
Section forEach.

Context {S : Type}.
Variable f : ObjectInfo.t -> S -> ObjectInfo.t * S.

Fixpoint forEach (l : list ObjectInfo.t) (s : S) : list ObjectInfo.t * S :=
  match l with
  | [] => ([], s)
  | info :: rest =>
      let '(info', s1) := f info s in
      let '(rest', s2) := forEach rest s1 in
      (info' :: rest', s2)
  end.

End forEach.

(** ** Input events *)

Record MouseEvent : Type := {
  button : Z;
  pageX : R;
  pageY : R;
}.

Record Touch : Type := {
  touch_pageX : R;
  touch_pageY : R;
}.

(** [touches] lists the contacts on the surface when the event fires; on
    [touchend] the lifted contact is no longer among them. *)
Record TouchEvent : Type := {
  touches : list Touch;
}.

Record WheelEvent : Type := {
  deltaY : R;
  deltaMode : nat;
}.

(** ** THREE.MouseControl *)

(** [THREE.MouseControl.EPS]. *)
Definition EPS : R := 0.000001.

(** One entry of [_objInfo], as the constructor's [map] callback builds it. *)
Definition new_ObjectInfo (o : oid) (w : World.t) : ObjectInfo.t * World.t :=
  let ob := World.object o w in
  let '(target, w1) := World.alloc Vector3.zero w in
  (ObjectInfo.mk (Last.mk (Object3D.position ob) None None)
                 o (Object3D.position ob) (Object3D.up ob) target,
   w1).

Fixpoint map_new_ObjectInfo (objects : list oid) (w : World.t)
  : list ObjectInfo.t * World.t :=
  match objects with
  | [] => ([], w)
  | o :: rest =>
      let '(info, w1) := new_ObjectInfo o w in
      let '(infos, w2) := map_new_ObjectInfo rest w1 in
      (info :: infos, w2)
  end.

Definition resize_ (c : Control.t) : Control.t :=
  match Control.dom_ c with
  | Body innerWidth innerHeight =>
      let r := Control.rect_ c in
      Control.set_rect_
        (Rect.mk (Rect.left r) (Rect.top r) innerWidth innerHeight) c
  | Element r pageXOffset pageYOffset clientLeft clientTop =>
      Control.set_rect_
        (Rect.mk (Rect.left r + pageXOffset - clientLeft)
                 (Rect.top r + pageYOffset - clientTop)
                 (Rect.width r) (Rect.height r)) c
  end.

(** [new THREE.MouseControl(objects, opt_element)]; [dom] is
    [opt_element || document.body].  The fields [THREE.ZoomControl] adds are
    given the values its constructor assigns. *)
Definition new_MouseControl (objects : list oid) (dom : Dom) (w : World.t)
  : Control.t * World.t :=
  let '(infos, w1) := map_new_ObjectInfo objects w in
  (resize_
     (Control.mk MouseControl 1 0.2 infos
                 (Mouse.mk false Vector2.zero Vector2.zero)
                 ButtonEnum.left dom (Rect.mk 0 0 0 0) 0 Infinity 0 0),
   w1).

(** The [button] setter.  Besides binding the button it adds the static
    [emptyHandler_] as [contextmenu] listener of [this.dom], or removes it.
    That listener sits on the DOM element, one and the same for every
    controller on the element, and like the other listener registrations
    it is not followed here.  The value of the assignment is not modelled
    either. *)
Definition set_button (btn : ButtonEnum.t) (c : Control.t) : Control.t :=
  if decide (btn = Control.button_ c) then c else Control.set_button_ btn c.

Definition _getEye (info : ObjectInfo.t) (w : World.t) : Vector3.t :=
  Vector3.sub (Object3D.position (World.object (ObjectInfo.obj info) w))
              (World.read (ObjectInfo.target info) w).

(** [getObjectInfo_]: the first entry for [obj], with its index in
    [_objInfo]; [None] is [undefined]. *)
Definition getObjectInfo_ (obj : oid) (c : Control.t)
  : option (nat * ObjectInfo.t) :=
  list_find (fun info => ObjectInfo.obj info = obj) (Control._objInfo c).

Definition getRect (c : Control.t) : Rect.t := Control.rect_ c.

Definition _checkChange (info : ObjectInfo.t) (w : World.t)
  : ObjectInfo.t * World.t :=
  let position := Object3D.position (World.object (ObjectInfo.obj info) w) in
  let last := ObjectInfo.last info in
  if decide (Vector3.distanceToSquared (Last.pos last) position <= EPS)
  then (info, w)
  else
    let w1 :=
      World.dispatchEvent
        (ChangeEvent (World.read (ObjectInfo.target info) w)
                     (ObjectInfo.obj info) (Last.pos last)
                     EventEnum.moveChange) w in
    (ObjectInfo.set_last (Last.set_pos position last) info, w1).

Definition _dispatchMove (e : EventEnum.t) (c : Control.t) (w : World.t)
  : World.t :=
  let m := Control._mouse c in
  World.dispatchEvent (MoveEvent e (Mouse.curr m) (Mouse.prev m)) w.

Definition MouseControl__offsetCalc (c : Control.t) (x y : R) : Vector2.t :=
  let r := getRect c in
  Vector2.mk ((x - Rect.left r) / Rect.width r)
             ((y - Rect.top r) / Rect.height r).

(** [THREE.RotationControl] overrides [_offsetCalc]. *)
Definition RotationControl__offsetCalc (c : Control.t) (x y : R) : Vector2.t :=
  let r := getRect c in
  let w := JS.shr (Rect.width r) 1 in
  Vector2.mk ((x - w - Rect.left r) / w)
             ((Rect.height r + JS.shl (Rect.top r - y) 1) / Rect.width r).

(** [this._offsetCalc]. *)
Definition _offsetCalc (c : Control.t) (x y : R) : Vector2.t :=
  match Control.class c with
  | RotationControl => RotationControl__offsetCalc c x y
  | _ => MouseControl__offsetCalc c x y
  end.

(** Truthiness and [|| 0] of an optional numeric argument. *)
Definition arg_truthy (a : option R) : bool :=
  match a with
  | Some v => JS.truthy v
  | None => false
  end.

Definition arg_or (a : option R) (d : R) : R :=
  match a with
  | Some v => JS.or v d
  | None => d
  end.

Definition _saveMove (opt_x opt_y : option R) (c : Control.t) : Control.t :=
  let m := Control._mouse c in
  if arg_truthy opt_x || arg_truthy opt_y
  then Control.set__mouse
         (Mouse.set_curr (_offsetCalc c (arg_or opt_x 0) (arg_or opt_y 0)) m) c
  else Control.set__mouse (Mouse.set_prev (Mouse.curr m) m) c.

Definition _setEye (info : ObjectInfo.t) (eye : Vector3.t) (w : World.t)
  : ObjectInfo.t * World.t :=
  let target := World.read (ObjectInfo.target info) w in
  let w1 :=
    World.update (ObjectInfo.obj info)
      (Object3D.set_position (Vector3.addVectors target eye)) w in
  let w2 := World.update (ObjectInfo.obj info) (Object3D.lookAt target) w1 in
  _checkChange info w2.

Definition _startMove (x y : R) (c : Control.t) : Control.t :=
  _saveMove None None (_saveMove (Some x) (Some y) c).

Definition MouseControl__stopMove (c : Control.t) (w : World.t)
  : Control.t * World.t :=
  (c, _dispatchMove EventEnum.moveStop c w).

(** [THREE.RotationControl] overrides [_stopMove]. *)
Definition RotationControl__stopMove (c : Control.t) (w : World.t)
  : Control.t * World.t :=
  MouseControl__stopMove (_saveMove None None c) w.

(** [this._stopMove]. *)
Definition _stopMove (c : Control.t) (w : World.t) : Control.t * World.t :=
  match Control.class c with
  | RotationControl => RotationControl__stopMove c w
  | _ => MouseControl__stopMove c w
  end.

Definition MouseControl__doMove (x y : R) (c : Control.t) : Control.t :=
  _saveMove (Some x) (Some y) c.

(** [getTarget]: the clone's address, or [None] for [undefined]. *)
Definition getTarget (obj : oid) (c : Control.t) (w : World.t)
  : option loc * World.t :=
  match getObjectInfo_ obj c with
  | Some (_, info) =>
      let '(clone, w1) :=
        World.alloc (World.read (ObjectInfo.target info) w) w in
      (Some clone, w1)
  | None => (None, w)
  end.

(** The callback [reset] runs on every entry. *)
Definition reset_each (info : ObjectInfo.t) (w : World.t)
  : ObjectInfo.t * World.t :=
  let w1 :=
    World.update (ObjectInfo.obj info)
      (Object3D.set_position (ObjectInfo.pos info)) w in
  let w2 :=
    World.update (ObjectInfo.obj info)
      (Object3D.set_up (ObjectInfo.up info)) w1 in
  let '(info1, w3) := _checkChange info w2 in
  (ObjectInfo.set_last
     (Last.set_pos (ObjectInfo.pos info1) (ObjectInfo.last info1)) info1,
   w3).

Definition reset (c : Control.t) (w : World.t) : Control.t * World.t :=
  let '(infos, w') := forEach reset_each (Control._objInfo c) w in
  (Control.set__objInfo infos c, w').

(** [setTarget]: returns the vector that was the target, itself. *)
Definition setTarget (obj : oid) (target : loc) (c : Control.t) (w : World.t)
  : option loc * Control.t * World.t :=
  match getObjectInfo_ obj c with
  | Some (i, info) =>
      let origin := ObjectInfo.target info in
      let '(clone, w1) := World.alloc (World.read target w) w in
      (Some origin,
       Control.set__objInfo
         (<[i := ObjectInfo.set_target clone info]> (Control._objInfo c)) c,
       w1)
  | None => (None, c, w)
  end.

Definition mouseDown_ (e : MouseEvent) (c : Control.t) (w : World.t)
  : Control.t * World.t :=
  if decide (button e <> ButtonEnum.value (Control.button_ c)) then (c, w)
  else
    let c1 := Control.set__mouse (Mouse.set_capture true (Control._mouse c)) c in
    let c2 := _startMove (pageX e) (pageY e) c1 in
    (c2, _dispatchMove EventEnum.moveStart c2 w).

Definition mouseUp_ (e : MouseEvent) (c : Control.t) (w : World.t)
  : Control.t * World.t :=
  if negb (Mouse.capture (Control._mouse c)) then (c, w)
  else
    _stopMove
      (Control.set__mouse (Mouse.set_capture false (Control._mouse c)) c) w.

(** ** THREE.TouchControl *)

Definition new_TouchControl (objects : list oid) (dom : Dom) (w : World.t)
  : Control.t * World.t :=
  let '(c, w1) := new_MouseControl objects dom w in
  (Control.set_class TouchControl c, w1).

Definition notImplemented_ {A : Type} : result A := Throw "Not implemented".

Definition TouchControl__touchEnd (e : TouchEvent) (c : Control.t) (w : World.t)
  : result (Control.t * World.t) :=
  notImplemented_.

Definition TouchControl__touchMove (e : TouchEvent) (c : Control.t) (w : World.t)
  : result (Control.t * World.t) :=
  notImplemented_.

Definition TouchControl__touchStart (e : TouchEvent) (c : Control.t) (w : World.t)
  : result (Control.t * World.t) :=
  Ok (c, _dispatchMove EventEnum.moveStart c w).

(** ** THREE.RotationControl *)

(** [forEach] with a callback that may throw; the exception ends the loop. *)
Section forEachM.

Context {S : Type}.
Variable f : ObjectInfo.t -> S -> result (ObjectInfo.t * S).

Fixpoint forEachM (l : list ObjectInfo.t) (s : S)
  : result (list ObjectInfo.t * S) :=
  match l with
  | [] => Ok ([], s)
  | info :: rest =>
      bind (f info s) (fun '(info', s1) =>
      bind (forEachM rest s1) (fun '(rest', s2) =>
      Ok (info' :: rest', s2)))
  end.

End forEachM.

Definition new_RotationControl (objects : list oid) (dom : Dom) (w : World.t)
  : Control.t * World.t :=
  let '(c, w1) := new_TouchControl objects dom w in
  let '(infos, _) :=
    forEach
      (fun info (_ : unit) =>
         (ObjectInfo.set_last
            (Last.set_axis Vector3.zero
               (Last.set_angle 0 (ObjectInfo.last info))) info,
          tt))
      (Control._objInfo c) tt in
  (Control.set__objInfo infos (Control.set_class RotationControl c), w1).

(** The [if]/[else if] of [rotate_], which settles the local [angle] and
    the stored [last.angle]: it yields [None] where [angle] ends falsy and
    the source returns early, and otherwise the angle to rotate by with the
    updated entry.  Using [last.axis] while it is [undefined] is a
    [TypeError].  The root in the idle branch is the root of reals.  It is
    [Math.sqrt]'s as long as [dynamicDampingFactor <= 1]; for a larger
    factor [Math.sqrt] answers [NaN], which this model does not have, and
    what is proved of the values the idle branch leaves assumes a factor
    of at most 1. *)
Definition rotate_settle (direction : Vector3.t) (info : ObjectInfo.t)
    (c : Control.t) (w : World.t) : result (option (R * ObjectInfo.t)) :=
  let eye := _getEye info w in
  let angle := Vector3.length direction in
  let last := ObjectInfo.last info in
  if JS.truthy angle then
    let up :=
      Vector3.normalize
        (Object3D.up (World.object (ObjectInfo.obj info) w)) in
    let sideways :=
      Vector3.setLength
        (Vector3.normalize
           (Vector3.crossVectors up (Vector3.normalize eye)))
        (Vector3.x direction) in
    match Last.axis last with
    | None => Throw "TypeError"
    | Some _ =>
        let axis :=
          Vector3.normalize
            (Vector3.crossVectors
               (Vector3.add (Vector3.setLength up (Vector3.y direction))
                            sideways)
               eye) in
        Ok (Some (angle * Control.speed c,
                  ObjectInfo.set_last
                    (Last.set_angle (angle * Control.speed c)
                       (Last.set_axis axis last)) info))
    end
  else
    let f := Control.dynamicDampingFactor c in
    if JS.truthy f then
      match Last.angle last with
      | Some a =>
          if JS.truthy a then
            Ok (Some (a * sqrt (1 - f),
                      ObjectInfo.set_last
                        (Last.set_angle (a * sqrt (1 - f)) last) info))
          else Ok None
      | None => Ok None
      end
    else Ok None.

(** The rest of [rotate_]: the rotation by [last.angle] about [last.axis],
    applied to the up-vector and to the eye. *)
Definition rotate_apply (info : ObjectInfo.t) (eye : Vector3.t) (angle : R)
    (w : World.t) : result (ObjectInfo.t * World.t) :=
  match Last.axis (ObjectInfo.last info) with
  | None => Throw "TypeError"
  | Some axis =>
      let q := Quaternion.setFromAxisAngle axis angle in
      let w1 :=
        World.update (ObjectInfo.obj info)
          (fun o => Object3D.set_up (applyQuaternion (Object3D.up o) q) o)
          w in
      Ok (_setEye info (applyQuaternion eye q) w1)
  end.

Definition rotate_ (direction : Vector3.t) (info : ObjectInfo.t)
    (c : Control.t) (w : World.t) : result (ObjectInfo.t * World.t) :=
  let eye := _getEye info w in
  bind (rotate_settle direction info c w)
       (fun settled =>
          match settled with
          | None => Ok (info, w)
          | Some (angle, info1) => rotate_apply info1 eye angle w
          end).

Definition RotationControl__doMove (x y : R) (c : Control.t) (w : World.t)
  : result (Control.t * World.t) :=
  let c1 := MouseControl__doMove x y (_saveMove None None c) in
  let m := Control._mouse c1 in
  let direction :=
    Vector3.mk (Vector2.x (Mouse.curr m) - Vector2.x (Mouse.prev m))
               (Vector2.y (Mouse.curr m) - Vector2.y (Mouse.prev m))
               0 in
  bind (forEachM (fun info w => rotate_ direction info c1 w)
                 (Control._objInfo c1) w)
       (fun '(infos, w1) => Ok (Control.set__objInfo infos c1, w1)).

(** ** THREE.PanControl *)

Definition new_PanControl (objects : list oid) (dom : Dom) (w : World.t)
  : Control.t * World.t :=
  let '(c, w1) := new_MouseControl objects dom w in
  (set_button ButtonEnum.right (Control.set_class PanControl c), w1).

Definition pan_ (change : Vector2.t) (info : ObjectInfo.t) (c : Control.t)
    (w : World.t) : ObjectInfo.t * World.t :=
  let eye := _getEye info w in
  let change :=
    Vector2.multiplyScalar change (Vector3.length eye * Control.speed c) in
  let up := Object3D.up (World.object (ObjectInfo.obj info) w) in
  let target := ObjectInfo.target info in
  let w1 :=
    World.write target
      (Vector3.add (World.read target w)
         (Vector3.add
            (Vector3.setLength (Vector3.cross eye up) (Vector2.x change))
            (Vector3.setLength up (Vector2.y change)))) w in
  _setEye info eye w1.

Definition PanControl__doMove (x y : R) (c : Control.t) (w : World.t)
  : Control.t * World.t :=
  let c1 := MouseControl__doMove x y c in
  let m := Control._mouse c1 in
  let change := Vector2.sub (Mouse.curr m) (Mouse.prev m) in
  if JS.truthy (Vector2.lengthSq change) then
    let '(infos, w1) :=
      forEach (fun info w => pan_ change info c1 w) (Control._objInfo c1) w in
    let c2 := Control.set__objInfo infos c1 in
    let f := Control.dynamicDampingFactor c2 in
    if JS.truthy f then
      (Control.set__mouse
         (Mouse.set_prev
            (Vector2.add (Mouse.prev m) (Vector2.multiplyScalar change f)) m)
         c2,
       w1)
    else (_saveMove None None c2, w1)
  else (c1, w).

(** ** THREE.ZoomControl *)

Definition new_ZoomControl (objects : list oid) (dom : Dom) (w : World.t)
  : Control.t * World.t :=
  let '(c, w1) := new_TouchControl objects dom w in
  let c1 := Control.set_distances 0 Infinity (Control.set_class ZoomControl c) in
  let c2 := Control.set_touchStart_ 0 (Control.set_touchEnd_ 0 c1) in
  (set_button ButtonEnum.middle c2, w1).

(** The first [if]/[else] of [zoom_]: the factor [d], and [touchStart_]
    moved up to [touchEnd_] on the pinch path.  The quotient there is the
    quotient of reals.  It is JavaScript's quotient as long as [touchEnd_]
    is not zero; for [touchEnd_ = 0] JavaScript answers [Infinity] or
    [NaN], numbers this model does not have, and what is proved of the
    pinch path assumes [touchEnd_ <> 0] (or a factor other than zero,
    which implies it). *)
Definition zoom_factor (capture : bool) (c : Control.t) : R * Control.t :=
  if capture then
    let m := Control._mouse c in
    let d :=
      1 + (Vector2.y (Mouse.curr m) - Vector2.y (Mouse.prev m))
          * Control.speed c in
    (if bool_decide (d = 1) || bool_decide (d <= 0) then 0 else d, c)
  else
    (Control.touchStart_ c / Control.touchEnd_ c,
     Control.set_touchStart_ (Control.touchEnd_ c) c).

(** The two clamps of [zoom_] on the scaled eye: the eye to set and the
    value left in [d], [None] standing for [undefined]. *)
Definition zoom_clamp (c : Control.t) (eye : Vector3.t) (d : R)
  : Vector3.t * option R :=
  let '(eye1, d1) :=
    match Control.maxDistance c with
    | Finite maxDistance =>
        if decide (maxDistance * maxDistance < Vector3.lengthSq eye)
        then (Vector3.setLength eye maxDistance, None)
        else (eye, Some d)
    | Infinity => (eye, Some d)
    end in
  let minDistance := Control.minDistance c in
  if decide (Vector3.lengthSq eye1 < minDistance * minDistance)
  then (Vector3.setLength eye1 minDistance, None)
  else (eye1, d1).

Definition zoom_ (capture : bool) (info : ObjectInfo.t) (c : Control.t)
    (w : World.t) : option R * ObjectInfo.t * Control.t * World.t :=
  let '(d, c1) := zoom_factor capture c in
  if JS.truthy d then
    let eye := Vector3.multiplyScalar (_getEye info w) d in
    let '(eye', d') := zoom_clamp c1 eye d in
    let '(info', w') := _setEye info eye' w in
    (d', info', c1, w')
  else (Some d, info, c1, w).

(** The callback of [doZoom_]: the state threaded through the loop is the
    local [f] with the controller and the world. *)
Definition doZoom_each (capture : bool) (info : ObjectInfo.t)
    (s : R * Control.t * World.t) : ObjectInfo.t * (R * Control.t * World.t) :=
  let '(f, c, w) := s in
  let '(d, info', c', w') := zoom_ capture info c w in
  (info', (if d is None then 0 else f, c', w')).

Definition doZoom_ (capture : bool) (c : Control.t) (w : World.t)
  : Control.t * World.t :=
  let '(infos, (f, c1, w1)) :=
    forEach (doZoom_each capture) (Control._objInfo c)
            (Control.dynamicDampingFactor c, c, w) in
  let c2 := Control.set__objInfo infos c1 in
  if JS.truthy f then
    let m := Control._mouse c2 in
    let prev := Mouse.prev m in
    (Control.set__mouse
       (Mouse.set_prev
          (Vector2.mk (Vector2.x prev)
             (Vector2.y prev
              + f * (Vector2.y (Mouse.curr m) - Vector2.y prev))) m)
       c2,
     w1)
  else (_saveMove None None c2, w1).

Definition ZoomControl__doMove (x y : R) (c : Control.t) (w : World.t)
  : Control.t * World.t :=
  let c1 := MouseControl__doMove x y c in
  doZoom_ (Mouse.capture (Control._mouse c1)) c1 w.

(** [this._doMove]. *)
Definition _doMove (x y : R) (c : Control.t) (w : World.t)
  : result (Control.t * World.t) :=
  match Control.class c with
  | RotationControl => RotationControl__doMove x y c w
  | PanControl => Ok (PanControl__doMove x y c w)
  | ZoomControl => Ok (ZoomControl__doMove x y c w)
  | _ => Ok (MouseControl__doMove x y c, w)
  end.

Definition mouseMove_ (e : MouseEvent) (c : Control.t) (w : World.t)
  : result (Control.t * World.t) :=
  if Mouse.capture (Control._mouse c) then _doMove (pageX e) (pageY e) c w
  else Ok (c, w).

Definition mouseWheel_ (e : WheelEvent) (c : Control.t) (w : World.t)
  : Control.t * World.t :=
  let m := Control._mouse c in
  let unit :=
    match [0.00025; 0.01; 0.025] !! deltaMode e with
    | Some u => JS.or u 0.00025
    | None => 0.00025
    end in
  let prev := Mouse.prev m in
  let c1 :=
    Control.set__mouse
      (Mouse.set_prev
         (Vector2.mk (Vector2.x prev) (Vector2.y prev - deltaY e * unit)) m)
      c in
  let w1 := _dispatchMove EventEnum.moveStart c1 w in
  let '(c2, w2) := doZoom_ true c1 w1 in
  _stopMove c2 w2.

(** [distanceCalc_]; indexing a touch list shorter than two is a
    [TypeError]. *)
Definition distanceCalc_ (touches : list Touch) (opt_start : bool)
    (c : Control.t) (w : World.t) : result (Control.t * World.t) :=
  match touches with
  | t0 :: t1 :: _ =>
      let mx := JS.shr (touch_pageX t0 + touch_pageX t1) 1 in
      let my := JS.shr (touch_pageY t0 + touch_pageY t1) 1 in
      bind (if opt_start then Ok (_startMove mx my c, w)
            else _doMove mx my c w)
           (fun '(c1, w1) =>
              let x := touch_pageX t0 - touch_pageX t1 in
              let y := touch_pageY t0 - touch_pageY t1 in
              let c2 := Control.set_touchEnd_ (sqrt (x * x + y * y)) c1 in
              Ok (if opt_start
                  then Control.set_touchStart_ (Control.touchEnd_ c2) c2
                  else c2,
                  w1))
  | _ => Throw "TypeError"
  end.

(** ** Touch handlers of the concrete controllers *)

Definition RotationControl__touchEnd (e : TouchEvent) (c : Control.t)
    (w : World.t) : result (Control.t * World.t) :=
  match touches e with
  | [t] => Ok (_stopMove (_startMove (touch_pageX t) (touch_pageY t) c) w)
  | _ => Ok (c, w)
  end.

Definition RotationControl__touchMove (e : TouchEvent) (c : Control.t)
    (w : World.t) : result (Control.t * World.t) :=
  match touches e with
  | [t] => _doMove (touch_pageX t) (touch_pageY t) c w
  | _ => Ok (c, w)
  end.

Definition RotationControl__touchStart (e : TouchEvent) (c : Control.t)
    (w : World.t) : result (Control.t * World.t) :=
  match touches e with
  | [t] =>
      TouchControl__touchStart e
        (_startMove (touch_pageX t) (touch_pageY t) c) w
  | _ => Ok (c, w)
  end.

Definition ZoomControl__touchEnd (e : TouchEvent) (c : Control.t)
    (w : World.t) : result (Control.t * World.t) :=
  if decide (1 < length (touches e))%nat then Ok (_stopMove c w)
  else Ok (c, w).

Definition ZoomControl__touchMove (e : TouchEvent) (c : Control.t)
    (w : World.t) : result (Control.t * World.t) :=
  if decide (1 < length (touches e))%nat
  then distanceCalc_ (touches e) false c w
  else Ok (c, w).

Definition ZoomControl__touchStart (e : TouchEvent) (c : Control.t)
    (w : World.t) : result (Control.t * World.t) :=
  if decide (length (touches e) <= 1)%nat then Ok (c, w)
  else
    bind (distanceCalc_ (touches e) true c w)
         (fun '(c1, w1) => TouchControl__touchStart e c1 w1).

(** ** Method resolution for the touch hooks *)

Inductive Hook : Type := _touchStart | _touchMove | _touchEnd.

(** Whether the class body of [k] defines hook [h] itself. *)
Definition defines (k : Class) (h : Hook) : bool :=
  match k with
  | TouchControl | RotationControl | ZoomControl => true
  | MouseControl | PanControl => false
  end.

(** [k] is [TouchControl] or extends it. *)
Definition isTouchControl (k : Class) : bool :=
  match k with
  | TouchControl => true
  | _ => bool_decide (super k = Some TouchControl)
  end.

(** A behavior overrides a hook when it extends [THREE.TouchControl] and
    defines the hook in its own class body. *)
Definition overrides (k : Class) (h : Hook) : bool :=
  bool_decide (super k = Some TouchControl) && defines k h.

(** The class whose definition of [h] an instance of [k] runs: the nearest
    one along [super] that defines it. *)
Fixpoint resolve (depth : nat) (k : Class) (h : Hook) : option Class :=
  if defines k h then Some k
  else
    match depth, super k with
    | S depth', Some k' => resolve depth' k' h
    | _, _ => None
    end.

(** Calling [this[h](e)] on controller [c]. *)
Definition invoke (h : Hook) (e : TouchEvent) (c : Control.t) (w : World.t)
  : result (Control.t * World.t) :=
  match resolve 2 (Control.class c) h, h with
  | Some RotationControl, _touchStart => RotationControl__touchStart e c w
  | Some RotationControl, _touchMove => RotationControl__touchMove e c w
  | Some RotationControl, _touchEnd => RotationControl__touchEnd e c w
  | Some ZoomControl, _touchStart => ZoomControl__touchStart e c w
  | Some ZoomControl, _touchMove => ZoomControl__touchMove e c w
  | Some ZoomControl, _touchEnd => ZoomControl__touchEnd e c w
  | Some TouchControl, _touchStart => TouchControl__touchStart e c w
  | Some TouchControl, _touchMove => TouchControl__touchMove e c w
  | Some TouchControl, _touchEnd => TouchControl__touchEnd e c w
  | _, _ => Throw "TypeError"
  end.

(** ** Vocabulary of the properties *)

(** [obj] is one of the objects the controller was constructed with. *)
Definition registered (obj : oid) (c : Control.t) : Prop :=
  ∃ info, info ∈ Control._objInfo c ∧ ObjectInfo.obj info = obj.

(** The entry holds, as its snapshot, the position and up-vector its
    object had in world [w0]: what the constructor captures when it runs
    in [w0]. *)
Definition snapshot_of (w0 : World.t) (info : ObjectInfo.t) : Prop :=
  ObjectInfo.pos info
  = Object3D.position (World.object (ObjectInfo.obj info) w0)
  ∧ ObjectInfo.up info = Object3D.up (World.object (ObjectInfo.obj info) w0).

(** The [moveChange] event [reset] owes an entry: one exactly when the
    position recorded in [last.pos] is further than [EPS] (in squared
    distance) from the snapshot; the event carries that recorded
    position. *)
Definition reset_event (w : World.t) (info : ObjectInfo.t) : list Event :=
  let recorded := Last.pos (ObjectInfo.last info) in
  if decide (Vector3.distanceToSquared recorded (ObjectInfo.pos info) <= EPS)
  then []
  else [ChangeEvent (World.read (ObjectInfo.target info) w)
                    (ObjectInfo.obj info) recorded EventEnum.moveChange].

(** A [moveChange] event for [obj] is among [events]. *)
Definition moveChange_for (obj : oid) (events : list Event) : Prop :=
  ∃ lookAt position,
    ChangeEvent lookAt obj position EventEnum.moveChange ∈ events.

(** The scaled eye meets a distance bound: it is longer than
    [maxDistance] or shorter than [minDistance]. *)
Definition saturates (c : Control.t) (eye : Vector3.t) : Prop :=
  (∃ M, Control.maxDistance c = Finite M ∧ M * M < Vector3.lengthSq eye)
  ∨ Vector3.lengthSq eye < Control.minDistance c * Control.minDistance c.

(** Some object saturates during the zoom step over [infos] that starts in
    controller state [c] and world [w]; each object is zoomed in the state
    its predecessors left. *)
Fixpoint any_saturated (capture : bool) (infos : list ObjectInfo.t)
    (c : Control.t) (w : World.t) : Prop :=
  match infos with
  | [] => False
  | info :: rest =>
      let d := (zoom_factor capture c).1 in
      (d ≠ 0 ∧ saturates c (Vector3.multiplyScalar (_getEye info w) d))
      ∨ any_saturated capture rest
          (zoom_ capture info c w).1.2 (zoom_ capture info c w).2
  end.

(** ** A small scene for the examples

    One object, [camera], with up-vector (0,1,0); its controller sits on
    [document.body] in a 100 by 100 window and has one entry, whose target
    is the vector at address [target1]. *)

Definition camera : oid := 1%positive.
Definition target1 : loc := 1%positive.
Definition up_y : Vector3.t := Vector3.mk 0 1 0.

(** The world with the camera at [position] and the target at [target]. *)
Definition world_of (position target : Vector3.t) : World.t :=
  World.mk {[camera := Object3D.mk position up_y Object3D.Initial]}
           {[target1 := target]} [].

(** The entry for the camera registered at [snapshot], whose recorded
    position ([last.pos]) is [recorded]. *)
Definition info_of (snapshot recorded : Vector3.t) : ObjectInfo.t :=
  ObjectInfo.mk (Last.mk recorded None None) camera snapshot up_y target1.

(** A controller of class [k] as its constructor leaves it, but for the
    entries, the button and the pointer state given here. *)
Definition control_of (k : Class) (button : ButtonEnum.t)
    (infos : list ObjectInfo.t) (mouse : Mouse.t) : Control.t :=
  Control.mk k 1 0.2 infos mouse button (Body 100 100) (Rect.mk 0 0 100 100)
             0 Infinity 0 0.

Definition mouse0 : Mouse.t := Mouse.mk false Vector2.zero Vector2.zero.

(** A rotation controller as its constructor leaves it, but for the speed,
    the damping factor and the entries given here. *)
Definition rotation_of (speed dynamicDampingFactor : R)
    (infos : list ObjectInfo.t) : Control.t :=
  Control.set_speed speed
    (Control.set_dynamicDampingFactor dynamicDampingFactor
       (control_of RotationControl ButtonEnum.left infos mouse0)).

(** The entry for the camera as [THREE.RotationControl]'s constructor
    leaves it. *)
Definition rotation_info_of (snapshot : Vector3.t) : ObjectInfo.t :=
  ObjectInfo.mk (Last.mk snapshot (Some 0) (Some Vector3.zero))
                camera snapshot up_y target1.

(** A zoom controller with the distances, the pointer state and the pinch
    distances given here. *)
Definition zoom_of (minDistance : R) (maxDistance : Distance)
    (infos : list ObjectInfo.t) (mouse : Mouse.t) (touchStart touchEnd : R)
  : Control.t :=
  Control.mk ZoomControl 1 0.2 infos mouse ButtonEnum.middle (Body 100 100)
             (Rect.mk 0 0 100 100) minDistance maxDistance
             touchStart touchEnd.

(** ** Event delivery

    The listeners the constructors install: [mousedown], [mousemove] and
    [mouseup] on every controller, the three touch events on a
    [THREE.TouchControl], [wheel] on a [THREE.ZoomControl].  An event
    nobody listens to leaves the controller alone. *)

Inductive DomEvent : Type :=
| mousedown (e : MouseEvent)
| mousemove (e : MouseEvent)
| mouseup (e : MouseEvent)
| touchstart (e : TouchEvent)
| touchmove (e : TouchEvent)
| touchend (e : TouchEvent)
| wheel (e : WheelEvent).

Definition deliver (ev : DomEvent) (c : Control.t) (w : World.t)
  : result (Control.t * World.t) :=
  match ev with
  | mousedown e => Ok (mouseDown_ e c w)
  | mousemove e => mouseMove_ e c w
  | mouseup e => Ok (mouseUp_ e c w)
  | touchstart e =>
      if isTouchControl (Control.class c) then invoke _touchStart e c w
      else Ok (c, w)
  | touchmove e =>
      if isTouchControl (Control.class c) then invoke _touchMove e c w
      else Ok (c, w)
  | touchend e =>
      if isTouchControl (Control.class c) then invoke _touchEnd e c w
      else Ok (c, w)
  | wheel e =>
      if decide (Control.class c = ZoomControl) then Ok (mouseWheel_ e c w)
      else Ok (c, w)
  end.

(** Events delivered one after the other; an exception ends the run. *)
Fixpoint run (evs : list DomEvent) (c : Control.t) (w : World.t)
  : result (Control.t * World.t) :=
  match evs with
  | [] => Ok (c, w)
  | ev :: rest => bind (deliver ev c w) (fun '(c1, w1) => run rest c1 w1)
  end.

(** Between [w] and [w'] at most [n] events were dispatched, all of them
    [moveChange], and nothing was taken from the log. *)
Definition change_events (n : nat) (w w' : World.t) : Prop :=
  ∃ evs,
    World.events w' = World.events w ++ evs
    ∧ (length evs ≤ n)%nat
    ∧ Forall (fun e => type e = EventEnum.moveChange) evs.

(** Every entry has its [last.axis], as [THREE.RotationControl]'s
    constructor leaves them. *)
Definition axes_defined (c : Control.t) : Prop :=
  Forall (fun info => is_Some (Last.axis (ObjectInfo.last info)))
         (Control._objInfo c).

(** [c'] is [c] with, at most, other entries (as many), another pointer
    state and other pinch distances. *)
Definition same_controller (c c' : Control.t) : Prop :=
  Control.class c' = Control.class c
  ∧ Control.button_ c' = Control.button_ c
  ∧ Control.speed c' = Control.speed c
  ∧ Control.dynamicDampingFactor c' = Control.dynamicDampingFactor c
  ∧ Control.minDistance c' = Control.minDistance c
  ∧ Control.maxDistance c' = Control.maxDistance c
  ∧ length (Control._objInfo c') = length (Control._objInfo c).


(** The eye a zoom step by the factor [d] sets for an entry: its eye
    scaled by [d], then clamped to the distance bounds. *)
Definition zoomed_eye (d : R) (info : ObjectInfo.t) (c : Control.t)
    (w : World.t) : Vector3.t :=
  (zoom_clamp c (Vector3.multiplyScalar (_getEye info w) d) d).1.

(** A pointer event that is no press with the button bound on [c]: a
    move, a release, or a press with another button. *)
Definition idle_event (c : Control.t) (ev : DomEvent) : Prop :=
  match ev with
  | mousedown e => button e ≠ ButtonEnum.value (Control.button_ c)
  | mousemove _ | mouseup _ => True
  | _ => False
  end.

(** * Properties *)

(** ** Reading and writing the world *)

Lemma read_write_eq (a : loc) (v : Vector3.t) (w : World.t) :
  World.read a (World.write a v w) = v.
Proof. unfold World.read, World.write; simpl. apply lookup_total_insert_eq. Qed.

Lemma read_write_ne (a b : loc) (v : Vector3.t) (w : World.t) :
  a ≠ b → World.read b (World.write a v w) = World.read b w.
Proof.
  intros Hab. unfold World.read, World.write; simpl.
  by apply lookup_total_insert_ne.
Qed.

Lemma alloc_fresh (v : Vector3.t) (w : World.t) :
  (World.alloc v w).1 ∉ dom (World.heap w).
Proof. unfold World.alloc; simpl. apply is_fresh. Qed.

Lemma alloc_dom (v : Vector3.t) (w : World.t) :
  (World.alloc v w).1 ∈ dom (World.heap (World.alloc v w).2).
Proof.
  unfold World.alloc, World.write; simpl.
  apply elem_of_dom. rewrite lookup_insert_eq. by eexists.
Qed.

Lemma alloc_read_new (v : Vector3.t) (w : World.t) :
  World.read (World.alloc v w).1 (World.alloc v w).2 = v.
Proof. unfold World.alloc; simpl. apply read_write_eq. Qed.

Lemma alloc_read_old (a : loc) (v : Vector3.t) (w : World.t) :
  a ∈ dom (World.heap w) →
  World.read a (World.alloc v w).2 = World.read a w.
Proof.
  intros Ha. unfold World.alloc; simpl. apply read_write_ne.
  intros Heq. rewrite <- Heq in Ha. by apply is_fresh in Ha.
Qed.

Lemma object_update_eq (o : oid) (f : Object3D.t → Object3D.t) (w : World.t) :
  World.object o (World.update o f w) = f (World.object o w).
Proof. unfold World.object, World.update; simpl. apply lookup_total_insert_eq. Qed.

Lemma object_update_ne (o o' : oid) (f : Object3D.t → Object3D.t) (w : World.t) :
  o ≠ o' → World.object o' (World.update o f w) = World.object o' w.
Proof.
  intros Hne. unfold World.object, World.update; simpl.
  by apply lookup_total_insert_ne.
Qed.

(** ** Targets *)


Lemma getObjectInfo__registered (obj : oid) (c : Control.t) :
  registered obj c →
  ∃ i info, getObjectInfo_ obj c = Some (i, info)
            ∧ Control._objInfo c !! i = Some info
            ∧ ObjectInfo.obj info = obj.
Proof.
  intros (info & Hin & Hobj). unfold getObjectInfo_.
  destruct (list_find_elem_of (λ i, ObjectInfo.obj i = obj) _ info Hin Hobj)
    as [[i info'] Hfind].
  exists i, info'. split; [done|].
  apply list_find_Some in Hfind as (Hi & Hobj' & _). done.
Qed.

(** After [setTarget] the entry found for [obj] is the same slot, now
    pointing at the clone. *)
Lemma getObjectInfo__insert (obj : oid) (c : Control.t) (i : nat)
    (info : ObjectInfo.t) (a : loc) :
  getObjectInfo_ obj c = Some (i, info) →
  getObjectInfo_ obj
    (Control.set__objInfo
       (<[i := ObjectInfo.set_target a info]> (Control._objInfo c)) c)
  = Some (i, ObjectInfo.set_target a info).
Proof.
  unfold getObjectInfo_; simpl. intros Hfind.
  apply list_find_Some in Hfind as (Hi & Hobj & Hfirst).
  apply list_find_Some. split_and!.
  - apply list_lookup_insert_eq. by eapply lookup_lt_Some.
  - done.
  - intros j y Hj Hlt. rewrite list_lookup_insert_ne in Hj by lia.
    by eapply Hfirst.
Qed.


(** C10. On a tracked object, [getTarget] after [setTarget(obj, t)] returns
    a vector equal to [t].  The vector stored is a clone of the argument
    and the vector returned is a clone of the stored one, so writing to
    either afterwards leaves the stored target as it was. *)
Theorem setTarget_getTarget_roundtrip_defensive
    (obj : oid) (t : loc) (c : Control.t) (w : World.t) :
  registered obj c →
  t ∈ dom (World.heap w) →
  ∃ prev c1 w1 r w2 i info1,
    setTarget obj t c w = (Some prev, c1, w1)
    ∧ getTarget obj c1 w1 = (Some r, w2)
    ∧ getObjectInfo_ obj c1 = Some (i, info1)
    ∧ World.read r w2 = World.read t w
    ∧ ObjectInfo.target info1 ≠ t
    ∧ r ≠ ObjectInfo.target info1
    ∧ (∀ v, World.read (ObjectInfo.target info1) (World.write t v w1)
            = World.read t w)
    ∧ (∀ v, World.read (ObjectInfo.target info1) (World.write r v w2)
            = World.read t w).
Proof.
  intros Hreg Ht.
  destruct (getObjectInfo__registered _ _ Hreg) as (i & info & Hfind & _ & _).
  pose proof (alloc_fresh (World.read t w) w) as Hfresh.
  pose proof (alloc_read_new (World.read t w) w) as Hnew.
  pose proof (alloc_dom (World.read t w) w) as Hdom.
  unfold setTarget. rewrite Hfind.
  destruct (World.alloc (World.read t w) w) as [a w1] eqn:Ha.
  simpl in Hfresh, Hnew, Hdom.
  pose proof (getObjectInfo__insert _ _ _ _ a Hfind) as Hfind1.
  pose proof (alloc_fresh (World.read a w1) w1) as Hfresh2.
  pose proof (alloc_read_new (World.read a w1) w1) as Hnew2.
  pose proof (alloc_read_old a (World.read a w1) w1 Hdom) as Hold2.
  unfold getTarget.
  destruct (World.alloc (World.read a w1) w1) as [r w2] eqn:Hr.
  simpl in Hfresh2, Hnew2, Hold2.
  assert (a ≠ t) as Hat by (intros ->; done).
  assert (r ≠ a) as Hra by (intros ->; done).
  exists (ObjectInfo.target info),
    (Control.set__objInfo
       (<[i := ObjectInfo.set_target a info]> (Control._objInfo c)) c),
    w1, r, w2, i, (ObjectInfo.set_target a info).
  rewrite Hfind1. cbn [ObjectInfo.target ObjectInfo.set_target]. rewrite Hr.
  split_and!; try done.
  - by rewrite Hnew2.
  - intros v. rewrite read_write_ne by done. done.
  - intros v. rewrite read_write_ne by done. by rewrite Hold2.
Qed.

(** ** Change detection and reset *)

Lemma _checkChange_world (info : ObjectInfo.t) (w : World.t) :
  World.scene (_checkChange info w).2 = World.scene w
  ∧ World.heap (_checkChange info w).2 = World.heap w.
Proof. unfold _checkChange. by case_decide. Qed.

Lemma _checkChange_info (info : ObjectInfo.t) (w : World.t) :
  let info' := (_checkChange info w).1 in
  ObjectInfo.obj info' = ObjectInfo.obj info
  ∧ ObjectInfo.pos info' = ObjectInfo.pos info
  ∧ ObjectInfo.up info' = ObjectInfo.up info
  ∧ ObjectInfo.target info' = ObjectInfo.target info.
Proof. unfold _checkChange. by case_decide. Qed.

Lemma read_heap_eq (a : loc) (w w' : World.t) :
  World.heap w' = World.heap w → World.read a w' = World.read a w.
Proof. unfold World.read. by intros ->. Qed.

Lemma object_scene_eq (o : oid) (w w' : World.t) :
  World.scene w' = World.scene w → World.object o w' = World.object o w.
Proof. unfold World.object. by intros ->. Qed.

(** One entry of [reset]: its object is put back on the snapshot, no other
    object moves, the heap stays, and the event is the one owed. *)
Lemma reset_each_spec (info : ObjectInfo.t) (w : World.t) :
  let info' := (reset_each info w).1 in
  let w' := (reset_each info w).2 in
  Object3D.position (World.object (ObjectInfo.obj info) w') = ObjectInfo.pos info
  ∧ Object3D.up (World.object (ObjectInfo.obj info) w') = ObjectInfo.up info
  ∧ (∀ o, o ≠ ObjectInfo.obj info → World.object o w' = World.object o w)
  ∧ World.heap w' = World.heap w
  ∧ World.events w' = World.events w ++ reset_event w info
  ∧ ObjectInfo.obj info' = ObjectInfo.obj info
  ∧ ObjectInfo.pos info' = ObjectInfo.pos info
  ∧ ObjectInfo.up info' = ObjectInfo.up info
  ∧ ObjectInfo.target info' = ObjectInfo.target info
  ∧ Last.pos (ObjectInfo.last info') = ObjectInfo.pos info.
Proof.
  unfold reset_each.
  set (w1 := World.update _ (Object3D.set_position _) w).
  set (w2 := World.update _ (Object3D.set_up _) w1).
  assert (World.object (ObjectInfo.obj info) w2
          = Object3D.set_up (ObjectInfo.up info)
              (Object3D.set_position (ObjectInfo.pos info)
                 (World.object (ObjectInfo.obj info) w))) as Hobj.
  { unfold w2, w1. by rewrite !object_update_eq. }
  assert (∀ o, o ≠ ObjectInfo.obj info → World.object o w2 = World.object o w)
    as Hother.
  { intros o Ho. unfold w2, w1. by rewrite !object_update_ne. }
  assert (World.heap w2 = World.heap w) as Hheap by done.
  assert (World.events w2 = World.events w) as Hev by done.
  destruct (_checkChange_world info w2) as [Hscene Hheap'].
  destruct (_checkChange_info info w2) as (Ho & Hp & Hu & Ht).
  destruct (_checkChange info w2) as [info1 w3] eqn:Hcc.
  cbn [fst snd] in *.
  split_and!; try done.
  - by rewrite (object_scene_eq _ _ _ Hscene), Hobj.
  - by rewrite (object_scene_eq _ _ _ Hscene), Hobj.
  - intros o Hne. rewrite (object_scene_eq _ _ _ Hscene). by apply Hother.
  - revert Hcc. unfold _checkChange, reset_event. rewrite Hobj.
    cbn [Object3D.position Object3D.set_up Object3D.set_position].
    rewrite (read_heap_eq _ w2 w Hheap).
    case_decide; intros [= <- <-]; simpl.
    + by rewrite app_nil_r.
    + done.
Qed.

(** The loop of [reset], from any world: every object among the entries
    ends on the snapshot world's position and up-vector, every other object
    is untouched, and the events owed are dispatched in entry order. *)
Lemma reset_loop (w0 : World.t) (infos : list ObjectInfo.t) :
  Forall (snapshot_of w0) infos →
  ∀ w,
    let infos' := (forEach reset_each infos w).1 in
    let w' := (forEach reset_each infos w).2 in
    (∀ o, (o ∈ ObjectInfo.obj <$> infos →
           Object3D.position (World.object o w')
           = Object3D.position (World.object o w0)
           ∧ Object3D.up (World.object o w') = Object3D.up (World.object o w0))
          ∧ (o ∉ ObjectInfo.obj <$> infos →
             World.object o w' = World.object o w))
    ∧ World.heap w' = World.heap w
    ∧ World.events w' = World.events w ++ flat_map (reset_event w) infos
    ∧ Forall2 (λ info info',
               ObjectInfo.obj info' = ObjectInfo.obj info
               ∧ ObjectInfo.pos info' = ObjectInfo.pos info
               ∧ ObjectInfo.up info' = ObjectInfo.up info
               ∧ ObjectInfo.target info' = ObjectInfo.target info
               ∧ Last.pos (ObjectInfo.last info') = ObjectInfo.pos info)
        infos infos'.
Proof.
  induction 1 as [|info infos Hsnap Hrest IH]; intros w; simpl.
  - split_and!; [|done|by rewrite app_nil_r|constructor].
    intros o. split; [by intros ?%elem_of_nil|done].
  - pose proof (reset_each_spec info w) as Hstep.
    destruct (reset_each info w) as [info1 w1]. simpl in Hstep.
    destruct Hstep as (Hp & Hu & Hoth & Hheap & Hev & Hi1).
    specialize (IH w1).
    destruct (forEach reset_each infos w1) as [infos' w']. simpl in IH |- *.
    destruct IH as (Hobjs & Hheap' & Hev' & Hall).
    destruct Hsnap as [Hsp Hsu].
    split_and!.
    + intros o. destruct (Hobjs o) as [Hin Hout]. split.
      * intros Ho. destruct (decide (o ∈ ObjectInfo.obj <$> infos)) as [Hi|Hni].
        { by apply Hin. }
        apply elem_of_cons in Ho as [->|Ho]; [|done].
        rewrite (Hout Hni), Hp, Hu. done.
      * intros Ho. apply not_elem_of_cons in Ho as [Hne Hni].
        rewrite (Hout Hni). by apply Hoth.
    + by rewrite Hheap'.
    + rewrite Hev', Hev, <- app_assoc. do 2 f_equal.
      apply flat_map_ext. intros i. unfold reset_event.
      by rewrite (read_heap_eq _ w w1 Hheap).
    + by constructor.
Qed.

Lemma map_new_ObjectInfo_snapshot (objects : list oid) (w0 : World.t) :
  ∀ w, World.scene w = World.scene w0 →
       Forall (snapshot_of w0) (map_new_ObjectInfo objects w).1
       ∧ ObjectInfo.obj <$> (map_new_ObjectInfo objects w).1 = objects.
Proof.
  induction objects as [|o objects IH]; intros w Hscene; simpl; [done|].
  specialize (IH (World.alloc Vector3.zero w).2 Hscene).
  destruct (map_new_ObjectInfo objects _) as [infos w2].
  cbn [fst snd] in IH |- *.
  destruct IH as [IH1 IH2]. split; [|by rewrite fmap_cons, IH2].
  constructor; [|done].
  unfold snapshot_of; simpl. by rewrite (object_scene_eq o w0 w).
Qed.

Lemma object_world_of (position target : Vector3.t) :
  World.object camera (world_of position target)
  = Object3D.mk position up_y Object3D.Initial.
Proof. reflexivity. Qed.

Lemma read_world_of (position target : Vector3.t) :
  World.read target1 (world_of position target) = target.
Proof. reflexivity. Qed.

(** The constructor snapshots the world it runs in. *)
Lemma new_MouseControl_snapshot (objects : list oid) (dom : Dom) (w0 : World.t) :
  Forall (snapshot_of w0) (Control._objInfo (new_MouseControl objects dom w0).1)
  ∧ ObjectInfo.obj <$> Control._objInfo (new_MouseControl objects dom w0).1
    = objects.
Proof.
  unfold new_MouseControl.
  destruct (map_new_ObjectInfo_snapshot objects w0 w0 eq_refl) as [H1 H2].
  destruct (map_new_ObjectInfo objects w0) as [infos w1].
  unfold resize_. simpl in *. by destruct dom.
Qed.

(** The example controller is what the constructor builds for a camera
    standing at [p]. *)
Lemma new_MouseControl_example (p : Vector3.t) :
  new_MouseControl [camera] (Body 100 100)
    (World.mk {[camera := Object3D.mk p up_y Object3D.Initial]} ∅ [])
  = (control_of MouseControl ButtonEnum.left [info_of p p] mouse0,
     world_of p Vector3.zero).
Proof. reflexivity. Qed.

(** So are the other example controllers what their constructors build. *)
Lemma new_PanControl_example :
  new_PanControl [] (Body 100 100) (World.mk ∅ ∅ [])
  = (control_of PanControl ButtonEnum.right [] mouse0, World.mk ∅ ∅ []).
Proof. reflexivity. Qed.

Lemma new_ZoomControl_example (p : Vector3.t) :
  new_ZoomControl [camera] (Body 100 100)
    (World.mk {[camera := Object3D.mk p up_y Object3D.Initial]} ∅ [])
  = (zoom_of 0 Infinity [info_of p p] mouse0 0 0, world_of p Vector3.zero).
Proof. reflexivity. Qed.

Lemma new_RotationControl_example (p : Vector3.t) :
  new_RotationControl [camera] (Body 100 100)
    (World.mk {[camera := Object3D.mk p up_y Object3D.Initial]} ∅ [])
  = (Control.set__objInfo [rotation_info_of p] (rotation_of 1 0.2 []),
     world_of p Vector3.zero).
Proof. reflexivity. Qed.

(** What [last.pos] holds.  While the object is within [EPS] of it,
    [_checkChange] does nothing.  Otherwise it dispatches one [moveChange],
    which carries the old [last.pos], and records where the object stands.
    So [last.pos] is the object's position as copied at registration or at
    the latest check that dispatched a [moveChange] (and the snapshot after
    a [reset]); it is not the position the latest event carried. *)
Lemma _checkChange_records (info : ObjectInfo.t) (w : World.t) :
  let position := Object3D.position (World.object (ObjectInfo.obj info) w) in
  let recorded := Last.pos (ObjectInfo.last info) in
  (Vector3.distanceToSquared recorded position <= EPS →
   _checkChange info w = (info, w))
  ∧ (EPS < Vector3.distanceToSquared recorded position →
     Last.pos (ObjectInfo.last (_checkChange info w).1) = position
     ∧ World.events (_checkChange info w).2
       = World.events w
         ++ [ChangeEvent (World.read (ObjectInfo.target info) w)
                         (ObjectInfo.obj info) recorded
                         EventEnum.moveChange]).
Proof.
  intros position recorded. unfold _checkChange. fold position recorded.
  split; intros Hd.
  - by rewrite decide_True.
  - by rewrite decide_False by lra.
Qed.

(** C1, as amended.  Let the entries of the controller hold the snapshot
    taken in world [w0].  After [reset()], every registered object has the
    position and up-vector it had in [w0], and the events dispatched are,
    in entry order, one [moveChange] for each entry whose recorded position
    ([last.pos], see [_checkChange_records]) lies further than [EPS] from
    the snapshot; each carries that recorded position. *)
Theorem reset_restores_snapshot (w0 : World.t) (c : Control.t) (w : World.t) :
  Forall (snapshot_of w0) (Control._objInfo c) →
  (∀ obj, registered obj c →
          Object3D.position (World.object obj (reset c w).2)
          = Object3D.position (World.object obj w0)
          ∧ Object3D.up (World.object obj (reset c w).2)
            = Object3D.up (World.object obj w0))
  ∧ World.events (reset c w).2
    = World.events w ++ flat_map (reset_event w) (Control._objInfo c).
Proof.
  intros Hsnap. pose proof (reset_loop w0 _ Hsnap w) as Hloop.
  unfold reset.
  destruct (forEach reset_each (Control._objInfo c) w) as [infos w'].
  simpl in Hloop |- *. destruct Hloop as (Hobjs & _ & Hev & _).
  split; [|done].
  intros obj (info & Hin & <-). apply Hobjs.
  apply list_elem_of_fmap. by exists info.
Qed.

(** For the camera registered at (0,0,5), moved since and recorded where
    it now stands, at (0,0,7), [reset] brings it back and dispatches the
    event, which carries (0,0,7). *)
Lemma reset_restores_snapshot_witness :
  let c :=
    control_of MouseControl ButtonEnum.left
      [info_of (Vector3.mk 0 0 5) (Vector3.mk 0 0 7)] mouse0 in
  let w := world_of (Vector3.mk 0 0 7) Vector3.zero in
  Object3D.position (World.object camera (reset c w).2) = Vector3.mk 0 0 5
  ∧ World.events (reset c w).2
    = [ChangeEvent Vector3.zero camera (Vector3.mk 0 0 7) EventEnum.moveChange].
Proof.
  intros c w.
  assert (Forall (snapshot_of (world_of (Vector3.mk 0 0 5) Vector3.zero))
            (Control._objInfo c)) as Hsnap.
  { constructor; [split; reflexivity | constructor]. }
  destruct (reset_restores_snapshot _ c w Hsnap) as [Hpos Hev].
  split.
  - apply (Hpos camera). eexists. split; [apply list_elem_of_here | reflexivity].
  - rewrite Hev. simpl. rewrite app_nil_r. unfold reset_event.
    rewrite decide_False; [reflexivity|].
    unfold Vector3.distanceToSquared, EPS; simpl. lra.
Defined.

(** C1 as stated fails: the camera was registered at the origin and has
    since been moved to (1,0,0) by its host (or by another controller
    sharing it), so this controller never recorded the move.  [reset] puts
    it back without a [moveChange], although the position before the reset
    was at squared distance 1 from the snapshot. *)
Lemma reset_moveChange_counterexample :
  let c :=
    control_of MouseControl ButtonEnum.left
      [info_of Vector3.zero Vector3.zero] mouse0 in
  let w := world_of (Vector3.mk 1 0 0) Vector3.zero in
  ¬ (moveChange_for camera (World.events (reset c w).2)
     ↔ EPS < Vector3.distanceToSquared
               (Object3D.position (World.object camera w))
               (ObjectInfo.pos (info_of Vector3.zero Vector3.zero))).
Proof.
  intros c w [_ Hclaim].
  assert (Forall (snapshot_of (world_of Vector3.zero Vector3.zero))
            (Control._objInfo c)) as Hsnap.
  { constructor; [split; reflexivity | constructor]. }
  destruct (reset_loop _ _ Hsnap w) as (_ & _ & Hev & _).
  assert (World.events (reset c w).2 = []) as Hnone.
  { unfold reset.
    destruct (forEach reset_each (Control._objInfo c) w) as [infos w'].
    simpl in Hev |- *. rewrite Hev. simpl. rewrite app_nil_r.
    unfold reset_event. rewrite decide_True; [reflexivity|].
    unfold Vector3.distanceToSquared, EPS; simpl. lra. }
  rewrite Hnone in Hclaim.
  destruct Hclaim as (lookAt & position & Hin).
  - subst w. rewrite object_world_of.
    unfold Vector3.distanceToSquared, EPS; simpl. lra.
  - by apply elem_of_nil in Hin.
Qed.

(** The other way round, within one controller: the camera, registered at
    (0,0,5), was last recorded at (0,0,5.0015) and has since crept back to
    (0,0,5.0008), a move too small to record.  It now stands within [EPS]
    of the snapshot, and [reset] dispatches a [moveChange] all the same. *)
Lemma reset_moveChange_stale_report :
  let c :=
    control_of MouseControl ButtonEnum.left
      [info_of (Vector3.mk 0 0 5) (Vector3.mk 0 0 5.0015)] mouse0 in
  let w := world_of (Vector3.mk 0 0 5.0008) Vector3.zero in
  Vector3.distanceToSquared
    (Object3D.position (World.object camera w)) (Vector3.mk 0 0 5) <= EPS
  ∧ World.events (reset c w).2
    = [ChangeEvent Vector3.zero camera (Vector3.mk 0 0 5.0015)
                   EventEnum.moveChange].
Proof.
  intros c w. split.
  - subst w. rewrite object_world_of.
    unfold Vector3.distanceToSquared, EPS; simpl. lra.
  - assert (Forall (snapshot_of (world_of (Vector3.mk 0 0 5) Vector3.zero))
              (Control._objInfo c)) as Hsnap.
    { constructor; [split; reflexivity | constructor]. }
    destruct (reset_loop _ _ Hsnap w) as (_ & _ & Hev & _).
    unfold reset.
    destruct (forEach reset_each (Control._objInfo c) w) as [infos w'].
    simpl in Hev |- *. rewrite Hev. simpl. rewrite app_nil_r.
    unfold reset_event. rewrite decide_False; [reflexivity|].
    unfold Vector3.distanceToSquared, EPS; simpl. lra.
Qed.

(** ** Truthiness *)

Lemma truthy_true (a : R) : a ≠ 0 → JS.truthy a = true.
Proof. intros Ha. unfold JS.truthy. by apply bool_decide_eq_true. Qed.

Lemma truthy_false (a : R) : a = 0 → JS.truthy a = false.
Proof.
  intros Ha. unfold JS.truthy. apply bool_decide_eq_false. by intros [].
Qed.

Lemma or_zero (a : R) : JS.or a 0 = a.
Proof.
  unfold JS.or. destruct (decide (a = 0)) as [->|Ha].
  - by rewrite truthy_false.
  - by rewrite truthy_true.
Qed.

(** ** Pressing a button *)

Lemma _offsetCalc_mouse (c : Control.t) (m : Mouse.t) (x y : R) :
  _offsetCalc (Control.set__mouse m c) x y = _offsetCalc c x y.
Proof. reflexivity. Qed.

(** [_startMove] at a point other than the page origin: both coordinates
    become the normalized point. *)
Lemma _startMove_off_origin (x y : R) (c : Control.t) :
  x ≠ 0 ∨ y ≠ 0 →
  Mouse.curr (Control._mouse (_startMove x y c)) = _offsetCalc c x y
  ∧ Mouse.prev (Control._mouse (_startMove x y c)) = _offsetCalc c x y.
Proof.
  intros Hxy. unfold _startMove.
  assert (_saveMove (Some x) (Some y) c
          = Control.set__mouse
              (Mouse.set_curr (_offsetCalc c x y) (Control._mouse c)) c) as ->.
  { unfold _saveMove; simpl. rewrite !or_zero.
    destruct Hxy as [Hx|Hy].
    - by rewrite (truthy_true x).
    - rewrite (truthy_true y) by done. by rewrite orb_true_r. }
  done.
Qed.

(** [_startMove] at the page origin: [opt_x || opt_y] is falsy, so the
    call takes the no-argument path and [curr] is left as it was. *)
Lemma _startMove_origin (c : Control.t) :
  _startMove 0 0 c
  = Control.set__mouse
      (Mouse.set_prev (Mouse.curr (Control._mouse c)) (Control._mouse c)) c.
Proof.
  unfold _startMove, _saveMove; simpl. by rewrite (truthy_false 0).
Qed.

(** A press with the bound button anywhere but at the page origin sets
    [curr] and [prev] to the normalized press position and dispatches
    [moveStart] with that pair. *)
Lemma mouseDown__off_origin (e : MouseEvent) (c : Control.t) (w : World.t) :
  button e = ButtonEnum.value (Control.button_ c) →
  pageX e ≠ 0 ∨ pageY e ≠ 0 →
  let p := _offsetCalc c (pageX e) (pageY e) in
  let m := Control._mouse (mouseDown_ e c w).1 in
  Mouse.capture m = true
  ∧ Mouse.curr m = p
  ∧ Mouse.prev m = p
  ∧ World.events (mouseDown_ e c w).2
    = World.events w ++ [MoveEvent EventEnum.moveStart p p].
Proof.
  intros Hbutton Hxy p m. unfold m, mouseDown_.
  rewrite decide_False by (by intros []).
  set (c1 := Control.set__mouse _ c). cbn [fst snd].
  destruct (_startMove_off_origin (pageX e) (pageY e) c1 Hxy) as [Hcurr Hprev].
  change (_offsetCalc c1 (pageX e) (pageY e)) with p in Hcurr, Hprev.
  split_and!; [|done|done|].
  - unfold _startMove, _saveMove. by repeat case_match.
  - unfold _dispatchMove, World.dispatchEvent. cbn [World.events].
    by rewrite Hcurr, Hprev.
Qed.

(** C4 at the page origin.  A pan controller on a 100 by 100 page has just
    finished a drag begun at (50,50).  A press of the bound button at
    (0,0) then leaves [curr] on (50/100, 50/100), not on the normalized
    press position (0/100, 0/100), and [moveStart] carries the stale
    pair. *)
Theorem mouseDown__origin_keeps_previous_position :
  let press x y := Build_MouseEvent 2 x y in
  let c0 := control_of PanControl ButtonEnum.right [] mouse0 in
  let w0 := World.mk ∅ ∅ [] in
  let s1 := mouseDown_ (press 50 50) c0 w0 in
  let s2 := mouseUp_ (press 50 50) s1.1 s1.2 in
  let s3 := mouseDown_ (press 0 0) s2.1 s2.2 in
  let stale := Vector2.mk (50 / 100) (50 / 100) in
  _offsetCalc s2.1 0 0 = Vector2.mk (0 / 100) (0 / 100)
  ∧ Mouse.curr (Control._mouse s3.1) = stale
  ∧ Mouse.prev (Control._mouse s3.1) = stale
  ∧ Mouse.curr (Control._mouse s3.1) ≠ _offsetCalc s2.1 0 0
  ∧ last (World.events s3.2) = Some (MoveEvent EventEnum.moveStart stale stale).
Proof.
  intros press c0 w0 s1 s2 s3 stale.
  assert (s1 = (Control.set__mouse (Mouse.mk true stale stale) c0,
                World.mk ∅ ∅ [MoveEvent EventEnum.moveStart stale stale]))
    as Hs1.
  { unfold s1, mouseDown_. rewrite decide_False by (by intros []).
    unfold _startMove, _saveMove; simpl.
    rewrite !or_zero. rewrite (truthy_true 50) by lra. simpl.
    assert (_offsetCalc
              (Control.set__mouse (Mouse.set_capture true mouse0) c0) 50 50
            = stale) as ->; [|reflexivity].
    unfold _offsetCalc, MouseControl__offsetCalc, stale; simpl.
    f_equal; lra. }
  assert (s2 = (Control.set__mouse (Mouse.mk false stale stale) c0,
                World.mk ∅ ∅ [MoveEvent EventEnum.moveStart stale stale;
                              MoveEvent EventEnum.moveStop stale stale]))
    as Hs2.
  { unfold s2. rewrite Hs1. reflexivity. }
  assert (s3.1 = Control.set__mouse (Mouse.mk true stale stale) c0
          ∧ last (World.events s3.2)
            = Some (MoveEvent EventEnum.moveStart stale stale)) as [Hs3 Hev].
  { unfold s3. rewrite Hs2. unfold mouseDown_.
    rewrite decide_False by (by intros []).
    cbn [fst snd pageX pageY]. rewrite _startMove_origin. done. }
  assert (_offsetCalc s2.1 0 0 = Vector2.mk (0 / 100) (0 / 100)) as Hpress.
  { rewrite Hs2. unfold _offsetCalc, MouseControl__offsetCalc; simpl.
    f_equal; lra. }
  rewrite Hpress, Hs3. split_and!; try done.
  unfold stale. simpl. intros [= H _]. lra.
Qed.

(** ** Touch hooks *)

(** C6.  What the code does on a touch end of the zoom behavior.
    [ZoomControl._touchEnd] stops the gesture, dispatching [moveStop],
    exactly when the event still lists more than one contact; with at most
    one contact left, the case the claim is about, it does nothing.  The
    guard is the one [_touchStart] and [_touchMove] use to tell that a
    pinch is going on; on the touch end it is the wrong way round, and a
    pinch is left without its [moveStop] (see [pinch_is_never_stopped]). *)
Theorem ZoomControl__touchEnd_stops_on_multitouch
    (e : TouchEvent) (c : Control.t) (w : World.t) :
  Control.class c = ZoomControl →
  ((1 < length (touches e))%nat →
     ZoomControl__touchEnd e c w
     = Ok (c, World.dispatchEvent
                (MoveEvent EventEnum.moveStop
                   (Mouse.curr (Control._mouse c))
                   (Mouse.prev (Control._mouse c))) w))
  ∧ ((length (touches e) ≤ 1)%nat → ZoomControl__touchEnd e c w = Ok (c, w)).
Proof.
  intros Hclass. unfold ZoomControl__touchEnd. split; intros Hlen.
  - rewrite decide_True by done. unfold _stopMove. by rewrite Hclass.
  - rewrite decide_False by lia. done.
Qed.

(** Two contacts left: the pinch is stopped.  None left: nothing happens. *)
Lemma ZoomControl__touchEnd_stops_on_multitouch_witness :
  let c := control_of ZoomControl ButtonEnum.middle [] mouse0 in
  let w := World.mk ∅ ∅ [] in
  let t := Build_Touch 10 10 in
  ZoomControl__touchEnd (Build_TouchEvent [t; t]) c w
  = Ok (c, World.mk ∅ ∅
             [MoveEvent EventEnum.moveStop Vector2.zero Vector2.zero])
  ∧ ZoomControl__touchEnd (Build_TouchEvent []) c w = Ok (c, w).
Proof.
  intros c w t. split.
  - apply (ZoomControl__touchEnd_stops_on_multitouch
             (Build_TouchEvent [t; t]) c w); [reflexivity | simpl; lia].
  - apply (ZoomControl__touchEnd_stops_on_multitouch
             (Build_TouchEvent []) c w); [reflexivity | simpl; lia].
Defined.

(** C6 at the failing input: the last finger of a pinch has been lifted,
    no contact is left, and the zoom controller dispatches no
    [moveStop]. *)
Lemma ZoomControl__touchEnd_last_contact :
  let c := control_of ZoomControl ButtonEnum.middle [] mouse0 in
  let w := World.mk ∅ ∅ [] in
  let e := Build_TouchEvent [] in
  (length (touches e) ≤ 1)%nat
  ∧ ¬ ∃ c' w' curr prev,
        invoke _touchEnd e c w = Ok (c', w')
        ∧ MoveEvent EventEnum.moveStop curr prev ∈ World.events w'.
Proof.
  intros c w e. split; [simpl; lia|].
  intros (c' & w' & curr & prev & Hrun & Hin).
  assert (invoke _touchEnd e c w = Ok (c, w)) as Hnothing by reflexivity.
  rewrite Hnothing in Hrun. injection Hrun as <- <-.
  by apply elem_of_nil in Hin.
Qed.

(** C8, as amended.  On a controller whose class is [THREE.TouchControl]
    or extends it without overriding the hook: [_touchMove] and [_touchEnd]
    throw "Not implemented"; [_touchStart] does not throw, it dispatches
    [moveStart]. *)
Theorem touch_hook_not_overridden
    (h : Hook) (e : TouchEvent) (c : Control.t) (w : World.t) :
  isTouchControl (Control.class c) = true →
  overrides (Control.class c) h = false →
  invoke h e c w
  = match h with
    | _touchStart => Ok (c, _dispatchMove EventEnum.moveStart c w)
    | _touchMove | _touchEnd => Throw "Not implemented"
    end.
Proof.
  unfold invoke, isTouchControl, overrides.
  destruct (Control.class c), h; simpl; intros Htouch Hover;
    try done; try (by rewrite bool_decide_eq_true_2 in Hover).
Qed.

Lemma touch_hook_not_overridden_witness :
  let c := control_of TouchControl ButtonEnum.left [] mouse0 in
  let w := World.mk ∅ ∅ [] in
  let e := Build_TouchEvent [Build_Touch 10 10] in
  invoke _touchEnd e c w = Throw "Not implemented"
  ∧ invoke _touchMove e c w = Throw "Not implemented"
  ∧ invoke _touchStart e c w
    = Ok (c, World.mk ∅ ∅
               [MoveEvent EventEnum.moveStart Vector2.zero Vector2.zero]).
Proof.
  intros c w e. split_and!.
  - apply (touch_hook_not_overridden _touchEnd e c w); reflexivity.
  - apply (touch_hook_not_overridden _touchMove e c w); reflexivity.
  - apply (touch_hook_not_overridden _touchStart e c w); reflexivity.
Defined.

(** C8 as stated fails for touch start: on a plain [THREE.TouchControl],
    which overrides nothing, the hook returns normally. *)
Lemma touch_hook_counterexample :
  let c := control_of TouchControl ButtonEnum.left [] mouse0 in
  let w := World.mk ∅ ∅ [] in
  let e := Build_TouchEvent [Build_Touch 10 10] in
  overrides (Control.class c) _touchStart = false
  ∧ ¬ ∃ message, invoke _touchStart e c w = Throw message.
Proof.
  intros c w e. split; [reflexivity|].
  intros [message Hthrow]. discriminate Hthrow.
Qed.

(** ** Vector lengths *)

Lemma lengthSq_nonneg (v : Vector3.t) : 0 <= Vector3.lengthSq v.
Proof. unfold Vector3.lengthSq. nra. Qed.

Lemma lengthSq_multiplyScalar (v : Vector3.t) (s : R) :
  Vector3.lengthSq (Vector3.multiplyScalar v s) = s * s * Vector3.lengthSq v.
Proof. unfold Vector3.lengthSq, Vector3.multiplyScalar; simpl. ring. Qed.

Lemma length_sqr (v : Vector3.t) :
  Vector3.length v * Vector3.length v = Vector3.lengthSq v.
Proof. unfold Vector3.length. apply sqrt_sqrt, lengthSq_nonneg. Qed.

Lemma length_pos (v : Vector3.t) :
  Vector3.lengthSq v ≠ 0 → 0 < Vector3.length v.
Proof.
  intros Hv. unfold Vector3.length. apply sqrt_lt_R0.
  pose proof (lengthSq_nonneg v). lra.
Qed.

(** A vector of squared length [n * n], [n] not negative, has length [n]. *)
Lemma length_of_square (v : Vector3.t) (n : R) :
  0 <= n → Vector3.lengthSq v = n * n → Vector3.length v = n.
Proof. intros Hn Hv. unfold Vector3.length. rewrite Hv. by apply sqrt_square. Qed.

Lemma normalize_nonzero (v : Vector3.t) :
  Vector3.lengthSq v ≠ 0 →
  Vector3.normalize v = Vector3.multiplyScalar v (1 / Vector3.length v).
Proof.
  intros Hv. unfold Vector3.normalize, Vector3.divideScalar, JS.or.
  rewrite truthy_true; [done|]. pose proof (length_pos v Hv). lra.
Qed.

Lemma normalize_zero (v : Vector3.t) :
  Vector3.lengthSq v = 0 → Vector3.normalize v = Vector3.multiplyScalar v 1.
Proof.
  intros Hv. unfold Vector3.normalize, Vector3.divideScalar, JS.or.
  rewrite truthy_false.
  - f_equal. lra.
  - unfold Vector3.length. rewrite Hv. apply sqrt_0.
Qed.

(** [setLength] on a vector that has a direction. *)
Lemma lengthSq_setLength (v : Vector3.t) (l : R) :
  Vector3.lengthSq v ≠ 0 → Vector3.lengthSq (Vector3.setLength v l) = l * l.
Proof.
  intros Hv. unfold Vector3.setLength. rewrite normalize_nonzero by done.
  rewrite !lengthSq_multiplyScalar.
  pose proof (length_pos v Hv) as Hpos. rewrite <- (length_sqr v).
  field. lra.
Qed.

Lemma length_setLength (v : Vector3.t) (l : R) :
  Vector3.lengthSq v ≠ 0 → 0 <= l → Vector3.length (Vector3.setLength v l) = l.
Proof.
  intros Hv Hl. apply length_of_square; [done|]. by apply lengthSq_setLength.
Qed.

(** [setLength] on the zero vector leaves it zero: it has no direction to
    stretch along. *)
Lemma setLength_zero (l : R) : Vector3.setLength Vector3.zero l = Vector3.zero.
Proof.
  unfold Vector3.setLength. rewrite normalize_zero.
  - unfold Vector3.multiplyScalar, Vector3.zero; simpl. f_equal; ring.
  - unfold Vector3.lengthSq, Vector3.zero; simpl. ring.
Qed.

Lemma length_zero : Vector3.length Vector3.zero = 0.
Proof.
  apply length_of_square; [lra|].
  unfold Vector3.lengthSq, Vector3.zero; simpl. ring.
Qed.

Lemma add_sub_cancel (t e : Vector3.t) :
  Vector3.sub (Vector3.addVectors t e) t = e.
Proof.
  destruct t, e. unfold Vector3.sub, Vector3.addVectors, Vector3.add; simpl.
  f_equal; ring.
Qed.

(** ** Setting the eye *)

Lemma _setEye_spec (info : ObjectInfo.t) (eye : Vector3.t) (w : World.t) :
  let info' := (_setEye info eye w).1 in
  let w' := (_setEye info eye w).2 in
  Object3D.position (World.object (ObjectInfo.obj info) w')
  = Vector3.addVectors (World.read (ObjectInfo.target info) w) eye
  ∧ Object3D.up (World.object (ObjectInfo.obj info) w')
    = Object3D.up (World.object (ObjectInfo.obj info) w)
  ∧ World.heap w' = World.heap w
  ∧ ObjectInfo.obj info' = ObjectInfo.obj info
  ∧ ObjectInfo.target info' = ObjectInfo.target info
  ∧ _getEye info' w' = eye.
Proof.
  unfold _setEye.
  set (target := World.read (ObjectInfo.target info) w).
  set (w1 := World.update _ (Object3D.set_position _) w).
  set (w2 := World.update _ (Object3D.lookAt target) w1).
  assert (World.object (ObjectInfo.obj info) w2
          = Object3D.lookAt target
              (Object3D.set_position (Vector3.addVectors target eye)
                 (World.object (ObjectInfo.obj info) w))) as Hobj.
  { unfold w2, w1. by rewrite !object_update_eq. }
  assert (World.heap w2 = World.heap w) as Hheap by done.
  destruct (_checkChange_world info w2) as [Hscene Hheap'].
  destruct (_checkChange_info info w2) as (Ho & _ & _ & Ht).
  destruct (_checkChange info w2) as [info' w']. cbn [fst snd] in *.
  assert (World.object (ObjectInfo.obj info) w'
          = World.object (ObjectInfo.obj info) w2) as Hsame
    by (by apply object_scene_eq).
  split_and!; try done.
  - by rewrite Hsame, Hobj.
  - by rewrite Hsame, Hobj.
  - unfold _getEye. rewrite Ho, Ht, Hsame, Hobj.
    rewrite (read_heap_eq _ w w') by congruence.
    apply add_sub_cancel.
Qed.

(** ** Zoom *)

(** The capture-mode factor when the drag asks for a change. *)
Lemma zoom_factor_capture (c : Control.t) :
  let m := Control._mouse c in
  let d :=
    1 + (Vector2.y (Mouse.curr m) - Vector2.y (Mouse.prev m))
        * Control.speed c in
  d ≠ 1 → 0 < d → zoom_factor true c = (d, c).
Proof.
  intros m d Hd1 Hd0. unfold zoom_factor. fold m. fold d.
  rewrite (bool_decide_eq_false_2 (d = 1)) by done.
  rewrite (bool_decide_eq_false_2 (d <= 0)) by lra.
  done.
Qed.

Lemma zoom_factor_config (capture : bool) (c : Control.t) :
  let c1 := (zoom_factor capture c).2 in
  Control.minDistance c1 = Control.minDistance c
  ∧ Control.maxDistance c1 = Control.maxDistance c
  ∧ Control._mouse c1 = Control._mouse c
  ∧ Control.dynamicDampingFactor c1 = Control.dynamicDampingFactor c
  ∧ Control.class c1 = Control.class c.
Proof. unfold zoom_factor. by destruct capture. Qed.

(** On the pinch path a factor other than zero tells that [touchEnd_] is
    not zero. *)
Lemma zoom_factor_pinch_nonzero (c : Control.t) :
  (zoom_factor false c).1 ≠ 0 → Control.touchEnd_ c ≠ 0.
Proof.
  intros Hd Hzero. apply Hd. unfold zoom_factor. cbn [fst].
  rewrite Hzero. apply Rdiv_0_r.
Qed.

(** What [zoom_] does once the factor is truthy. *)
Lemma zoom__truthy (capture : bool) (info : ObjectInfo.t) (c : Control.t)
    (w : World.t) :
  let d := (zoom_factor capture c).1 in
  let c1 := (zoom_factor capture c).2 in
  let clamped :=
    zoom_clamp c1 (Vector3.multiplyScalar (_getEye info w) d) d in
  d ≠ 0 →
  zoom_ capture info c w
  = (clamped.2, (_setEye info clamped.1 w).1, c1, (_setEye info clamped.1 w).2).
Proof.
  intros d c1 clamped Hd. unfold zoom_. subst d c1 clamped.
  destruct (zoom_factor capture c) as [d c1]. cbn [fst snd] in *.
  rewrite (truthy_true d) by exact Hd.
  destruct (zoom_clamp c1 _ d) as [eye' d']. cbn [fst snd].
  by destruct (_setEye info eye' w).
Qed.

Lemma zoom__falsy (capture : bool) (info : ObjectInfo.t) (c : Control.t)
    (w : World.t) :
  (zoom_factor capture c).1 = 0 →
  zoom_ capture info c w = (Some 0, info, (zoom_factor capture c).2, w).
Proof.
  intros Hd. unfold zoom_.
  destruct (zoom_factor capture c) as [d c1]. cbn [fst snd] in *. subst d.
  by rewrite truthy_false.
Qed.

(** The clamps, for distances configured as [0 <= minDistance <=
    maxDistance]. *)
Section zoom_clamp.

Variables (c : Control.t) (eye : Vector3.t) (d : R).
Hypothesis min_nonneg : 0 <= Control.minDistance c.
Hypothesis min_le_max :
  ∀ M, Control.maxDistance c = Finite M → Control.minDistance c <= M.

Lemma zoom_clamp_max (M : R) :
  Control.maxDistance c = Finite M →
  M * M < Vector3.lengthSq eye →
  zoom_clamp c eye d = (Vector3.setLength eye M, None).
Proof.
  intros HM Hfar. pose proof (min_le_max M HM) as Hle.
  unfold zoom_clamp. rewrite HM, decide_True by done.
  rewrite lengthSq_setLength by nra.
  rewrite decide_False by nra. done.
Qed.

Lemma zoom_clamp_min :
  Vector3.lengthSq eye < Control.minDistance c * Control.minDistance c →
  zoom_clamp c eye d
  = (Vector3.setLength eye (Control.minDistance c), None).
Proof.
  intros Hnear. unfold zoom_clamp.
  destruct (Control.maxDistance c) as [M|] eqn:HM.
  - pose proof (min_le_max M eq_refl) as Hle.
    rewrite decide_False by nra. by rewrite decide_True.
  - by rewrite decide_True.
Qed.

End zoom_clamp.

Lemma zoom_clamp_within (c : Control.t) (eye : Vector3.t) (d : R) :
  (∀ M, Control.maxDistance c = Finite M → Vector3.lengthSq eye <= M * M) →
  Control.minDistance c * Control.minDistance c <= Vector3.lengthSq eye →
  zoom_clamp c eye d = (eye, Some d).
Proof.
  intros Hmax Hmin. unfold zoom_clamp.
  destruct (Control.maxDistance c) as [M|] eqn:HM.
  - pose proof (Hmax M eq_refl). rewrite decide_False by lra.
    by rewrite decide_False by lra.
  - by rewrite decide_False by lra.
Qed.

(** Comparing lengths is comparing squared lengths. *)
Lemma length_gt_sq (v : Vector3.t) (M : R) :
  0 <= M → M < Vector3.length v → M * M < Vector3.lengthSq v.
Proof. intros HM Hlt. rewrite <- length_sqr. nra. Qed.

Lemma length_lt_sq (v : Vector3.t) (m : R) :
  Vector3.length v < m → Vector3.lengthSq v < m * m.
Proof.
  intros Hlt. rewrite <- length_sqr.
  assert (0 <= Vector3.length v) by apply sqrt_pos. nra.
Qed.

Lemma length_le_sq (v : Vector3.t) (M : R) :
  Vector3.length v <= M → Vector3.lengthSq v <= M * M.
Proof.
  intros Hle. rewrite <- length_sqr.
  assert (0 <= Vector3.length v) by apply sqrt_pos. nra.
Qed.

Lemma length_ge_sq (v : Vector3.t) (m : R) :
  0 <= m → m <= Vector3.length v → m * m <= Vector3.lengthSq v.
Proof. intros Hm Hle. rewrite <- length_sqr. nra. Qed.

Lemma length_pos_nonzero (v : Vector3.t) :
  0 < Vector3.length v → Vector3.lengthSq v ≠ 0.
Proof.
  intros Hpos Hzero. unfold Vector3.length in Hpos.
  rewrite Hzero, sqrt_0 in Hpos. lra.
Qed.

(** The clamps read [minDistance] and [maxDistance] only, which the first
    part of [zoom_] leaves alone. *)
Lemma zoom_clamp_factor (capture : bool) (c : Control.t) (eye : Vector3.t)
    (d : R) :
  zoom_clamp (zoom_factor capture c).2 eye d = zoom_clamp c eye d.
Proof. unfold zoom_factor. by destruct capture. Qed.

(** A zoom step with a factor [d] other than zero moves the object to its
    target plus the clamped eye; the target itself stays. *)
Lemma zoom__sets_eye (capture : bool) (info : ObjectInfo.t) (c : Control.t)
    (w : World.t) :
  let d := (zoom_factor capture c).1 in
  let clamped :=
    (zoom_clamp c (Vector3.multiplyScalar (_getEye info w) d) d).1 in
  let info' := (zoom_ capture info c w).1.1.2 in
  let w' := (zoom_ capture info c w).2 in
  d ≠ 0 →
  Object3D.position (World.object (ObjectInfo.obj info) w')
  = Vector3.addVectors (World.read (ObjectInfo.target info) w) clamped
  ∧ World.read (ObjectInfo.target info') w'
    = World.read (ObjectInfo.target info) w
  ∧ _getEye info' w' = clamped.
Proof.
  intros d clamped info' w' Hd. subst info' w'.
  rewrite (zoom__truthy capture info c w Hd). cbn [fst snd].
  rewrite zoom_clamp_factor. fold d. fold clamped.
  destruct (_setEye_spec info clamped w) as (Hpos & _ & Hheap & _ & Ht & Heye).
  split_and!; [done | | done].
  rewrite Ht. by apply read_heap_eq.
Qed.

(** C2, as amended.  Take a zoom step whose factor [d] is not zero, with
    distances configured as [0 <= minDistance <= maxDistance].  The target
    stays where it is and the object is moved to [target + eye'], where
    the new eye [eye'] is the scaled eye [eye * d] stretched or shrunk to
    length exactly [maxDistance] if the scaled eye is longer than that, to
    length exactly [minDistance] if the scaled eye is shorter than that and
    is not the zero vector, and is the scaled eye itself if it lies within
    both bounds.  In each case [eye'] is the eye read back after the
    step. *)
Theorem zoom__clamps_eye (capture : bool) (info : ObjectInfo.t)
    (c : Control.t) (w : World.t) :
  let d := (zoom_factor capture c).1 in
  let target := World.read (ObjectInfo.target info) w in
  let scaled := Vector3.multiplyScalar (_getEye info w) d in
  let info' := (zoom_ capture info c w).1.1.2 in
  let w' := (zoom_ capture info c w).2 in
  let position' := Object3D.position (World.object (ObjectInfo.obj info) w') in
  let eye' := _getEye info' w' in
  d ≠ 0 →
  0 <= Control.minDistance c →
  (∀ M, Control.maxDistance c = Finite M → Control.minDistance c <= M) →
  World.read (ObjectInfo.target info') w' = target
  ∧ (∀ M, Control.maxDistance c = Finite M →
          M < Vector3.length scaled →
          eye' = Vector3.setLength scaled M
          ∧ Vector3.length eye' = M
          ∧ position' = Vector3.addVectors target (Vector3.setLength scaled M))
  ∧ (0 < Vector3.length scaled < Control.minDistance c →
     eye' = Vector3.setLength scaled (Control.minDistance c)
     ∧ Vector3.length eye' = Control.minDistance c
     ∧ position'
       = Vector3.addVectors target
           (Vector3.setLength scaled (Control.minDistance c)))
  ∧ ((∀ M, Control.maxDistance c = Finite M → Vector3.length scaled <= M) →
     Control.minDistance c <= Vector3.length scaled →
     eye' = scaled
     ∧ position' = Vector3.addVectors target scaled).
Proof.
  intros d target scaled info' w' position' eye' Hd Hmin Hminmax.
  destruct (zoom__sets_eye capture info c w Hd) as (Hpos & Htarget & Heye).
  fold d in Hpos, Heye. fold scaled in Hpos, Heye. fold target in Hpos.
  fold info' w' in Hpos, Htarget, Heye. fold position' in Hpos.
  fold eye' in Heye. fold target in Htarget.
  split_and!; [done | | |].
  - intros M HM Hfar. assert (0 <= M) by (specialize (Hminmax M HM); lra).
    pose proof (length_gt_sq scaled M H Hfar) as Hsq.
    rewrite (zoom_clamp_max c scaled d Hmin Hminmax M HM Hsq) in Hpos, Heye.
    cbn [fst] in Hpos, Heye. split_and!; [done | | done].
    rewrite Heye. apply length_setLength; [nra | done].
  - intros [Hpos0 Hnear].
    rewrite (zoom_clamp_min c scaled d Hmin Hminmax (length_lt_sq _ _ Hnear))
      in Hpos, Heye.
    cbn [fst] in Hpos, Heye. split_and!; [done | | done].
    rewrite Heye. apply length_setLength; [by apply length_pos_nonzero | done].
  - intros Hmax Hge.
    assert (zoom_clamp c scaled d = (scaled, Some d)) as Hwithin.
    { apply zoom_clamp_within.
      - intros M HM. apply length_le_sq. by apply Hmax.
      - by apply length_ge_sq. }
    rewrite Hwithin in Hpos, Heye. done.
Qed.

Lemma _getEye_example (snapshot recorded position target : Vector3.t) :
  _getEye (info_of snapshot recorded) (world_of position target)
  = Vector3.sub position target.
Proof. reflexivity. Qed.

(** The pinch of the specification: the contacts were 100 apart and are now
    50 apart, so [d = 2]; the eye has length 10 and [maxDistance] is 15.
    The eye asked for has length 20, the eye set has length 15, and the
    target has stayed at the origin. *)
Lemma zoom__clamps_eye_witness :
  let c := zoom_of 0 (Finite 15) [] mouse0 100 50 in
  let info := info_of (Vector3.mk 0 0 10) (Vector3.mk 0 0 10) in
  let w := world_of (Vector3.mk 0 0 10) Vector3.zero in
  let info' := (zoom_ false info c w).1.1.2 in
  let w' := (zoom_ false info c w).2 in
  Vector3.length
    (Vector3.multiplyScalar (_getEye info w) (zoom_factor false c).1) = 20
  ∧ Vector3.length (_getEye info' w') = 15
  ∧ World.read (ObjectInfo.target info') w' = Vector3.zero.
Proof.
  intros c info w info' w'.
  assert (Vector3.length
            (Vector3.multiplyScalar (_getEye info w) (zoom_factor false c).1)
          = 20) as Hscaled.
  { apply length_of_square; [lra|].
    unfold info, w. rewrite _getEye_example.
    unfold Vector3.lengthSq; simpl. field. }
  split; [done|].
  pose proof (zoom__clamps_eye false info c w) as Hzoom. cbv zeta in Hzoom.
  destruct Hzoom as (Htarget & Hmax & _).
  - simpl. lra.
  - simpl. lra.
  - intros M [= <-]. simpl. lra.
  - split; [|exact Htarget].
    apply (Hmax 15 eq_refl). rewrite Hscaled. lra.
Defined.

(** The three ways C2 as stated fails; each forces one of the conditions
    of the amended claim. *)

(** At the lower bound: the camera stands on its target, so the eye is the
    zero vector, and [minDistance] is 1.  A drag asking for [d = 2] scales
    the eye to length 0, below [minDistance], yet the eye set still has
    length 0: the zero vector cannot be stretched. *)
Lemma zoom__zero_eye_unstretched :
  let c :=
    zoom_of 1 Infinity [] (Mouse.mk true (Vector2.mk 0 1) Vector2.zero) 0 0 in
  let info := info_of Vector3.zero Vector3.zero in
  let w := world_of Vector3.zero Vector3.zero in
  let d := (zoom_factor true c).1 in
  d ≠ 0
  ∧ Vector3.length (Vector3.multiplyScalar (_getEye info w) d)
    < Control.minDistance c
  ∧ Vector3.length
      (_getEye (zoom_ true info c w).1.1.2 (zoom_ true info c w).2)
    ≠ Control.minDistance c.
Proof.
  intros c info w d.
  assert (zoom_factor true c = (1 + (1 - 0) * 1, c)) as Hfactor.
  { apply (zoom_factor_capture c); simpl; lra. }
  assert (d ≠ 0) as Hd by (unfold d; rewrite Hfactor; simpl; lra).
  set (scaled := Vector3.multiplyScalar (_getEye info w) d).
  assert (Vector3.lengthSq scaled = 0) as Hzero.
  { unfold scaled, info, w. rewrite _getEye_example, lengthSq_multiplyScalar.
    unfold Vector3.lengthSq; simpl. ring. }
  assert (Vector3.length scaled = 0) as Hlen.
  { apply length_of_square; [lra|]. rewrite Hzero. ring. }
  split_and!; [done | rewrite Hlen; simpl; lra |].
  destruct (zoom__sets_eye true info c w Hd) as (_ & _ & Heye).
  rewrite Heye. fold d. fold scaled.
  rewrite (zoom_clamp_min c scaled d).
  - cbn [fst]. unfold Vector3.setLength. rewrite normalize_zero by done.
    unfold Vector3.length. rewrite !lengthSq_multiplyScalar, Hzero.
    replace (_ * _ * (_ * _ * 0)) with 0 by ring.
    rewrite sqrt_0. simpl. lra.
  - simpl. lra.
  - intros M [=].
  - rewrite Hzero. simpl. lra.
Qed.

(** The pinch factor, the scaled eye and its squared length for the camera
    at (0,0,10) looking at the origin. *)
Lemma pinch_example (minDistance : R) (maxDistance : Distance)
    (touchStart touchEnd : R) :
  let c := zoom_of minDistance maxDistance [] mouse0 touchStart touchEnd in
  let info := info_of (Vector3.mk 0 0 10) (Vector3.mk 0 0 10) in
  let w := world_of (Vector3.mk 0 0 10) Vector3.zero in
  let d := touchStart / touchEnd in
  (zoom_factor false c).1 = d
  ∧ Vector3.multiplyScalar (_getEye info w) d = Vector3.mk 0 0 (10 * d)
  ∧ Vector3.lengthSq (Vector3.mk 0 0 (10 * d)) = 100 * d * d.
Proof.
  intros c info w d. split_and!; [done | |].
  - unfold info, w. rewrite _getEye_example.
    unfold Vector3.multiplyScalar, Vector3.sub; simpl. f_equal; ring.
  - unfold Vector3.lengthSq; simpl. ring.
Qed.

(** With the bounds the wrong way round, [minDistance = 20] above
    [maxDistance = 15]: the eye of length 10 scaled by [d = 2] is longer
    than [maxDistance]; it is cut to 15 and then, being below
    [minDistance], stretched to 20. *)
Lemma zoom__inverted_bounds :
  let c := zoom_of 20 (Finite 15) [] mouse0 100 50 in
  let info := info_of (Vector3.mk 0 0 10) (Vector3.mk 0 0 10) in
  let w := world_of (Vector3.mk 0 0 10) Vector3.zero in
  let d := (zoom_factor false c).1 in
  d ≠ 0
  ∧ 15 < Vector3.length (Vector3.multiplyScalar (_getEye info w) d)
  ∧ Vector3.length
      (_getEye (zoom_ false info c w).1.1.2 (zoom_ false info c w).2)
    ≠ 15.
Proof.
  intros c info w d.
  destruct (pinch_example 20 (Finite 15) 100 50) as (Hd & Hscaled & Hsq).
  fold c info w in Hd, Hscaled.
  assert (d ≠ 0) as Hd0 by (unfold d; rewrite Hd; lra).
  destruct (zoom__sets_eye false info c w Hd0) as (_ & _ & Heye).
  unfold d. rewrite Hd in Heye |- *. rewrite Hscaled in Heye |- *.
  set (scaled := Vector3.mk 0 0 (10 * (100 / 50))) in *.
  assert (Vector3.lengthSq scaled = 400) as Hsq' by (rewrite Hsq; lra).
  assert (Vector3.length scaled = 20) as Hlen.
  { apply length_of_square; lra. }
  split_and!; [lra | lra |].
  rewrite Heye. unfold zoom_clamp.
  change (Control.maxDistance c) with (Finite 15).
  change (Control.minDistance c) with 20.
  cbv beta iota. rewrite decide_True by lra.
  rewrite lengthSq_setLength by lra. rewrite decide_True by lra.
  cbn [fst]. rewrite length_setLength; [lra | | lra].
  rewrite lengthSq_setLength by lra. lra.
Qed.

(** With a negative [minDistance = -20] and no upper bound: the eye of
    length 10, scaled by [d = 1], lies within both bounds, yet its squared
    length is below [minDistance] squared, and the eye set is the eye
    turned round and stretched to length 20: the camera jumps to the
    other side of its target. *)
Lemma zoom__negative_minDistance :
  let c := zoom_of (-20) Infinity [] mouse0 50 50 in
  let info := info_of (Vector3.mk 0 0 10) (Vector3.mk 0 0 10) in
  let w := world_of (Vector3.mk 0 0 10) Vector3.zero in
  let d := (zoom_factor false c).1 in
  let scaled := Vector3.multiplyScalar (_getEye info w) d in
  d ≠ 0
  ∧ Control.minDistance c <= Vector3.length scaled
  ∧ _getEye (zoom_ false info c w).1.1.2 (zoom_ false info c w).2 ≠ scaled.
Proof.
  intros c info w d scaled.
  destruct (pinch_example (-20) Infinity 50 50) as (Hd & Hscaled & Hsq).
  fold c info w in Hd, Hscaled.
  assert (d ≠ 0) as Hd0 by (unfold d; rewrite Hd; lra).
  destruct (zoom__sets_eye false info c w Hd0) as (_ & _ & Heye).
  unfold scaled, d. rewrite Hd in Heye |- *. rewrite Hscaled in Heye |- *.
  set (eye := Vector3.mk 0 0 (10 * (50 / 50))) in *.
  assert (Vector3.lengthSq eye = 100) as Hsq' by (rewrite Hsq; lra).
  assert (Vector3.length eye = 10) as Hlen.
  { apply length_of_square; lra. }
  split_and!; [lra | rewrite Hlen; simpl; lra |].
  rewrite Heye. unfold zoom_clamp.
  change (Control.maxDistance c) with Infinity.
  change (Control.minDistance c) with (-20).
  cbv beta iota. rewrite decide_True by lra. cbn [fst].
  intros Hflip.
  assert (Vector3.z (Vector3.setLength eye (-20)) = Vector3.z eye) as Hz
    by (by rewrite Hflip).
  unfold Vector3.setLength in Hz. rewrite normalize_nonzero in Hz by lra.
  rewrite Hlen in Hz. simpl in Hz. lra.
Qed.

(** C2 as stated fails in each of these three ways. *)
Lemma zoom__minDistance_counterexample :
  (let c :=
     zoom_of 1 Infinity [] (Mouse.mk true (Vector2.mk 0 1) Vector2.zero) 0 0 in
   let info := info_of Vector3.zero Vector3.zero in
   let w := world_of Vector3.zero Vector3.zero in
   let d := (zoom_factor true c).1 in
   d ≠ 0
   ∧ Vector3.length (Vector3.multiplyScalar (_getEye info w) d)
     < Control.minDistance c
   ∧ Vector3.length
       (_getEye (zoom_ true info c w).1.1.2 (zoom_ true info c w).2)
     ≠ Control.minDistance c)
  ∧ (let c := zoom_of 20 (Finite 15) [] mouse0 100 50 in
     let info := info_of (Vector3.mk 0 0 10) (Vector3.mk 0 0 10) in
     let w := world_of (Vector3.mk 0 0 10) Vector3.zero in
     let d := (zoom_factor false c).1 in
     d ≠ 0
     ∧ 15 < Vector3.length (Vector3.multiplyScalar (_getEye info w) d)
     ∧ Vector3.length
         (_getEye (zoom_ false info c w).1.1.2 (zoom_ false info c w).2)
       ≠ 15)
  ∧ (let c := zoom_of (-20) Infinity [] mouse0 50 50 in
     let info := info_of (Vector3.mk 0 0 10) (Vector3.mk 0 0 10) in
     let w := world_of (Vector3.mk 0 0 10) Vector3.zero in
     let d := (zoom_factor false c).1 in
     let scaled := Vector3.multiplyScalar (_getEye info w) d in
     d ≠ 0
     ∧ Control.minDistance c <= Vector3.length scaled
     ∧ _getEye (zoom_ false info c w).1.1.2 (zoom_ false info c w).2
       ≠ scaled).
Proof.
  split_and!.
  - exact zoom__zero_eye_unstretched.
  - exact zoom__inverted_bounds.
  - exact zoom__negative_minDistance.
Qed.

(** ** Damping of the zoom *)

Lemma zoom_clamp_undefined (c : Control.t) (eye : Vector3.t) (d : R) :
  (zoom_clamp c eye d).2 = None ↔ saturates c eye.
Proof.
  unfold zoom_clamp, saturates.
  destruct (Control.maxDistance c) as [M|].
  - destruct (decide (M * M < Vector3.lengthSq eye)) as [Hfar|Hfar].
    + split; [intros _; left; by exists M|intros _]. by case_decide.
    + case_decide; simpl; split; try done; try by right.
      intros [(M' & [= <-] & Hfar')|Hnear]; done.
  - case_decide; simpl; split; try done; try by right.
    intros [(M' & [=] & _)|Hnear]; done.
Qed.

(** [zoom_] returns [undefined] exactly when its object saturates. *)
Lemma zoom__undefined (capture : bool) (info : ObjectInfo.t) (c : Control.t)
    (w : World.t) :
  let d := (zoom_factor capture c).1 in
  (zoom_ capture info c w).1.1.1 = None
  ↔ d ≠ 0 ∧ saturates c (Vector3.multiplyScalar (_getEye info w) d).
Proof.
  intros d. destruct (zoom_factor_config capture c) as (Hmin & Hmax & _).
  destruct (decide (d = 0)) as [Hd|Hd].
  - rewrite (zoom__falsy capture info c w Hd). simpl. split; [done|].
    by intros [? _].
  - rewrite (zoom__truthy capture info c w Hd). cbn [fst snd]. fold d.
    rewrite zoom_clamp_undefined. unfold saturates. rewrite Hmin, Hmax.
    split; [by intros ?|by intros [_ ?]].
Qed.

Lemma zoom__controller (capture : bool) (info : ObjectInfo.t) (c : Control.t)
    (w : World.t) :
  (zoom_ capture info c w).1.2 = (zoom_factor capture c).2.
Proof.
  destruct (decide ((zoom_factor capture c).1 = 0)) as [Hd|Hd].
  - by rewrite (zoom__falsy capture info c w Hd).
  - by rewrite (zoom__truthy capture info c w Hd).
Qed.

(** The loop of [doZoom_]: the pointer state is not touched, and the local
    [f] ends as 0 if some object saturated and as it began otherwise. *)
Lemma doZoom_loop (capture : bool) (infos : list ObjectInfo.t) :
  ∀ (f : R) (c : Control.t) (w : World.t),
    let s := (forEach (doZoom_each capture) infos (f, c, w)).2 in
    Control._mouse s.1.2 = Control._mouse c
    ∧ (any_saturated capture infos c w → s.1.1 = 0)
    ∧ (¬ any_saturated capture infos c w → s.1.1 = f)
    ∧ (s.1.1 = 0 ∨ s.1.1 = f).
Proof.
  induction infos as [|info infos IH]; intros f c w.
  { simpl. split_and!; [done | done | done | by right]. }
  cbn [forEach any_saturated].
  pose proof (zoom__undefined capture info c w) as Hundef.
  pose proof (zoom__controller capture info c w) as Hctl.
  destruct (zoom_factor_config capture c) as (_ & _ & Hmouse & _).
  destruct (zoom_ capture info c w) as [[[d info'] c1] w1] eqn:Hzoom.
  assert (doZoom_each capture info (f, c, w)
          = (info', (if d is None then 0 else f, c1, w1))) as ->.
  { unfold doZoom_each. by rewrite Hzoom. }
  cbn [fst snd] in Hundef, Hctl |- *. cbv zeta in Hundef.
  specialize (IH (if d is None then 0 else f) c1 w1).
  destruct (forEach (doZoom_each capture) infos _) as [infos' [[f' c'] w']].
  cbn [fst snd] in IH |- *. destruct IH as (IHm & IHsat & IHnot & IHor).
  split_and!.
  - rewrite IHm, Hctl. done.
  - intros [Hsat|Hsat].
    + apply Hundef in Hsat. subst d. by destruct IHor.
    + by apply IHsat.
  - intros Hnone.
    assert (d ≠ None) as Hd by (intros Hd%Hundef; apply Hnone; by left).
    rewrite IHnot by (intros ?; apply Hnone; by right).
    by destruct d.
  - destruct d; [done|]. left. by destruct IHor.
Qed.

(** C5.  In a zoom step over the controlled objects: if some object
    saturated against [minDistance] or [maxDistance], [prev] is snapped to
    [curr]; otherwise, with a damping factor [f] other than zero,
    [prev.y] moves by [f * (curr.y - prev.y)].  [curr] stays in both
    cases.  On the pinch path the step divides by [touchEnd_], which is
    taken not to be zero: the factor is then a number of the model (see
    [zoom_factor]). *)
Theorem doZoom__damping (capture : bool) (c : Control.t) (w : World.t) :
  let m := Control._mouse c in
  let f := Control.dynamicDampingFactor c in
  let m' := Control._mouse (doZoom_ capture c w).1 in
  (capture = false → Control.touchEnd_ c ≠ 0) →
  (any_saturated capture (Control._objInfo c) c w →
     Mouse.prev m' = Mouse.curr m ∧ Mouse.curr m' = Mouse.curr m)
  ∧ (¬ any_saturated capture (Control._objInfo c) c w →
     f ≠ 0 →
     Mouse.prev m'
     = Vector2.mk (Vector2.x (Mouse.prev m))
         (Vector2.y (Mouse.prev m)
          + f * (Vector2.y (Mouse.curr m) - Vector2.y (Mouse.prev m)))
     ∧ Mouse.curr m' = Mouse.curr m).
Proof.
  intros m f m' _. subst m'. unfold doZoom_.
  pose proof (doZoom_loop capture (Control._objInfo c) f c w) as Hloop.
  fold f.
  destruct (forEach (doZoom_each capture) (Control._objInfo c) (f, c, w))
    as [infos [[f' c1] w1]].
  cbn [fst snd] in Hloop. destruct Hloop as (Hmouse & Hsat & Hnot & _).
  split.
  - intros Hany. rewrite (Hsat Hany), truthy_false by done.
    unfold _saveMove; simpl. by rewrite Hmouse.
  - intros Hnone Hf. rewrite (Hnot Hnone), truthy_true by done.
    simpl. by rewrite Hmouse.
Qed.

(** The pinch of the specification again ([d = 2], eye length 10): with
    [maxDistance = 15] the object saturates and [prev] is snapped to
    [curr]; with no upper bound nothing saturates and [prev.y] moves a
    fifth of the way to [curr.y]. *)
Lemma doZoom__damping_witness :
  let info := info_of (Vector3.mk 0 0 10) (Vector3.mk 0 0 10) in
  let m := Mouse.mk false (Vector2.mk 0.5 0.5) (Vector2.mk 0.5 0.4) in
  let w := world_of (Vector3.mk 0 0 10) Vector3.zero in
  Mouse.prev
    (Control._mouse (doZoom_ false (zoom_of 0 (Finite 15) [info] m 100 50) w).1)
  = Vector2.mk 0.5 0.5
  ∧ Mouse.prev
      (Control._mouse (doZoom_ false (zoom_of 0 Infinity [info] m 100 50) w).1)
    = Vector2.mk 0.5 (0.4 + 0.2 * (0.5 - 0.4)).
Proof.
  intros info m w. split.
  - destruct (doZoom__damping false (zoom_of 0 (Finite 15) [info] m 100 50) w)
      as [Hsat _]; [simpl; lra|].
    apply Hsat. left. split; [simpl; lra|].
    left. exists 15. split; [reflexivity|].
    unfold info, w. rewrite _getEye_example.
    unfold Vector3.lengthSq; simpl. lra.
  - destruct (doZoom__damping false (zoom_of 0 Infinity [info] m 100 50) w)
      as [_ Hnot]; [simpl; lra|].
    apply Hnot; [|simpl; lra].
    intros [[_ [(M & [=] & _)|Hnear]]|[]].
    change (Control.minDistance _) with 0 in Hnear.
    pose proof (lengthSq_nonneg
                  (Vector3.multiplyScalar (_getEye info w)
                     (zoom_factor false
                        (zoom_of 0 Infinity [info] m 100 50)).1)).
    lra.
Defined.

(** ** Pan *)

(** C7.  With up-vector (0,1,0) and eye (0,0,5), a pan step whose drag has
    no vertical part moves the target by a multiple of [cross(eye, up)]
    and leaves its component along [up] as it was. *)
Theorem pan__horizontal_drag (change : Vector2.t) (info : ObjectInfo.t)
    (c : Control.t) (w : World.t) :
  let up := Object3D.up (World.object (ObjectInfo.obj info) w) in
  let eye := _getEye info w in
  let target := World.read (ObjectInfo.target info) w in
  let target' := World.read (ObjectInfo.target info) (pan_ change info c w).2 in
  up = Vector3.mk 0 1 0 →
  eye = Vector3.mk 0 0 5 →
  Vector2.y change = 0 →
  target'
  = Vector3.add target
      (Vector3.multiplyScalar (Vector3.cross eye up)
         (Vector2.x change * Control.speed c))
  ∧ Vector3.dot (Vector3.sub target' target) up = 0
  ∧ Vector3.dot target' up = Vector3.dot target up.
Proof.
  intros up eye target target' Hup Heye Hy.
  assert (Vector3.length eye = 5) as Hlen.
  { apply length_of_square; [lra|]. rewrite Heye.
    unfold Vector3.lengthSq; simpl. ring. }
  assert (Vector3.lengthSq (Vector3.cross eye up) = 5 * 5) as Hcross.
  { rewrite Heye, Hup. unfold Vector3.lengthSq, Vector3.cross; simpl. ring. }
  assert (Vector3.lengthSq up = 1 * 1) as Hupsq.
  { rewrite Hup. unfold Vector3.lengthSq; simpl. ring. }
  assert (target'
          = Vector3.add target
              (Vector3.multiplyScalar (Vector3.cross eye up)
                 (Vector2.x change * Control.speed c))) as Htarget.
  { unfold target', pan_. fold eye. fold up.
    set (moved := Vector3.add (World.read (ObjectInfo.target info) w) _).
    destruct (_setEye_spec info eye
                (World.write (ObjectInfo.target info) moved w))
      as (_ & _ & Hheap & _).
    rewrite (read_heap_eq _ _ _ Hheap), read_write_eq.
    unfold moved. fold target. f_equal.
    unfold Vector3.setLength.
    rewrite !normalize_nonzero by (rewrite ?Hcross, ?Hupsq; lra).
    rewrite (length_of_square _ 5) by (lra || done).
    rewrite (length_of_square up 1) by (lra || done).
    rewrite Hlen. destruct change as [cx cy]. simpl in Hy. subst cy.
    rewrite Heye, Hup.
    unfold Vector3.add, Vector3.multiplyScalar, Vector3.cross; simpl.
    f_equal; field. }
  split; [done|]. rewrite Htarget, Heye, Hup. destruct target as [tx ty tz].
  unfold Vector3.dot, Vector3.sub, Vector3.add, Vector3.multiplyScalar,
    Vector3.cross; simpl.
  split; ring.
Qed.

(** The camera of the specification's scenario, dragged a tenth of the
    surface to the right: the target moves to (-1/2, 0, 0). *)
Lemma pan__horizontal_drag_witness :
  let info := info_of (Vector3.mk 0 0 5) (Vector3.mk 0 0 5) in
  let c := control_of PanControl ButtonEnum.right [info] mouse0 in
  let w := world_of (Vector3.mk 0 0 5) Vector3.zero in
  let target' := World.read target1 (pan_ (Vector2.mk 0.1 0) info c w).2 in
  Vector3.x target' = - 0.5 ∧ Vector3.y target' = 0 ∧ Vector3.z target' = 0.
Proof.
  intros info c w target'.
  destruct (pan__horizontal_drag (Vector2.mk 0.1 0) info c w) as (Hmove & _).
  - reflexivity.
  - unfold info, w. rewrite _getEye_example.
    unfold Vector3.sub; simpl. f_equal; lra.
  - reflexivity.
  - unfold target'. change target1 with (ObjectInfo.target info).
    rewrite Hmove. unfold info, w.
    rewrite _getEye_example, object_world_of, read_world_of.
    unfold Vector3.add, Vector3.multiplyScalar, Vector3.cross; simpl.
    split_and!; lra.
Defined.

(** ** Orbit *)

Lemma _checkChange_last (info : ObjectInfo.t) (w : World.t) :
  Last.angle (ObjectInfo.last (_checkChange info w).1)
  = Last.angle (ObjectInfo.last info)
  ∧ Last.axis (ObjectInfo.last (_checkChange info w).1)
    = Last.axis (ObjectInfo.last info).
Proof. unfold _checkChange. by case_decide. Qed.

Lemma _setEye_last (info : ObjectInfo.t) (eye : Vector3.t) (w : World.t) :
  Last.angle (ObjectInfo.last (_setEye info eye w).1)
  = Last.angle (ObjectInfo.last info)
  ∧ Last.axis (ObjectInfo.last (_setEye info eye w).1)
    = Last.axis (ObjectInfo.last info).
Proof. unfold _setEye. apply _checkChange_last. Qed.

(** The decay factor of one idle step at damping 0.2. *)
Lemma decay_factor_bounds : 0 < sqrt (1 - 0.2) < 1.
Proof.
  split.
  - apply sqrt_lt_R0. lra.
  - rewrite <- sqrt_1 at 2. apply sqrt_lt_1_alt. lra.
Qed.

(** Rotating keeps the damping state of the entry. *)
Lemma rotate_apply_Some (info : ObjectInfo.t) (eye : Vector3.t) (angle : R)
    (w : World.t) (axis : Vector3.t) :
  Last.axis (ObjectInfo.last info) = Some axis →
  ∃ info' w',
    rotate_apply info eye angle w = Ok (info', w')
    ∧ Last.angle (ObjectInfo.last info') = Last.angle (ObjectInfo.last info)
    ∧ Last.axis (ObjectInfo.last info') = Some axis.
Proof.
  intros Haxis. unfold rotate_apply. rewrite Haxis.
  set (q := Quaternion.setFromAxisAngle axis angle).
  set (w1 := World.update _ _ w).
  destruct (_setEye_last info (applyQuaternion eye q) w1) as [Hangle Haxis'].
  destruct (_setEye info (applyQuaternion eye q) w1) as [info' w'].
  exists info', w'. cbn [fst] in *. split_and!; [done | done | congruence].
Qed.

(** A drag: the stored angle becomes the drag length times [speed]. *)
Lemma rotate__drag (direction : Vector3.t) (info : ObjectInfo.t)
    (c : Control.t) (w : World.t) (axis0 : Vector3.t) :
  Vector3.length direction ≠ 0 →
  Last.axis (ObjectInfo.last info) = Some axis0 →
  ∃ info' w',
    rotate_ direction info c w = Ok (info', w')
    ∧ Last.angle (ObjectInfo.last info')
      = Some (Vector3.length direction * Control.speed c)
    ∧ is_Some (Last.axis (ObjectInfo.last info')).
Proof.
  intros Hlen Haxis. unfold rotate_, rotate_settle.
  rewrite truthy_true by done. rewrite Haxis. cbn [bind].
  match goal with
  | |- context [rotate_apply ?i ?e ?a ?w] =>
      destruct (rotate_apply_Some i e a w _ eq_refl)
        as (info' & w' & Hrun & Hangle & Haxis')
  end.
  exists info', w'. split_and!; [done | by rewrite Hangle | by eexists].
Qed.

(** An idle step with damping: the stored angle is multiplied by
    [sqrt (1 - f)] and the object is rotated by the result. *)
Lemma rotate__idle_decay (info : ObjectInfo.t) (c : Control.t) (w : World.t)
    (a : R) (axis : Vector3.t) :
  Control.dynamicDampingFactor c ≠ 0 →
  Last.angle (ObjectInfo.last info) = Some a →
  a ≠ 0 →
  Last.axis (ObjectInfo.last info) = Some axis →
  let a' := a * sqrt (1 - Control.dynamicDampingFactor c) in
  let info1 :=
    ObjectInfo.set_last (Last.set_angle a' (ObjectInfo.last info)) info in
  ∃ info' w',
    rotate_ Vector3.zero info c w = Ok (info', w')
    ∧ rotate_apply info1 (_getEye info w) a' w = Ok (info', w')
    ∧ Last.angle (ObjectInfo.last info') = Some a'.
Proof.
  intros Hf Hangle Ha Haxis a' info1. unfold rotate_, rotate_settle.
  rewrite length_zero, (truthy_false 0) by done.
  rewrite (truthy_true _ Hf), Hangle, (truthy_true _ Ha). cbn [bind].
  fold a'. fold info1.
  destruct (rotate_apply_Some info1 (_getEye info w) a' w axis)
    as (info' & w' & Hrun & Hangle' & _); [done|].
  exists info', w'. split_and!; [done | done | by rewrite Hangle'].
Qed.

(** An idle step without damping does nothing. *)
Lemma rotate__idle_undamped (info : ObjectInfo.t) (c : Control.t) (w : World.t) :
  Control.dynamicDampingFactor c = 0 →
  rotate_ Vector3.zero info c w = Ok (info, w).
Proof.
  intros Hf. unfold rotate_, rotate_settle.
  rewrite length_zero, (truthy_false 0) by done.
  by rewrite (truthy_false _ Hf).
Qed.

(** C3, as amended.  An orbit step with a zero drag delta: at damping
    factor 0 it leaves the entry and the world as they are; at damping
    factor 0.2, with a stored angle [a] other than zero, the new stored
    angle is [a * sqrt (1 - 0.2)], which is strictly smaller than [a] in
    absolute value, is never zero, and is strictly smaller than [a] itself
    when [a] is positive. *)
Theorem rotate__zero_delta (info : ObjectInfo.t) (c : Control.t) (w : World.t) :
  (Control.dynamicDampingFactor c = 0 →
     rotate_ Vector3.zero info c w = Ok (info, w))
  ∧ (Control.dynamicDampingFactor c = 0.2 →
     ∀ a axis,
       Last.angle (ObjectInfo.last info) = Some a →
       a ≠ 0 →
       Last.axis (ObjectInfo.last info) = Some axis →
       let a' := a * sqrt (1 - 0.2) in
       ∃ info' w',
         rotate_ Vector3.zero info c w = Ok (info', w')
         ∧ Last.angle (ObjectInfo.last info') = Some a'
         ∧ Rabs a' < Rabs a
         ∧ a' ≠ 0
         ∧ (0 < a → a' < a)).
Proof.
  split; [apply rotate__idle_undamped|].
  intros Hf a axis Hangle Ha Haxis a'.
  destruct (rotate__idle_decay info c w a axis) as (info' & w' & Hrun & _ & Ha');
    [rewrite Hf; lra | done | done | done |].
  rewrite Hf in Ha'. exists info', w'.
  pose proof decay_factor_bounds as [Hpos Hlt1].
  split_and!; [done | done | | | ].
  - unfold a'. rewrite Rabs_mult, (Rabs_pos_eq (sqrt _)) by lra.
    assert (0 < Rabs a) by (by apply Rabs_pos_lt). nra.
  - unfold a'. nra.
  - intros Hapos. unfold a'. nra.
Qed.

(** A camera orbiting with stored angle 1/10: without damping an idle step
    changes nothing; with damping 0.2 the stored angle shrinks. *)
Lemma rotate__zero_delta_witness :
  let info :=
    ObjectInfo.mk (Last.mk (Vector3.mk 0 0 5) (Some 0.1) (Some up_y))
                  camera (Vector3.mk 0 0 5) up_y target1 in
  let w := world_of (Vector3.mk 0 0 5) Vector3.zero in
  rotate_ Vector3.zero info (rotation_of 1 0 [info]) w = Ok (info, w)
  ∧ ∃ info' w',
      rotate_ Vector3.zero info (rotation_of 1 0.2 [info]) w = Ok (info', w')
      ∧ Last.angle (ObjectInfo.last info') = Some (0.1 * sqrt (1 - 0.2))
      ∧ 0.1 * sqrt (1 - 0.2) < 0.1.
Proof.
  intros info w. split.
  - apply (rotate__zero_delta info (rotation_of 1 0 [info]) w). reflexivity.
  - destruct (rotate__zero_delta info (rotation_of 1 0.2 [info]) w) as [_ Hdamp].
    destruct (Hdamp eq_refl 0.1 up_y eq_refl) as (info' & w' & Hrun & Ha & _ & _ & Hlt);
      [lra | reflexivity |].
    exists info', w'. split_and!; [done | done | apply Hlt; lra].
Defined.

(** C3 as stated fails for a negative stored angle.  With [speed = -1] a
    drag of length 1 stores the angle -1; the idle step that follows, at
    damping 0.2, stores [-1 * sqrt (1 - 0.2)], which is larger than -1,
    not smaller. *)
Lemma rotate__decay_counterexample :
  let c := rotation_of (-1) 0.2 [] in
  let info0 := rotation_info_of (Vector3.mk 0 0 5) in
  let w0 := world_of (Vector3.mk 0 0 5) Vector3.zero in
  ∃ info1 w1 info2 w2 a1 a2,
    rotate_ (Vector3.mk 1 0 0) info0 c w0 = Ok (info1, w1)
    ∧ Last.angle (ObjectInfo.last info1) = Some a1
    ∧ a1 ≠ 0
    ∧ Control.dynamicDampingFactor c = 0.2
    ∧ rotate_ Vector3.zero info1 c w1 = Ok (info2, w2)
    ∧ Last.angle (ObjectInfo.last info2) = Some a2
    ∧ ¬ a2 < a1.
Proof.
  intros c info0 w0.
  assert (Vector3.length (Vector3.mk 1 0 0) = 1) as Hlen.
  { apply length_of_square; [lra|]. unfold Vector3.lengthSq; simpl. ring. }
  destruct (rotate__drag (Vector3.mk 1 0 0) info0 c w0 Vector3.zero)
    as (info1 & w1 & Hrun1 & Ha1 & [axis Haxis]);
    [rewrite Hlen; lra | reflexivity |].
  rewrite Hlen in Ha1.
  destruct (rotate__idle_decay info1 c w1 (1 * Control.speed c) axis)
    as (info2 & w2 & Hrun2 & _ & Ha2);
    [simpl; lra | done | simpl; lra | done |].
  exists info1, w1, info2, w2, (1 * Control.speed c),
    (1 * Control.speed c * sqrt (1 - Control.dynamicDampingFactor c)).
  split_and!; try done; [simpl; lra|].
  pose proof decay_factor_bounds as [Hpos Hlt1].
  simpl. nra.
Qed.

(** ** The target interface on the example scene *)

Lemma registered_camera (k : Class) (b : ButtonEnum.t) (info : ObjectInfo.t)
    (m : Mouse.t) :
  ObjectInfo.obj info = camera → registered camera (control_of k b [info] m).
Proof. intros Hobj. exists info. split; [apply list_elem_of_here | done]. Qed.


(** The application keeps a vector (1,2,3) at address 2 and makes it the
    camera's target. *)
Lemma setTarget_getTarget_roundtrip_defensive_witness :
  let info := info_of (Vector3.mk 0 0 5) (Vector3.mk 0 0 5) in
  let c := control_of PanControl ButtonEnum.right [info] mouse0 in
  let w :=
    World.write 2%positive (Vector3.mk 1 2 3)
      (world_of (Vector3.mk 0 0 5) Vector3.zero) in
  ∃ prev c1 w1 r w2,
    setTarget camera 2%positive c w = (Some prev, c1, w1)
    ∧ getTarget camera c1 w1 = (Some r, w2)
    ∧ World.read r w2 = Vector3.mk 1 2 3.
Proof.
  intros info c w.
  destruct (setTarget_getTarget_roundtrip_defensive camera 2%positive c w)
    as (prev & c1 & w1 & r & w2 & i & info1 & Hset & Hget & _ & Hread & _).
  - by apply registered_camera.
  - apply elem_of_dom. by eexists.
  - exists prev, c1, w1, r, w2. split_and!; [done | done |].
    rewrite Hread. apply read_write_eq.
Defined.

(** * Further properties of the controllers *)

(** ** Construction *)

Lemma alloc_dom_mono (v : Vector3.t) (w : World.t) (a : loc) :
  a ∈ dom (World.heap w) → a ∈ dom (World.heap (World.alloc v w).2).
Proof.
  intros Ha. unfold World.alloc, World.write; simpl.
  rewrite dom_insert_L. by apply elem_of_union_r.
Qed.

Lemma map_new_ObjectInfo_registers (objects : list oid) :
  ∀ w,
    let infos := (map_new_ObjectInfo objects w).1 in
    let w' := (map_new_ObjectInfo objects w).2 in
    ObjectInfo.obj <$> infos = objects
    ∧ Forall (fun info =>
                ObjectInfo.pos info
                = Object3D.position (World.object (ObjectInfo.obj info) w)
                ∧ ObjectInfo.up info
                  = Object3D.up (World.object (ObjectInfo.obj info) w)
                ∧ Last.pos (ObjectInfo.last info) = ObjectInfo.pos info
                ∧ World.read (ObjectInfo.target info) w' = Vector3.zero
                ∧ (ObjectInfo.target info ∉ dom (World.heap w))
                ∧ ObjectInfo.target info ∈ dom (World.heap w')) infos
    ∧ NoDup (ObjectInfo.target <$> infos)
    ∧ World.scene w' = World.scene w
    ∧ World.events w' = World.events w
    ∧ (∀ a, a ∈ dom (World.heap w) → a ∈ dom (World.heap w'))
    ∧ (∀ a, a ∈ dom (World.heap w) → World.read a w' = World.read a w).
Proof.
  induction objects as [|o objects IH]; intros w.
  { simpl. split_and!; try done. constructor. }
  cbn [map_new_ObjectInfo]. unfold new_ObjectInfo.
  pose proof (alloc_fresh Vector3.zero w) as Hfresh.
  pose proof (alloc_dom Vector3.zero w) as Hdom.
  pose proof (alloc_read_new Vector3.zero w) as Hnew.
  pose proof (fun a => alloc_read_old a Vector3.zero w) as Hold.
  pose proof (alloc_dom_mono Vector3.zero w) as Hsub.
  assert (World.scene (World.alloc Vector3.zero w).2 = World.scene w) as Hsc
    by done.
  assert (World.events (World.alloc Vector3.zero w).2 = World.events w) as Hev
    by done.
  destruct (World.alloc Vector3.zero w) as [a w1]. cbn [fst snd] in *.
  specialize (IH w1).
  destruct (map_new_ObjectInfo objects w1) as [infos w2]. cbn [fst snd] in *.
  destruct IH as (Hobjs & Hall & Hnodup & Hsc2 & Hev2 & Hsub2 & Hold2).
  split_and!.
  - by rewrite fmap_cons, Hobjs.
  - constructor.
    + cbn [ObjectInfo.pos ObjectInfo.up ObjectInfo.last ObjectInfo.target
           ObjectInfo.obj Last.pos].
      split_and!; try done.
      * rewrite Hold2 by done. done.
      * by apply Hsub2.
    + eapply Forall_impl; [exact Hall|].
      intros info (Hp & Hu & Hl & Hr & Hf & Hd).
      rewrite !(object_scene_eq _ w w1 Hsc) in *.
      split_and!; try done. intros Hin. apply Hf. by apply Hsub.
  - rewrite fmap_cons. constructor; [|done].
    intros Hin. cbn [ObjectInfo.target] in Hin.
    apply list_elem_of_fmap in Hin as (info & Heq & Hin).
    rewrite Forall_forall in Hall.
    destruct (Hall info Hin) as (_ & _ & _ & _ & Hf & _).
    apply Hf. by rewrite <- Heq.
  - by rewrite Hsc2.
  - by rewrite Hev2.
  - intros b Hb. by apply Hsub2, Hsub.
  - intros b Hb. rewrite Hold2 by (by apply Hsub). by apply Hold.
Qed.

(** X1.  The constructor registers the objects in the order given.  Each
    entry snapshots the position and up-vector its object has at that
    moment, starts with that position as the last one reported, and gets a
    target of its own: a new zero vector at an address that was not in use
    and that no other entry shares.  The scene, the event log and the
    vectors already on the heap are left as they were. *)
Theorem new_MouseControl_registers (objects : list oid) (element : Dom)
    (w : World.t) :
  let infos := Control._objInfo (new_MouseControl objects element w).1 in
  let w' := (new_MouseControl objects element w).2 in
  ObjectInfo.obj <$> infos = objects
  ∧ Forall (fun info =>
              ObjectInfo.pos info
              = Object3D.position (World.object (ObjectInfo.obj info) w)
              ∧ ObjectInfo.up info
                = Object3D.up (World.object (ObjectInfo.obj info) w)
              ∧ Last.pos (ObjectInfo.last info) = ObjectInfo.pos info
              ∧ World.read (ObjectInfo.target info) w' = Vector3.zero
              ∧ (ObjectInfo.target info ∉ dom (World.heap w))
              ∧ ObjectInfo.target info ∈ dom (World.heap w')) infos
  ∧ NoDup (ObjectInfo.target <$> infos)
  ∧ World.scene w' = World.scene w
  ∧ World.events w' = World.events w
  ∧ (∀ a, a ∈ dom (World.heap w) →
          World.read a w' = World.read a w).
Proof.
  unfold new_MouseControl.
  pose proof (map_new_ObjectInfo_registers objects w) as Hreg.
  destruct (map_new_ObjectInfo objects w) as [infos w1].
  cbn [fst snd] in *.
  destruct Hreg as (H1 & H2 & H3 & H4 & H5 & _ & H7).
  assert (Control._objInfo
            (resize_
               (Control.mk MouseControl 1 0.2 infos
                  (Mouse.mk false Vector2.zero Vector2.zero) ButtonEnum.left
                  element (Rect.mk 0 0 0 0) 0 Infinity 0 0)) = infos) as ->.
  { unfold resize_. by destruct element. }
  done.
Qed.

(** ** The surface rectangle *)

(** X3.  [resize_] rewrites the rectangle and nothing else, and running it
    again without the page having changed gives the same controller.  On a
    controller that does not override [_offsetCalc], over a surface that
    is not empty, the pointer coordinates are fractions of the rectangle
    just measured: the page point at the fraction [(u, v)] of it is
    reported as [(u, v)], the corners as (0, 0) and (1, 1). *)
Theorem resize__normalises_pointer (c : Control.t) (u v : R) :
  let c' := resize_ c in
  let r := getRect c' in
  c' = Control.set_rect_ r c
  ∧ resize_ c' = c'
  ∧ (Control.class c ≠ RotationControl →
     Rect.width r ≠ 0 →
     Rect.height r ≠ 0 →
     _offsetCalc c' (Rect.left r + u * Rect.width r)
                    (Rect.top r + v * Rect.height r)
     = Vector2.mk u v).
Proof.
  intros c' r. split_and!.
  - subst r c'. unfold resize_, getRect.
    by destruct c as [? ? ? ? ? ? [iw ih|r px py cl ct]].
  - subst c'. unfold resize_.
    by destruct c as [? ? ? ? ? ? [iw ih|r0 px py cl ct]].
  - intros Hclass Hw Hh.
    assert (Control.class c' = Control.class c) as Hk.
    { subst c'. unfold resize_. by destruct (Control.dom_ c). }
    unfold _offsetCalc. rewrite Hk.
    assert (MouseControl__offsetCalc c' (Rect.left r + u * Rect.width r)
                                        (Rect.top r + v * Rect.height r)
            = Vector2.mk u v) as Hcalc.
    { unfold MouseControl__offsetCalc. fold r. cbv zeta. f_equal; by field. }
    by destruct (Control.class c).
Qed.

(** In the 100 by 100 window the page point (25, 75) is reported as
    (0.25, 0.75). *)
Lemma resize__normalises_pointer_witness :
  let c := control_of PanControl ButtonEnum.right [] mouse0 in
  _offsetCalc (resize_ c) (0 + 0.25 * 100) (0 + 0.75 * 100)
  = Vector2.mk 0.25 0.75.
Proof.
  intros c.
  apply (resize__normalises_pointer c 0.25 0.75); [done | simpl; lra..].
Defined.

(** ** Events dispatched by a step *)

Lemma change_events_refl (w w' : World.t) (n : nat) :
  World.events w' = World.events w → change_events n w w'.
Proof.
  intros Hev. exists []. rewrite app_nil_r. split_and!; [done|simpl; lia|done].
Qed.

Lemma change_events_trans (n m : nat) (w w1 w2 : World.t) :
  change_events n w w1 → change_events m w1 w2 → change_events (n + m) w w2.
Proof.
  intros (evs1 & H1 & Hl1 & Ha1) (evs2 & H2 & Hl2 & Ha2).
  exists (evs1 ++ evs2). split_and!.
  - by rewrite H2, H1, app_assoc.
  - rewrite length_app. lia.
  - by apply Forall_app.
Qed.

Lemma change_events_mono (n m : nat) (w w' : World.t) :
  (n ≤ m)%nat → change_events n w w' → change_events m w w'.
Proof.
  intros Hle (evs & H1 & Hl & Ha). exists evs. split_and!; [done|lia|done].
Qed.

Lemma _checkChange_events (info : ObjectInfo.t) (w : World.t) :
  change_events 1 w (_checkChange info w).2.
Proof.
  unfold _checkChange. case_decide.
  - by apply change_events_refl.
  - eexists [_]. split_and!; [done | simpl; lia | by repeat constructor].
Qed.

Lemma _setEye_events (info : ObjectInfo.t) (eye : Vector3.t) (w : World.t) :
  change_events 1 w (_setEye info eye w).2.
Proof.
  unfold _setEye.
  match goal with
  | |- change_events 1 w (_checkChange info ?w2).2 =>
      destruct (_checkChange_events info w2) as (evs & Hev & Hlen & Hall)
  end.
  exists evs. split_and!; done.
Qed.

Lemma EPS_pos : 0 < EPS.
Proof. unfold EPS. lra. Qed.

Lemma distanceToSquared_self (v : Vector3.t) :
  Vector3.distanceToSquared v v = 0.
Proof. unfold Vector3.distanceToSquared. simpl. ring. Qed.

(** ** Change detection *)

(** X4.  After [_checkChange] the position last reported is within [EPS]
    of where the object stands; at most one event was dispatched, a
    [moveChange]; and checking again straight away changes nothing and
    dispatches nothing. *)
Theorem _checkChange_settles (info : ObjectInfo.t) (w : World.t) :
  let info' := (_checkChange info w).1 in
  let w' := (_checkChange info w).2 in
  Vector3.distanceToSquared
    (Last.pos (ObjectInfo.last info'))
    (Object3D.position (World.object (ObjectInfo.obj info') w')) <= EPS
  ∧ change_events 1 w w'
  ∧ _checkChange info' w' = (info', w').
Proof.
  intros info' w'.
  assert (Vector3.distanceToSquared
            (Last.pos (ObjectInfo.last info'))
            (Object3D.position (World.object (ObjectInfo.obj info') w'))
          <= EPS) as Hnear.
  { subst info' w'. unfold _checkChange. case_decide as Hd; [done|].
    cbn [fst snd ObjectInfo.last ObjectInfo.set_last ObjectInfo.obj
         Last.pos Last.set_pos].
    unfold World.dispatchEvent, World.object. cbn [World.scene].
    rewrite distanceToSquared_self. pose proof EPS_pos. lra. }
  split_and!; [done | apply _checkChange_events |].
  unfold _checkChange at 1. by rewrite decide_True.
Qed.

(** ** Placing an object *)

(** X5.  [_setEye] puts the object at [target + eye] and turns it towards
    the target, so that reading the eye back gives [eye]; the up-vector,
    the target, the heap and every other object stay as they were, and at
    most one [moveChange] is dispatched. *)
Theorem _setEye_places_object (info : ObjectInfo.t) (eye : Vector3.t)
    (w : World.t) :
  let info' := (_setEye info eye w).1 in
  let w' := (_setEye info eye w).2 in
  let target := World.read (ObjectInfo.target info) w in
  let o := World.object (ObjectInfo.obj info) w in
  World.object (ObjectInfo.obj info) w'
  = Object3D.mk (Vector3.addVectors target eye) (Object3D.up o)
      (Object3D.LookAt (Vector3.addVectors target eye) target (Object3D.up o))
  ∧ _getEye info' w' = eye
  ∧ (∀ o', o' ≠ ObjectInfo.obj info → World.object o' w' = World.object o' w)
  ∧ World.heap w' = World.heap w
  ∧ ObjectInfo.target info' = ObjectInfo.target info
  ∧ change_events 1 w w'.
Proof.
  intros info' w' target o.
  destruct (_setEye_spec info eye w) as (_ & _ & Hheap & _ & Htarget & Heye).
  pose proof (_setEye_events info eye w) as Hev.
  subst info' w'. unfold _setEye in *. fold target in Hheap, Heye, Hev |- *.
  set (w1 := World.update _ (Object3D.set_position _) w) in *.
  set (w2 := World.update _ (Object3D.lookAt target) w1) in *.
  destruct (_checkChange_world info w2) as [Hscene _].
  split_and!; try done.
  - rewrite (object_scene_eq _ _ _ Hscene). unfold w2, w1.
    by rewrite !object_update_eq.
  - intros o' Hne. rewrite (object_scene_eq _ _ _ Hscene). unfold w2, w1.
    by rewrite !object_update_ne.
Qed.

(** ** Pressing and releasing *)

Lemma _saveMove_fields (opt_x opt_y : option R) (c : Control.t) :
  let c' := _saveMove opt_x opt_y c in
  Control.class c' = Control.class c
  ∧ Control.button_ c' = Control.button_ c
  ∧ Control._objInfo c' = Control._objInfo c
  ∧ Control.speed c' = Control.speed c
  ∧ Control.dynamicDampingFactor c' = Control.dynamicDampingFactor c
  ∧ Mouse.capture (Control._mouse c') = Mouse.capture (Control._mouse c).
Proof. unfold _saveMove. by case_match. Qed.

Lemma _startMove_fields (x y : R) (c : Control.t) :
  let c' := _startMove x y c in
  Control.class c' = Control.class c
  ∧ Control.button_ c' = Control.button_ c
  ∧ Control._objInfo c' = Control._objInfo c
  ∧ Control.speed c' = Control.speed c
  ∧ Control.dynamicDampingFactor c' = Control.dynamicDampingFactor c
  ∧ Mouse.capture (Control._mouse c') = Mouse.capture (Control._mouse c)
  ∧ Mouse.prev (Control._mouse c') = Mouse.curr (Control._mouse c').
Proof.
  unfold _startMove.
  destruct (_saveMove_fields (Some x) (Some y) c) as (H1 & H2 & H3 & H4 & H5 & H6).
  destruct (_saveMove_fields None None (_saveMove (Some x) (Some y) c))
    as (G1 & G2 & G3 & G4 & G5 & G6).
  split_and!; try congruence. reflexivity.
Qed.

(** X6.  A press with the bound button starts capturing, leaves [prev]
    equal to [curr] wherever the press lands, and dispatches exactly one
    event: a [moveStart] carrying that equal pair.  A press with any other
    button is ignored.  Neither touches the world beyond the event log. *)
Theorem mouseDown__starts_capture (e : MouseEvent) (c : Control.t)
    (w : World.t) :
  (button e = ButtonEnum.value (Control.button_ c) →
     let m := Control._mouse (mouseDown_ e c w).1 in
     Mouse.capture m = true
     ∧ Mouse.prev m = Mouse.curr m
     ∧ (mouseDown_ e c w).2
       = World.dispatchEvent
           (MoveEvent EventEnum.moveStart (Mouse.curr m) (Mouse.curr m)) w)
  ∧ (button e ≠ ButtonEnum.value (Control.button_ c) →
     mouseDown_ e c w = (c, w)).
Proof.
  unfold mouseDown_. split; intros Hb.
  - rewrite decide_False by (by intros []). cbn [fst snd].
    set (c1 := Control.set__mouse _ c).
    destruct (_startMove_fields (pageX e) (pageY e) c1)
      as (_ & _ & _ & _ & _ & Hcap & Hprev).
    split_and!; [by rewrite Hcap | done |].
    unfold _dispatchMove. by rewrite Hprev.
  - by rewrite decide_True.
Qed.

Lemma mouseDown__starts_capture_witness :
  let c := control_of PanControl ButtonEnum.right [] mouse0 in
  let w := World.mk ∅ ∅ [] in
  Mouse.capture (Control._mouse (mouseDown_ (Build_MouseEvent 2 30 40) c w).1)
  = true
  ∧ mouseDown_ (Build_MouseEvent 0 30 40) c w = (c, w).
Proof.
  intros c w. split.
  - apply (mouseDown__starts_capture (Build_MouseEvent 2 30 40) c w).
    reflexivity.
  - apply (mouseDown__starts_capture (Build_MouseEvent 0 30 40) c w).
    simpl. lia.
Defined.

(** ** Loops over the entries *)

Lemma forEach_length {S : Type} (f : ObjectInfo.t → S → ObjectInfo.t * S)
    (l : list ObjectInfo.t) :
  ∀ s, length (forEach f l s).1 = length l.
Proof.
  induction l as [|info l IH]; intros s; [done|]. simpl.
  destruct (f info s) as [info' s1]. specialize (IH s1).
  destruct (forEach f l s1) as [l' s2]. simpl in *. by rewrite IH.
Qed.

Lemma forEach_change_events {S : Type} (world : S → World.t)
    (f : ObjectInfo.t → S → ObjectInfo.t * S) :
  (∀ info s, change_events 1 (world s) (world (f info s).2)) →
  ∀ l s, change_events (length l) (world s) (world (forEach f l s).2).
Proof.
  intros Hstep. induction l as [|info l IH]; intros s.
  { by apply change_events_refl. }
  simpl. specialize (Hstep info s).
  destruct (f info s) as [info' s1]. specialize (IH s1).
  destruct (forEach f l s1) as [l' s2]. cbn [fst snd] in *.
  by apply (change_events_trans 1 (length l) _ (world s1)).
Qed.

(** ** Pan *)

Lemma pan__events (change : Vector2.t) (info : ObjectInfo.t) (c : Control.t)
    (w : World.t) :
  change_events 1 w (pan_ change info c w).2.
Proof.
  unfold pan_.
  match goal with
  | |- change_events 1 w (_setEye info ?eye ?w1).2 =>
      destruct (_setEye_events info eye w1) as (evs & Hev & Hlen & Hall)
  end.
  exists evs. split_and!; done.
Qed.

(** X7.  A pan step carries the object along with its target: the eye is
    the same after the step as before, so object and target have moved by
    the same displacement; the up-vector is untouched and at most one
    [moveChange] is dispatched. *)
Theorem pan__keeps_eye (change : Vector2.t) (info : ObjectInfo.t)
    (c : Control.t) (w : World.t) :
  let info' := (pan_ change info c w).1 in
  let w' := (pan_ change info c w).2 in
  let o := World.object (ObjectInfo.obj info) w in
  let o' := World.object (ObjectInfo.obj info) w' in
  let target := World.read (ObjectInfo.target info) w in
  let target' := World.read (ObjectInfo.target info) w' in
  _getEye info' w' = _getEye info w
  ∧ Vector3.sub (Object3D.position o') (Object3D.position o)
    = Vector3.sub target' target
  ∧ Object3D.up o' = Object3D.up o
  ∧ change_events 1 w w'.
Proof.
  intros info' w' o o' target target'.
  pose proof (pan__events change info c w) as Hev.
  subst info' w' o' target'. unfold pan_ in *.
  set (eye := _getEye info w) in *.
  set (w1 := World.write (ObjectInfo.target info) _ w) in *.
  destruct (_setEye_spec info eye w1) as (Hpos & Hup & Hheap & _ & _ & Heye).
  split_and!; [done | | done | done].
  rewrite Hpos, (read_heap_eq _ _ _ Hheap).
  unfold eye, _getEye. fold o. fold target.
  destruct (Object3D.position o), target, (World.read _ w1).
  unfold Vector3.sub, Vector3.addVectors, Vector3.add; simpl.
  f_equal; ring.
Qed.

Lemma MouseControl__doMove_fields (x y : R) (c : Control.t) :
  let c' := MouseControl__doMove x y c in
  Control.class c' = Control.class c
  ∧ Control.button_ c' = Control.button_ c
  ∧ Control._objInfo c' = Control._objInfo c
  ∧ Control.speed c' = Control.speed c
  ∧ Control.dynamicDampingFactor c' = Control.dynamicDampingFactor c
  ∧ Mouse.capture (Control._mouse c') = Mouse.capture (Control._mouse c).
Proof. unfold MouseControl__doMove. apply _saveMove_fields. Qed.

(** [_setEye] leaves the other objects alone. *)
Lemma _setEye_other (info : ObjectInfo.t) (eye : Vector3.t) (w : World.t)
    (o : oid) :
  o ≠ ObjectInfo.obj info →
  World.object o (_setEye info eye w).2 = World.object o w.
Proof.
  intros Hne. unfold _setEye.
  destruct (_checkChange_world info
              (World.update (ObjectInfo.obj info)
                 (Object3D.lookAt (World.read (ObjectInfo.target info) w))
                 (World.update (ObjectInfo.obj info)
                    (Object3D.set_position
                       (Vector3.addVectors
                          (World.read (ObjectInfo.target info) w) eye)) w)))
    as [Hscene _].
  rewrite (object_scene_eq _ _ _ Hscene).
  by rewrite !object_update_ne.
Qed.







(** ** Zoom: bounds, guards and the pinch ratio *)

Lemma zoom__events (capture : bool) (info : ObjectInfo.t) (c : Control.t)
    (w : World.t) :
  change_events 1 w (zoom_ capture info c w).2.
Proof.
  destruct (decide ((zoom_factor capture c).1 = 0)) as [Hd|Hd].
  - rewrite (zoom__falsy capture info c w Hd). by apply change_events_refl.
  - rewrite (zoom__truthy capture info c w Hd). apply _setEye_events.
Qed.

Lemma sqr_le_le (a b : R) : 0 <= a → 0 <= b → a * a <= b * b → a <= b.
Proof. intros Ha Hb Hsq. nra. Qed.

(** X9.  With distances configured as [0 <= minDistance <= maxDistance],
    a zoom step whose factor is not zero and whose scaled eye is not the
    zero vector always leaves the object at a distance from its target
    that lies between [minDistance] and [maxDistance]. *)
Theorem zoom__within_bounds (capture : bool) (info : ObjectInfo.t)
    (c : Control.t) (w : World.t) :
  let d := (zoom_factor capture c).1 in
  let scaled := Vector3.multiplyScalar (_getEye info w) d in
  let eye' := _getEye (zoom_ capture info c w).1.1.2 (zoom_ capture info c w).2 in
  d ≠ 0 →
  Vector3.lengthSq scaled ≠ 0 →
  0 <= Control.minDistance c →
  (∀ M, Control.maxDistance c = Finite M → Control.minDistance c <= M) →
  Control.minDistance c <= Vector3.length eye'
  ∧ (∀ M, Control.maxDistance c = Finite M → Vector3.length eye' <= M).
Proof.
  intros d scaled eye' Hd Hnz Hmin Hminmax.
  subst eye'. rewrite (zoom__truthy capture info c w Hd).
  fold d. fold scaled. cbn [fst snd].
  destruct (zoom_factor_config capture c) as (Hcmin & Hcmax & _).
  set (c1 := (zoom_factor capture c).2) in *.
  rewrite <- Hcmin in Hmin, Hminmax |- *. rewrite <- Hcmax in Hminmax |- *.
  set (clamped := zoom_clamp c1 scaled d).
  destruct (_setEye_spec info clamped.1 w) as (_ & _ & _ & _ & _ & Heye).
  rewrite Heye. clear Heye.
  assert (0 <= Vector3.length scaled) as Hlen0 by apply sqrt_pos.
  pose proof (length_sqr scaled) as Hsqr.
  destruct (decide (Vector3.lengthSq scaled
                    < Control.minDistance c1 * Control.minDistance c1))
    as [Hnear|Hnear].
  { unfold clamped. rewrite (zoom_clamp_min c1 scaled d Hmin Hminmax Hnear).
    cbn [fst]. rewrite length_setLength by done.
    split; [lra | intros M HM; by apply Hminmax]. }
  destruct (Control.maxDistance c1) as [M|] eqn:HM.
  - pose proof (Hminmax M eq_refl) as Hle.
    assert (∀ M0, Control.maxDistance c1 = Finite M0 →
                  Control.minDistance c1 <= M0) as Hminmax'.
    { intros M0 HM0. apply Hminmax. by rewrite <- HM, HM0. }
    destruct (decide (M * M < Vector3.lengthSq scaled)) as [Hfar|Hfar].
    + unfold clamped.
      rewrite (zoom_clamp_max c1 scaled d Hmin Hminmax' M HM Hfar).
      cbn [fst]. rewrite length_setLength by (done || lra).
      split; [done | intros M' [= <-]; lra].
    + unfold clamped. rewrite (zoom_clamp_within c1 scaled d).
      * cbn [fst]. split.
        -- apply sqr_le_le; [done | done | lra].
        -- intros M' [= <-]. apply sqr_le_le; [done | lra | lra].
      * intros M' HM'. rewrite HM in HM'. injection HM' as <-. lra.
      * lra.
  - unfold clamped. rewrite (zoom_clamp_within c1 scaled d).
    + cbn [fst]. split; [|intros M' [=]].
      apply sqr_le_le; [done | done | lra].
    + intros M' HM'. by rewrite HM in HM'.
    + lra.
Qed.

(** X10.  In capture mode a drag that asks for the factor 1, or for a
    factor that is zero or negative, is dropped: the step returns 0 and
    leaves the entry, the controller and the world as they are.  So the
    eye is never scaled by a negative number. *)
Theorem zoom__capture_guard (info : ObjectInfo.t) (c : Control.t)
    (w : World.t) :
  let m := Control._mouse c in
  let d :=
    1 + (Vector2.y (Mouse.curr m) - Vector2.y (Mouse.prev m))
        * Control.speed c in
  (d = 1 ∨ d <= 0 → zoom_ true info c w = (Some 0, info, c, w))
  ∧ (0 <= (zoom_factor true c).1).
Proof.
  intros m d.
  assert (zoom_factor true c
          = (if bool_decide (d = 1) || bool_decide (d <= 0) then 0 else d, c))
    as Hfactor by reflexivity.
  split.
  - intros Hdrop.
    assert (zoom_factor true c = (0, c)) as Hzero.
    { rewrite Hfactor. destruct Hdrop as [H1|H0].
      - by rewrite (bool_decide_eq_true_2 (d = 1)).
      - rewrite (bool_decide_eq_true_2 (d <= 0)) by done.
        by rewrite orb_true_r. }
    rewrite (zoom__falsy true info c w); by rewrite Hzero.
  - rewrite Hfactor. cbn [fst].
    destruct (bool_decide (d = 1)); [simpl; lra|].
    destruct (bool_decide (d <= 0)) eqn:Hle; [simpl; lra|].
    apply bool_decide_eq_false in Hle. simpl. lra.
Qed.

Lemma zoom__capture_guard_witness :
  let info := info_of (Vector3.mk 0 0 5) (Vector3.mk 0 0 5) in
  let w := world_of (Vector3.mk 0 0 5) Vector3.zero in
  let c :=
    zoom_of 0 Infinity [info]
      (Mouse.mk true (Vector2.mk 0 0) (Vector2.mk 0 2)) 0 0 in
  zoom_ true info c w = (Some 0, info, c, w).
Proof.
  intros info w c.
  apply (zoom__capture_guard info c w). right. simpl. lra.
Defined.

Lemma add_sub_restore (t p : Vector3.t) :
  Vector3.addVectors t (Vector3.sub p t) = p.
Proof.
  destruct t, p. unfold Vector3.sub, Vector3.addVectors, Vector3.add; simpl.
  f_equal; ring.
Qed.

Lemma zoom__within_bounds_witness :
  let c := zoom_of 0 (Finite 15) [] mouse0 100 50 in
  let info := info_of (Vector3.mk 0 0 10) (Vector3.mk 0 0 10) in
  let w := world_of (Vector3.mk 0 0 10) Vector3.zero in
  Vector3.length
    (_getEye (zoom_ false info c w).1.1.2 (zoom_ false info c w).2) <= 15.
Proof.
  intros c info w.
  destruct (zoom__within_bounds false info c w) as [_ Hmax].
  - simpl. lra.
  - unfold info, w. rewrite _getEye_example, lengthSq_multiplyScalar.
    unfold Vector3.lengthSq; simpl. lra.
  - simpl. lra.
  - intros M [= <-]. simpl. lra.
  - by apply (Hmax 15).
Defined.

(** What one zoom step does to the world: with a factor other than zero
    its object goes to the target plus the zoomed eye, with the factor
    zero nothing happens; the vectors on the heap and the other objects
    are never touched. *)
Lemma zoom__moves (capture : bool) (info : ObjectInfo.t) (c : Control.t)
    (w : World.t) :
  let d := (zoom_factor capture c).1 in
  let w' := (zoom_ capture info c w).2 in
  (d ≠ 0 →
   Object3D.position (World.object (ObjectInfo.obj info) w')
   = Vector3.addVectors (World.read (ObjectInfo.target info) w)
                        (zoomed_eye d info c w))
  ∧ (d = 0 → w' = w)
  ∧ World.heap w' = World.heap w
  ∧ (∀ o, o ≠ ObjectInfo.obj info → World.object o w' = World.object o w).
Proof.
  intros d w'. subst w'. split_and!.
  - intros Hd. by destruct (zoom__sets_eye capture info c w Hd) as (Hpos & _).
  - intros Hd. by rewrite (zoom__falsy capture info c w Hd).
  - destruct (decide (d = 0)) as [Hd|Hd].
    + by rewrite (zoom__falsy capture info c w Hd).
    + rewrite (zoom__truthy capture info c w Hd). cbn [snd].
      by destruct (_setEye_spec info
                     (zoom_clamp (zoom_factor capture c).2
                        (Vector3.multiplyScalar (_getEye info w)
                           (zoom_factor capture c).1)
                        (zoom_factor capture c).1).1 w)
        as (_ & _ & Hheap & _).
  - intros o Hne. destruct (decide (d = 0)) as [Hd|Hd].
    + by rewrite (zoom__falsy capture info c w Hd).
    + rewrite (zoom__truthy capture info c w Hd). cbn [snd].
      by apply _setEye_other.
Qed.

(** The zoomed eye of an entry depends on its own object and target and
    on the distance bounds only. *)
Lemma zoomed_eye_agree (d : R) (info : ObjectInfo.t) (c c1 : Control.t)
    (w w1 : World.t) :
  Control.minDistance c1 = Control.minDistance c →
  Control.maxDistance c1 = Control.maxDistance c →
  World.object (ObjectInfo.obj info) w1 = World.object (ObjectInfo.obj info) w →
  World.read (ObjectInfo.target info) w1 = World.read (ObjectInfo.target info) w →
  zoomed_eye d info c1 w1 = zoomed_eye d info c w.
Proof.
  intros Hmin Hmax Hobj Hread. unfold zoomed_eye, zoom_clamp, _getEye.
  by rewrite Hmin, Hmax, Hobj, Hread.
Qed.

(** Within the bounds the zoomed eye is the scaled eye. *)
Lemma zoomed_eye_within (d : R) (info : ObjectInfo.t) (c : Control.t)
    (w : World.t) :
  let scaled := Vector3.multiplyScalar (_getEye info w) d in
  (∀ M, Control.maxDistance c = Finite M → Vector3.lengthSq scaled <= M * M) →
  Control.minDistance c * Control.minDistance c <= Vector3.lengthSq scaled →
  zoomed_eye d info c w = scaled.
Proof.
  intros scaled Hmax Hmin. unfold zoomed_eye. fold scaled.
  by rewrite (zoom_clamp_within c scaled d Hmax Hmin).
Qed.

Lemma multiplyScalar_one (v : Vector3.t) : Vector3.multiplyScalar v 1 = v.
Proof. destruct v. unfold Vector3.multiplyScalar; simpl. f_equal; ring. Qed.

(** X11.  The pinch ratio is used once.  A pinch step, the recorded
    distances not being zero, moves its object to the target plus the eye
    scaled by [touchStart_ / touchEnd_] and clamped to the distance bounds
    (the scaled eye itself when it lies within them), and then moves
    [touchStart_] up to [touchEnd_]; the step for the next object in the
    same pass therefore sees the factor 1, and an object whose eye lies
    within the distance bounds is left where it stands. *)
Theorem pinch_ratio_used_once (info1 info2 : ObjectInfo.t) (c : Control.t)
    (w : World.t) :
  let d := Control.touchStart_ c / Control.touchEnd_ c in
  let scaled1 := Vector3.multiplyScalar (_getEye info1 w) d in
  let c1 := (zoom_ false info1 c w).1.2 in
  let w1 := (zoom_ false info1 c w).2 in
  let eye2 := _getEye info2 w1 in
  Control.touchEnd_ c ≠ 0 →
  (Control.touchStart_ c ≠ 0 →
   Object3D.position (World.object (ObjectInfo.obj info1) w1)
   = Vector3.addVectors (World.read (ObjectInfo.target info1) w)
                        (zoomed_eye d info1 c w)
   ∧ World.read (ObjectInfo.target info1) w1
     = World.read (ObjectInfo.target info1) w
   ∧ ((∀ M, Control.maxDistance c = Finite M →
            Vector3.lengthSq scaled1 <= M * M) →
      Control.minDistance c * Control.minDistance c
      <= Vector3.lengthSq scaled1 →
      zoomed_eye d info1 c w = scaled1))
  ∧ Control.touchStart_ c1 = Control.touchEnd_ c
  ∧ Control.touchEnd_ c1 = Control.touchEnd_ c
  ∧ (zoom_factor false c1).1 = 1
  ∧ ((∀ M, Control.maxDistance c = Finite M →
           Vector3.lengthSq eye2 <= M * M) →
     Control.minDistance c * Control.minDistance c <= Vector3.lengthSq eye2 →
     Object3D.position
       (World.object (ObjectInfo.obj info2) (zoom_ false info2 c1 w1).2)
     = Object3D.position (World.object (ObjectInfo.obj info2) w1)).
Proof.
  intros d scaled1 c1 w1 eye2 Hapart.
  assert ((zoom_factor false c).1 = d) as Hfactor by reflexivity.
  assert (c1 = Control.set_touchStart_ (Control.touchEnd_ c) c) as Hc1.
  { unfold c1. by rewrite zoom__controller. }
  assert ((zoom_factor false c1).1 = 1) as Hone.
  { rewrite Hc1. unfold zoom_factor; simpl. by field. }
  split_and!; [ | by rewrite Hc1 | by rewrite Hc1 | done | ].
  - intros Hstart.
    assert (d ≠ 0) as Hd.
    { unfold d. intros Hzero.
      apply Rmult_integral in Hzero as [Hzero|Hzero]; [done|].
      by apply Rinv_neq_0_compat in Hapart. }
    destruct (zoom__moves false info1 c w) as (Hpos & _ & Hheap & _).
    rewrite Hfactor in Hpos. split_and!.
    + by apply Hpos.
    + by apply read_heap_eq.
    + by apply zoomed_eye_within.
  - intros Hmax Hmin.
    destruct (zoom__moves false info2 c1 w1) as (Hpos & _).
    rewrite Hone in Hpos. rewrite Hpos by lra.
    rewrite (zoomed_eye_within 1 info2 c1 w1).
    + rewrite multiplyScalar_one. unfold _getEye. apply add_sub_restore.
    + rewrite multiplyScalar_one. intros M HM. apply Hmax.
      by rewrite Hc1 in HM.
    + rewrite multiplyScalar_one. by rewrite Hc1.
Qed.

(** Two cameras under one pinch that halves the contact distance: the
    first, at distance 10 and free to go, is moved out to distance 20; the
    second one sees the factor 1. *)
Lemma pinch_ratio_used_once_witness :
  let info := info_of (Vector3.mk 0 0 10) (Vector3.mk 0 0 10) in
  let c := zoom_of 0 Infinity [info; info] mouse0 100 50 in
  let w := world_of (Vector3.mk 0 0 10) Vector3.zero in
  Object3D.position (World.object camera (zoom_ false info c w).2)
  = Vector3.mk 0 0 20
  ∧ (zoom_factor false (zoom_ false info c w).1.2).1 = 1.
Proof.
  intros info c w.
  destruct (pinch_ratio_used_once info info c w)
    as (Hfirst & _ & _ & Hone & _).
  - simpl. lra.
  - split; [|exact Hone].
    destruct Hfirst as (Hpos & _ & Hwithin); [simpl; lra|].
    change (ObjectInfo.obj info) with camera in Hpos.
    rewrite Hpos, Hwithin.
    + unfold info, w. rewrite _getEye_example, read_world_of.
      unfold Vector3.addVectors, Vector3.add, Vector3.multiplyScalar,
        Vector3.sub; simpl. f_equal; lra.
    + intros M [=].
    + pose proof (lengthSq_nonneg
                    (Vector3.multiplyScalar (_getEye info w)
                       (Control.touchStart_ c / Control.touchEnd_ c))).
      change (Control.minDistance c) with 0. lra.
Defined.

(** ** What a step leaves of the controller *)

Lemma same_controller_refl (c : Control.t) : same_controller c c.
Proof. by unfold same_controller. Qed.

Lemma same_controller_trans (c c1 c2 : Control.t) :
  same_controller c c1 → same_controller c1 c2 → same_controller c c2.
Proof.
  unfold same_controller.
  intros (A1 & A2 & A3 & A4 & A5 & A6 & A7) (B1 & B2 & B3 & B4 & B5 & B6 & B7).
  split_and!; congruence.
Qed.

Lemma _saveMove_same (opt_x opt_y : option R) (c : Control.t) :
  same_controller c (_saveMove opt_x opt_y c)
  ∧ Mouse.capture (Control._mouse (_saveMove opt_x opt_y c))
    = Mouse.capture (Control._mouse c).
Proof. unfold same_controller, _saveMove. by case_match. Qed.

Lemma forEach_invariant {S : Type} (P : S → Prop)
    (f : ObjectInfo.t → S → ObjectInfo.t * S) :
  (∀ info s, P s → P (f info s).2) →
  ∀ l s, P s → P (forEach f l s).2.
Proof.
  intros Hstep. induction l as [|info l IH]; intros s Hs; [done|].
  simpl. specialize (Hstep info s Hs).
  destruct (f info s) as [info' s1]. specialize (IH s1 Hstep).
  by destruct (forEach f l s1) as [l' s2].
Qed.

Lemma zoom_factor_same (capture : bool) (c : Control.t) :
  same_controller c (zoom_factor capture c).2
  ∧ Control._mouse (zoom_factor capture c).2 = Control._mouse c.
Proof. unfold same_controller, zoom_factor. by destruct capture. Qed.

Lemma doZoom_each_events (capture : bool) (info : ObjectInfo.t)
    (s : R * Control.t * World.t) :
  change_events 1 s.2 (doZoom_each capture info s).2.2.
Proof.
  destruct s as [[f c] w]. unfold doZoom_each.
  pose proof (zoom__events capture info c w) as Hev.
  by destruct (zoom_ capture info c w) as [[[d info'] c'] w'].
Qed.

Lemma doZoom_each_same (c : Control.t) (capture : bool) (info : ObjectInfo.t)
    (s : R * Control.t * World.t) :
  same_controller c s.1.2 ∧ Control._mouse s.1.2 = Control._mouse c →
  same_controller c (doZoom_each capture info s).2.1.2
  ∧ Control._mouse (doZoom_each capture info s).2.1.2 = Control._mouse c.
Proof.
  destruct s as [[f c0] w0]. cbn [fst snd]. intros [Hsame Hmouse].
  unfold doZoom_each.
  pose proof (zoom__controller capture info c0 w0) as Hctl.
  destruct (zoom_factor_same capture c0) as [Hsame0 Hmouse0].
  destruct (zoom_ capture info c0 w0) as [[[d info'] c'] w'].
  cbn [fst snd] in *. subst c'. split.
  - by eapply same_controller_trans.
  - congruence.
Qed.

(** The pass of [doZoom_] over the entries. *)
Lemma doZoom__same (capture : bool) (c : Control.t) (w : World.t) :
  let c' := (doZoom_ capture c w).1 in
  let w' := (doZoom_ capture c w).2 in
  same_controller c c'
  ∧ Mouse.capture (Control._mouse c') = Mouse.capture (Control._mouse c)
  ∧ Mouse.curr (Control._mouse c') = Mouse.curr (Control._mouse c)
  ∧ change_events (length (Control._objInfo c)) w w'.
Proof.
  unfold doZoom_.
  pose proof (forEach_change_events (fun s : R * Control.t * World.t => s.2)
                (doZoom_each capture) (doZoom_each_events capture)
                (Control._objInfo c) (Control.dynamicDampingFactor c, c, w))
    as Hev.
  pose proof (forEach_invariant
                (fun s : R * Control.t * World.t =>
                   same_controller c s.1.2
                   ∧ Control._mouse s.1.2 = Control._mouse c)
                (doZoom_each capture) (doZoom_each_same c capture)
                (Control._objInfo c) (Control.dynamicDampingFactor c, c, w)
                (conj (same_controller_refl c) eq_refl)) as Hinv.
  pose proof (forEach_length (doZoom_each capture) (Control._objInfo c)
                (Control.dynamicDampingFactor c, c, w)) as Hlen.
  destruct (forEach (doZoom_each capture) (Control._objInfo c) _)
    as [infos [[f c1] w1]].
  cbn [fst snd] in *. destruct Hinv as [Hsame Hmouse].
  assert (same_controller c (Control.set__objInfo infos c1)) as Hsame'.
  { unfold same_controller in *. simpl.
    destruct Hsame as (A1 & A2 & A3 & A4 & A5 & A6 & _). by split_and!. }
  destruct (JS.truthy f).
  - cbn [fst snd]. simpl. by rewrite Hmouse.
  - cbn [fst snd].
    destruct (_saveMove_same None None (Control.set__objInfo infos c1))
      as [Hs Hc].
    split_and!.
    + by eapply same_controller_trans.
    + rewrite Hc. simpl. by rewrite Hmouse.
    + unfold _saveMove; simpl. by rewrite Hmouse.
    + done.
Qed.

Lemma or_nonzero (a b : R) : a ≠ 0 → JS.or a b = a.
Proof. intros Ha. unfold JS.or. by rewrite truthy_true. Qed.

(** The capture-mode factor when the drag is dropped. *)
Lemma zoom_factor_dropped (c : Control.t) :
  let m := Control._mouse c in
  let d :=
    1 + (Vector2.y (Mouse.curr m) - Vector2.y (Mouse.prev m))
        * Control.speed c in
  d = 1 ∨ d <= 0 → zoom_factor true c = (0, c).
Proof.
  intros m d Hdrop. unfold zoom_factor. fold m. fold d.
  destruct Hdrop as [H1|H0].
  - by rewrite (bool_decide_eq_true_2 (d = 1)).
  - rewrite (bool_decide_eq_true_2 (d <= 0)) by done.
    by rewrite orb_true_r.
Qed.

(** The loop of a capture-mode zoom over entries with objects of their
    own: the controller is not touched, so every entry sees the same
    factor, and each object goes to its target plus its zoomed eye, as
    computed before the loop. *)
Lemma doZoom_capture_loop (infos : list ObjectInfo.t) :
  ∀ (f : R) (c : Control.t) (w : World.t),
    NoDup (ObjectInfo.obj <$> infos) →
    let s := (forEach (doZoom_each true) infos (f, c, w)).2 in
    let d := (zoom_factor true c).1 in
    s.1.2 = c
    ∧ World.heap s.2 = World.heap w
    ∧ (∀ o, o ∉ ObjectInfo.obj <$> infos → World.object o s.2 = World.object o w)
    ∧ (∀ info, info ∈ infos →
         (d ≠ 0 →
          Object3D.position (World.object (ObjectInfo.obj info) s.2)
          = Vector3.addVectors (World.read (ObjectInfo.target info) w)
                               (zoomed_eye d info c w))
         ∧ (d = 0 →
            World.object (ObjectInfo.obj info) s.2
            = World.object (ObjectInfo.obj info) w)).
Proof.
  induction infos as [|info rest IH]; intros f c w Hobjs.
  { split_and!; [done | done | done |].
    intros info Hin. by apply elem_of_nil in Hin. }
  rewrite fmap_cons in Hobjs. apply NoDup_cons in Hobjs as [Hobj Hobjs].
  destruct (zoom__moves true info c w) as (Hpos & Hzero & Hheap & Hother).
  pose proof (zoom__controller true info c w) as Hctl.
  cbn [forEach].
  assert (doZoom_each true info (f, c, w)
          = ((zoom_ true info c w).1.1.2,
             (if (zoom_ true info c w).1.1.1 is None then 0 else f,
              (zoom_ true info c w).1.2, (zoom_ true info c w).2))) as ->.
  { unfold doZoom_each. by destruct (zoom_ true info c w) as [[[? ?] ?] ?]. }
  rewrite Hctl.
  change ((zoom_factor true c).2) with c.
  set (f1 := if (zoom_ true info c w).1.1.1 is None then 0 else f).
  set (w1 := (zoom_ true info c w).2) in *.
  specialize (IH f1 c w1 Hobjs).
  destruct (forEach (doZoom_each true) rest (f1, c, w1)) as [rest' [[f2 c2] w2]].
  cbn [fst snd] in IH |- *.
  destruct IH as (IHc & IHheap & IHobj & IHeach).
  split_and!.
  - done.
  - by rewrite IHheap.
  - intros o Ho. rewrite fmap_cons in Ho.
    apply not_elem_of_cons in Ho as [Hne Ho].
    rewrite (IHobj o Ho). by apply Hother.
  - intros info2 Hin. apply elem_of_cons in Hin as [->|Hin].
    + rewrite (IHobj _ Hobj). split; [done|].
      intros Hd. by rewrite (Hzero Hd).
    + destruct (IHeach info2 Hin) as [Hmove Hstay].
      assert (ObjectInfo.obj info2 ≠ ObjectInfo.obj info) as Hne.
      { intros Heq. apply Hobj. rewrite <- Heq.
        apply list_elem_of_fmap. by exists info2. }
      rewrite (zoomed_eye_agree _ info2 c c w w1) in Hmove;
        [ | done | done | by apply Hother | by apply read_heap_eq ].
      rewrite (read_heap_eq _ _ _ Hheap) in Hmove.
      rewrite (Hother _ Hne) in Hstay. done.
Qed.

(** X12.  A wheel event on a zoom controller is a whole gesture in one
    call: it shifts [prev.y] by the wheel delta times the unit of its
    delta mode (0.00025 per pixel, 0.01 per line, 0.025 per page, the
    pixel unit for any other mode), dispatches [moveStart], zooms every
    entry with at most one [moveChange] each, and dispatches [moveStop].
    Zooming every entry means, where the entries have objects of their
    own: with [d = 1 + (curr.y - prev.y) * speed] for the shifted
    [prev.y], every object goes to its target plus its eye scaled by [d]
    and clamped to the distance bounds, or stays as it is when [d] is 1,
    zero or negative.  The call neither starts nor ends capturing and
    leaves [curr] alone. *)
Theorem mouseWheel__is_a_whole_gesture (e : WheelEvent) (c : Control.t)
    (w : World.t) :
  let m := Control._mouse c in
  let unit :=
    match deltaMode e with
    | 1%nat => 0.01
    | 2%nat => 0.025
    | _ => 0.00025
    end in
  let prev1 :=
    Vector2.mk (Vector2.x (Mouse.prev m))
               (Vector2.y (Mouse.prev m) - deltaY e * unit) in
  let d := 1 + (Vector2.y (Mouse.curr m) - Vector2.y prev1) * Control.speed c in
  let c' := (mouseWheel_ e c w).1 in
  let w' := (mouseWheel_ e c w).2 in
  Control.class c = ZoomControl →
  (∃ changes,
      World.events w'
      = World.events w
        ++ [MoveEvent EventEnum.moveStart (Mouse.curr m) prev1]
        ++ changes
        ++ [MoveEvent EventEnum.moveStop (Mouse.curr (Control._mouse c'))
                      (Mouse.prev (Control._mouse c'))]
      ∧ (length changes ≤ length (Control._objInfo c))%nat
      ∧ Forall (fun ev => type ev = EventEnum.moveChange) changes)
  ∧ same_controller c c'
  ∧ Mouse.capture (Control._mouse c') = Mouse.capture m
  ∧ Mouse.curr (Control._mouse c') = Mouse.curr m
  ∧ (NoDup (ObjectInfo.obj <$> Control._objInfo c) →
     ∀ info, info ∈ Control._objInfo c →
       (d ≠ 1 → 0 < d →
        Object3D.position (World.object (ObjectInfo.obj info) w')
        = Vector3.addVectors (World.read (ObjectInfo.target info) w)
                             (zoomed_eye d info c w))
       ∧ (d = 1 ∨ d <= 0 →
          World.object (ObjectInfo.obj info) w'
          = World.object (ObjectInfo.obj info) w)).
Proof.
  intros m unit prev1 d c' w' Hclass. subst c' w'. unfold mouseWheel_.
  fold m.
  assert (match [0.00025; 0.01; 0.025] !! deltaMode e with
          | Some u => JS.or u 0.00025
          | None => 0.00025
          end = unit) as ->.
  { subst unit. destruct (deltaMode e) as [|[|[|n]]]; simpl;
      rewrite ?or_nonzero by lra; reflexivity. }
  fold prev1.
  set (c1 := Control.set__mouse (Mouse.set_prev prev1 m) c).
  set (w1 := _dispatchMove EventEnum.moveStart c1 w).
  destruct (doZoom__same true c1 w1) as (Hsame & Hcap & Hcurr & Hev).
  assert (NoDup (ObjectInfo.obj <$> Control._objInfo c) →
          ∀ info, info ∈ Control._objInfo c →
            (d ≠ 1 → 0 < d →
             Object3D.position
               (World.object (ObjectInfo.obj info) (doZoom_ true c1 w1).2)
             = Vector3.addVectors (World.read (ObjectInfo.target info) w)
                                  (zoomed_eye d info c w))
            ∧ (d = 1 ∨ d <= 0 →
               World.object (ObjectInfo.obj info) (doZoom_ true c1 w1).2
               = World.object (ObjectInfo.obj info) w)) as Hobjects.
  { intros Hobjs info Hin.
    destruct (doZoom_capture_loop (Control._objInfo c1)
                (Control.dynamicDampingFactor c1) c1 w1 Hobjs)
      as (_ & _ & _ & Heach).
    assert ((doZoom_ true c1 w1).2
            = (forEach (doZoom_each true) (Control._objInfo c1)
                 (Control.dynamicDampingFactor c1, c1, w1)).2.2) as ->.
    { unfold doZoom_.
      destruct (forEach (doZoom_each true) (Control._objInfo c1) _)
        as [infos [[f2 c2] w2]].
      cbn [fst snd]. by destruct (JS.truthy f2). }
    destruct (Heach info Hin) as [Hmove Hstay].
    assert (zoomed_eye (zoom_factor true c1).1 info c1 w1
            = zoomed_eye (zoom_factor true c1).1 info c w) as Heye
      by (by apply zoomed_eye_agree).
    rewrite Heye in Hmove.
    change (World.read (ObjectInfo.target info) w1)
      with (World.read (ObjectInfo.target info) w) in Hmove.
    change (World.object (ObjectInfo.obj info) w1)
      with (World.object (ObjectInfo.obj info) w) in Hstay.
    split.
    - intros Hd1 Hd0.
      assert (zoom_factor true c1 = (d, c1)) as Hfactor
        by (by apply (zoom_factor_capture c1)).
      rewrite Hfactor in Hmove. cbn [fst] in Hmove. apply Hmove. lra.
    - intros Hdrop.
      assert (zoom_factor true c1 = (0, c1)) as Hfactor
        by (by apply (zoom_factor_dropped c1)).
      rewrite Hfactor in Hstay. by apply Hstay. }
  destruct (doZoom_ true c1 w1) as [c2 w2]. cbn [fst snd] in *.
  assert (Control.class c2 = ZoomControl) as Hclass2.
  { destruct Hsame as (H1 & _). by rewrite H1. }
  unfold _stopMove. rewrite Hclass2. unfold MouseControl__stopMove.
  cbn [fst snd]. destruct Hev as (changes & Hev & Hlen & Hall).
  split_and!.
  - exists changes. split_and!; [|done|done].
    unfold _dispatchMove, World.dispatchEvent. cbn [World.events].
    rewrite Hev. unfold w1, _dispatchMove, World.dispatchEvent.
    cbn [World.events]. by rewrite <- !app_assoc.
  - done.
  - by rewrite Hcap.
  - by rewrite Hcurr.
  - exact Hobjects.
Qed.

(** One notch of the wheel, 120 pixels, on the example camera at distance
    5: the factor is 1.03 and the camera ends at distance 5.15, the
    controller still not capturing. *)
Lemma mouseWheel__is_a_whole_gesture_witness :
  let info := info_of (Vector3.mk 0 0 5) (Vector3.mk 0 0 5) in
  let c := zoom_of 0 Infinity [info] mouse0 0 0 in
  let w := world_of (Vector3.mk 0 0 5) Vector3.zero in
  let e := Build_WheelEvent 120 0%nat in
  Mouse.capture (Control._mouse (mouseWheel_ e c w).1) = false
  ∧ Control.class (mouseWheel_ e c w).1 = ZoomControl
  ∧ Object3D.position (World.object camera (mouseWheel_ e c w).2)
    = Vector3.mk 0 0 5.15.
Proof.
  intros info c w e.
  destruct (mouseWheel__is_a_whole_gesture e c w)
    as (_ & Hsame & Hcap & _ & Hobjects); [reflexivity|].
  split_and!; [exact Hcap | by destruct Hsame as [-> _] |].
  destruct (Hobjects (NoDup_singleton _) info) as [Hmove _];
    [apply list_elem_of_here|].
  set (d := 1 + _ * Control.speed c) in Hmove.
  assert (d = 1.03) as Hd.
  { subst d. change (Control._mouse c) with mouse0.
    change (Control.speed c) with 1. unfold mouse0, e. simpl. lra. }
  rewrite Hd in Hmove.
  change (ObjectInfo.obj info) with camera in Hmove.
  rewrite Hmove by lra.
  rewrite zoomed_eye_within.
  - unfold info, w. rewrite _getEye_example, read_world_of.
    unfold Vector3.addVectors, Vector3.add, Vector3.multiplyScalar,
      Vector3.sub; simpl. f_equal; lra.
  - intros M [=].
  - match goal with
    | |- _ <= Vector3.lengthSq ?v => pose proof (lengthSq_nonneg v)
    end.
    change (Control.minDistance c) with 0. lra.
Defined.

(** ** Touch gestures *)

(** X13.  [ZoomControl._touchStart] ignores an event with fewer than two
    contacts.  With two or more it records the distance between the first
    two as both [touchStart_] and [touchEnd_], leaves [prev] equal to
    [curr], and dispatches one [moveStart] carrying that pair; so, the
    contacts being apart, the pinch factor right after the start is 1. *)
Theorem ZoomControl__touchStart_records (e : TouchEvent) (c : Control.t)
    (w : World.t) :
  ((length (touches e) ≤ 1)%nat → ZoomControl__touchStart e c w = Ok (c, w))
  ∧ (∀ t0 t1 rest,
       touches e = t0 :: t1 :: rest →
       let dx := touch_pageX t0 - touch_pageX t1 in
       let dy := touch_pageY t0 - touch_pageY t1 in
       let d := sqrt (dx * dx + dy * dy) in
       ∃ c',
         ZoomControl__touchStart e c w
         = Ok (c', World.dispatchEvent
                     (MoveEvent EventEnum.moveStart
                        (Mouse.curr (Control._mouse c'))
                        (Mouse.curr (Control._mouse c'))) w)
         ∧ Control.touchStart_ c' = d
         ∧ Control.touchEnd_ c' = d
         ∧ Mouse.prev (Control._mouse c') = Mouse.curr (Control._mouse c')
         ∧ (d ≠ 0 → (zoom_factor false c').1 = 1)).
Proof.
  split.
  - intros Hlen. unfold ZoomControl__touchStart. by rewrite decide_True.
  - intros t0 t1 rest Htouches dx dy d.
    unfold ZoomControl__touchStart. rewrite Htouches.
    rewrite decide_False by (simpl; lia).
    unfold distanceCalc_. cbn [bind]. fold dx. fold dy. fold d.
    set (c1 := _startMove _ _ c).
    destruct (_startMove_fields
                (JS.shr (touch_pageX t0 + touch_pageX t1) 1)
                (JS.shr (touch_pageY t0 + touch_pageY t1) 1) c)
      as (_ & _ & _ & _ & _ & _ & Hprev).
    fold c1 in Hprev.
    set (c' := Control.set_touchStart_ d (Control.set_touchEnd_ d c1)).
    assert (Control._mouse c' = Control._mouse c1) as Hmouse by reflexivity.
    exists c'. split_and!.
    + change (Control.touchEnd_ (Control.set_touchEnd_ d c1)) with d.
      fold c'. unfold TouchControl__touchStart, _dispatchMove.
      by rewrite Hmouse, Hprev.
    + reflexivity.
    + reflexivity.
    + by rewrite Hmouse.
    + intros Hd. unfold zoom_factor. simpl. by field.
Qed.

Lemma ZoomControl__touchStart_records_witness :
  let c := zoom_of 0 Infinity [] mouse0 0 0 in
  let w := World.mk ∅ ∅ [] in
  ZoomControl__touchStart (Build_TouchEvent [Build_Touch 10 10]) c w
  = Ok (c, w)
  ∧ ∃ c',
      ZoomControl__touchStart
        (Build_TouchEvent [Build_Touch 0 0; Build_Touch 3 4]) c w
      = Ok (c', World.dispatchEvent
                  (MoveEvent EventEnum.moveStart
                     (Mouse.curr (Control._mouse c'))
                     (Mouse.curr (Control._mouse c'))) w)
      ∧ Control.touchStart_ c' = 5.
Proof.
  intros c w. split.
  - apply (ZoomControl__touchStart_records
             (Build_TouchEvent [Build_Touch 10 10]) c w). simpl. lia.
  - destruct (ZoomControl__touchStart_records
                (Build_TouchEvent [Build_Touch 0 0; Build_Touch 3 4]) c w)
      as [_ Htwo].
    destruct (Htwo (Build_Touch 0 0) (Build_Touch 3 4) [] eq_refl)
      as (c' & Hrun & Hstart & _).
    exists c'. split; [exact Hrun|]. rewrite Hstart. simpl.
    replace ((0 - 3) * (0 - 3) + (0 - 4) * (0 - 4)) with (5 * 5) by ring.
    apply sqrt_square. lra.
Defined.

(** How the touch events reach a zoom controller. *)
Lemma deliver_touch_ZoomControl (e : TouchEvent) (c : Control.t) (w : World.t) :
  Control.class c = ZoomControl →
  deliver (touchstart e) c w = ZoomControl__touchStart e c w
  ∧ deliver (touchmove e) c w = ZoomControl__touchMove e c w
  ∧ deliver (touchend e) c w = ZoomControl__touchEnd e c w.
Proof. intros Hclass. unfold deliver, invoke. by rewrite Hclass. Qed.

(** C6 in a whole pinch.  On a zoom controller two fingers go down, one
    is lifted, then the other.  The pinch dispatches its [moveStart] and
    nothing after it: no [moveStop] tells the listeners that it is
    over, as one does after a mouse drag and after a turn of the wheel. *)
Lemma pinch_is_never_stopped (t0 t1 : Touch) (c : Control.t) (w : World.t) :
  Control.class c = ZoomControl →
  ∃ c' start,
    run [touchstart (Build_TouchEvent [t0; t1]);
         touchend (Build_TouchEvent [t0]);
         touchend (Build_TouchEvent [])] c w
    = Ok (c', World.dispatchEvent start w)
    ∧ type start = EventEnum.moveStart.
Proof.
  intros Hclass. cbn [run].
  destruct (deliver_touch_ZoomControl (Build_TouchEvent [t0; t1]) c w Hclass)
    as (-> & _ & _).
  unfold ZoomControl__touchStart. rewrite decide_False by (simpl; lia).
  unfold distanceCalc_. cbn [touches bind].
  set (c1 := _startMove _ _ c).
  destruct (_startMove_fields
              (JS.shr (touch_pageX t0 + touch_pageX t1) 1)
              (JS.shr (touch_pageY t0 + touch_pageY t1) 1) c)
    as (Hclass1 & _).
  fold c1 in Hclass1.
  set (c' := Control.set_touchStart_ _ (Control.set_touchEnd_ _ c1)).
  assert (Control.class c' = ZoomControl) as Hclass'.
  { change (Control.class c') with (Control.class c1). congruence. }
  unfold TouchControl__touchStart. cbn [bind].
  set (w1 := _dispatchMove EventEnum.moveStart c' w).
  destruct (deliver_touch_ZoomControl (Build_TouchEvent [t0]) c' w1 Hclass')
    as (_ & _ & ->).
  unfold ZoomControl__touchEnd at 1. rewrite decide_False by (simpl; lia).
  cbn [bind].
  destruct (deliver_touch_ZoomControl (Build_TouchEvent []) c' w1 Hclass')
    as (_ & _ & ->).
  unfold ZoomControl__touchEnd. rewrite decide_False by (simpl; lia).
  cbn [bind]. eexists c', _. split; reflexivity.
Qed.

(** X14.  The touch handlers of the rotation controller act on
    single-contact events only: with no contact or with several, each of
    them leaves controller and world as they are.  With one contact, on a
    rotation controller, touch start dispatches one [moveStart] and touch
    end one [moveStop], each carrying [prev] equal to [curr]. *)
Theorem RotationControl_touch_single_contact (e : TouchEvent)
    (c : Control.t) (w : World.t) :
  (length (touches e) ≠ 1%nat →
     RotationControl__touchStart e c w = Ok (c, w)
     ∧ RotationControl__touchMove e c w = Ok (c, w)
     ∧ RotationControl__touchEnd e c w = Ok (c, w))
  ∧ (∀ t, touches e = [t] →
          Control.class c = RotationControl →
          ∃ c1 c2,
            RotationControl__touchStart e c w
            = Ok (c1, World.dispatchEvent
                        (MoveEvent EventEnum.moveStart
                           (Mouse.curr (Control._mouse c1))
                           (Mouse.curr (Control._mouse c1))) w)
            ∧ Mouse.prev (Control._mouse c1) = Mouse.curr (Control._mouse c1)
            ∧ RotationControl__touchEnd e c w
              = Ok (c2, World.dispatchEvent
                          (MoveEvent EventEnum.moveStop
                             (Mouse.curr (Control._mouse c2))
                             (Mouse.curr (Control._mouse c2))) w)
            ∧ Mouse.prev (Control._mouse c2) = Mouse.curr (Control._mouse c2)).
Proof.
  split.
  - intros Hlen.
    unfold RotationControl__touchStart, RotationControl__touchMove,
      RotationControl__touchEnd.
    destruct (touches e) as [|t [|t' rest]]; simpl in Hlen; done.
  - intros t Ht Hclass.
    unfold RotationControl__touchStart, RotationControl__touchEnd.
    rewrite Ht.
    set (c1 := _startMove (touch_pageX t) (touch_pageY t) c).
    destruct (_startMove_fields (touch_pageX t) (touch_pageY t) c)
      as (Hc1 & _ & _ & _ & _ & _ & Hprev).
    fold c1 in Hc1, Hprev.
    exists c1, (_saveMove None None c1). split_and!.
    + unfold TouchControl__touchStart, _dispatchMove. by rewrite Hprev.
    + done.
    + unfold _stopMove. rewrite Hc1, Hclass.
      unfold RotationControl__stopMove, MouseControl__stopMove, _dispatchMove.
      reflexivity.
    + reflexivity.
Qed.

Lemma RotationControl_touch_single_contact_witness :
  let c := rotation_of 1 0.2 [] in
  let w := World.mk ∅ ∅ [] in
  let t := Build_Touch 30 40 in
  RotationControl__touchMove (Build_TouchEvent [t; t]) c w = Ok (c, w)
  ∧ ∃ c2 q,
      RotationControl__touchEnd (Build_TouchEvent [t]) c w
      = Ok (c2, World.mk ∅ ∅ [MoveEvent EventEnum.moveStop q q]).
Proof.
  intros c w t. split.
  - apply (RotationControl_touch_single_contact
             (Build_TouchEvent [t; t]) c w). simpl. lia.
  - destruct (RotationControl_touch_single_contact
                (Build_TouchEvent [t]) c w) as [_ Hone].
    destruct (Hone t eq_refl eq_refl) as (c1 & c2 & _ & _ & Hend & _).
    exists c2, (Mouse.curr (Control._mouse c2)). exact Hend.
Defined.

(** ** Orbit: rotations *)

(** [applyQuaternion] scales squared lengths by the square of the
    quaternion's squared norm. *)
Lemma lengthSq_applyQuaternion (v : Vector3.t) (q : Quaternion.t) :
  let n :=
    Quaternion.x q * Quaternion.x q + Quaternion.y q * Quaternion.y q
    + Quaternion.z q * Quaternion.z q + Quaternion.w q * Quaternion.w q in
  Vector3.lengthSq (applyQuaternion v q) = n * n * Vector3.lengthSq v.
Proof.
  destruct v, q. unfold Vector3.lengthSq, applyQuaternion; simpl. ring.
Qed.

(** The quaternion of a unit axis is a unit quaternion. *)
Lemma setFromAxisAngle_unit (axis : Vector3.t) (angle : R) :
  Vector3.lengthSq axis = 1 →
  let q := Quaternion.setFromAxisAngle axis angle in
  Quaternion.x q * Quaternion.x q + Quaternion.y q * Quaternion.y q
  + Quaternion.z q * Quaternion.z q + Quaternion.w q * Quaternion.w q = 1.
Proof.
  intros Haxis. unfold Quaternion.setFromAxisAngle; simpl.
  pose proof (sin2_cos2 (angle / 2)) as Hsc. unfold Rsqr in Hsc.
  unfold Vector3.lengthSq in Haxis.
  replace (_ + _ + _ + _)
    with (sin (angle / 2) * sin (angle / 2)
          * (Vector3.x axis * Vector3.x axis + Vector3.y axis * Vector3.y axis
             + Vector3.z axis * Vector3.z axis)
          + cos (angle / 2) * cos (angle / 2)) by ring.
  rewrite Haxis. lra.
Qed.

Lemma lengthSq_rotate (v axis : Vector3.t) (angle : R) :
  Vector3.lengthSq axis = 1 →
  Vector3.lengthSq (applyQuaternion v (Quaternion.setFromAxisAngle axis angle))
  = Vector3.lengthSq v.
Proof.
  intros Haxis. rewrite lengthSq_applyQuaternion.
  rewrite (setFromAxisAngle_unit axis angle Haxis). ring.
Qed.

(** What [rotate_apply] does to the object of an entry whose axis is
    there. *)
Lemma rotate_apply_spec (info : ObjectInfo.t) (eye : Vector3.t) (angle : R)
    (w : World.t) (axis : Vector3.t) :
  Last.axis (ObjectInfo.last info) = Some axis →
  let q := Quaternion.setFromAxisAngle axis angle in
  ∃ info' w',
    rotate_apply info eye angle w = Ok (info', w')
    ∧ Last.angle (ObjectInfo.last info') = Last.angle (ObjectInfo.last info)
    ∧ Last.axis (ObjectInfo.last info') = Some axis
    ∧ ObjectInfo.obj info' = ObjectInfo.obj info
    ∧ _getEye info' w' = applyQuaternion eye q
    ∧ Object3D.up (World.object (ObjectInfo.obj info) w')
      = applyQuaternion (Object3D.up (World.object (ObjectInfo.obj info) w)) q
    ∧ change_events 1 w w'.
Proof.
  intros Haxis q. unfold rotate_apply. rewrite Haxis. fold q.
  set (w1 := World.update _ _ w).
  destruct (_setEye_last info (applyQuaternion eye q) w1) as [Hangle Haxis'].
  destruct (_setEye_spec info (applyQuaternion eye q) w1)
    as (_ & Hup & _ & Hobj & _ & Heye).
  pose proof (_setEye_events info (applyQuaternion eye q) w1) as Hev.
  destruct (_setEye info (applyQuaternion eye q) w1) as [info' w'].
  cbn [fst snd] in *. exists info', w'.
  split_and!; try done; [congruence|].
  rewrite Hup. unfold w1. by rewrite object_update_eq.
Qed.

(** X15.  Take a damping factor of at most 1, so that the root the idle
    branch takes is the root of a number that is not negative.  One orbit
    step on an entry that has its axis never throws.  It dispatches at
    most one [moveChange] and keeps the axis defined; and whenever the
    axis stored after the step is a unit vector, the step has kept the
    distance between the object and its target, and the length of the
    up-vector. *)
Theorem rotate__keeps_distance (direction : Vector3.t) (info : ObjectInfo.t)
    (c : Control.t) (w : World.t) (axis0 : Vector3.t) :
  Control.dynamicDampingFactor c <= 1 →
  Last.axis (ObjectInfo.last info) = Some axis0 →
  ∃ info' w' axis',
    rotate_ direction info c w = Ok (info', w')
    ∧ Last.axis (ObjectInfo.last info') = Some axis'
    ∧ ObjectInfo.obj info' = ObjectInfo.obj info
    ∧ change_events 1 w w'
    ∧ (Vector3.lengthSq axis' = 1 →
       Vector3.length (_getEye info' w') = Vector3.length (_getEye info w)
       ∧ Vector3.length (Object3D.up (World.object (ObjectInfo.obj info) w'))
         = Vector3.length (Object3D.up (World.object (ObjectInfo.obj info) w))).
Proof.
  intros _ Haxis. unfold rotate_, rotate_settle.
  set (eye := _getEye info w).
  assert (∀ a info1 axis1,
            Last.axis (ObjectInfo.last info1) = Some axis1 →
            ObjectInfo.obj info1 = ObjectInfo.obj info →
            ∃ info' w' axis',
              rotate_apply info1 eye a w = Ok (info', w')
              ∧ Last.axis (ObjectInfo.last info') = Some axis'
              ∧ ObjectInfo.obj info' = ObjectInfo.obj info
              ∧ change_events 1 w w'
              ∧ (Vector3.lengthSq axis' = 1 →
                 Vector3.length (_getEye info' w') = Vector3.length eye
                 ∧ Vector3.length
                     (Object3D.up (World.object (ObjectInfo.obj info) w'))
                   = Vector3.length
                       (Object3D.up (World.object (ObjectInfo.obj info) w))))
    as Happly.
  { intros a info1 axis1 Haxis1 Hobj1.
    destruct (rotate_apply_spec info1 eye a w axis1 Haxis1)
      as (info' & w' & Hrun & _ & Haxis' & Hobj' & Heye & Hup & Hev).
    exists info', w', axis1. rewrite Hobj1 in Hup, Hobj'.
    split_and!; try done. intros Hunit.
    unfold Vector3.length. rewrite Heye, Hup, !lengthSq_rotate by done. done. }
  destruct (JS.truthy (Vector3.length direction)).
  - rewrite Haxis. cbn [bind]. by eapply Happly.
  - destruct (JS.truthy (Control.dynamicDampingFactor c)).
    + destruct (Last.angle (ObjectInfo.last info)) as [a|].
      * destruct (JS.truthy a).
        -- cbn [bind]. by eapply Happly.
        -- cbn [bind]. exists info, w, axis0.
           split_and!; try done. by apply change_events_refl.
      * cbn [bind]. exists info, w, axis0.
        split_and!; try done. by apply change_events_refl.
    + cbn [bind]. exists info, w, axis0.
      split_and!; try done. by apply change_events_refl.
Qed.

(** A camera orbiting about the unit axis (0,1,0), coasting at damping
    0.2, stays at distance 5. *)
Lemma rotate__keeps_distance_witness :
  let info :=
    ObjectInfo.mk (Last.mk (Vector3.mk 0 0 5) (Some 0.1) (Some up_y))
                  camera (Vector3.mk 0 0 5) up_y target1 in
  let w := world_of (Vector3.mk 0 0 5) Vector3.zero in
  ∃ info' w',
    rotate_ Vector3.zero info (rotation_of 1 0.2 [info]) w = Ok (info', w')
    ∧ Vector3.length (_getEye info' w') = 5.
Proof.
  intros info w.
  destruct (rotate__keeps_distance Vector3.zero info
              (rotation_of 1 0.2 [info]) w up_y)
    as (info' & w' & axis' & Hrun & Haxis & _ & _ & Hdist);
    [simpl; lra | reflexivity |].
  exists info', w'. split; [exact Hrun|].
  assert (axis' = up_y) as ->.
  { destruct (rotate__idle_decay info (rotation_of 1 0.2 [info]) w 0.1 up_y)
      as (i2 & w2 & Hrun2 & Happ & _);
      [simpl; lra | reflexivity | lra | reflexivity |].
    rewrite Hrun in Hrun2. injection Hrun2 as <- <-.
    destruct (rotate_apply_spec
                (ObjectInfo.set_last
                   (Last.set_angle
                      (0.1 * sqrt (1 - Control.dynamicDampingFactor
                                         (rotation_of 1 0.2 [info])))
                      (ObjectInfo.last info)) info)
                (_getEye info w)
                (0.1 * sqrt (1 - Control.dynamicDampingFactor
                                   (rotation_of 1 0.2 [info])))
                w up_y eq_refl)
      as (i3 & w3 & Hrun3 & _ & Haxis3 & _).
    rewrite Happ in Hrun3. injection Hrun3 as <- <-. congruence. }
  destruct Hdist as [Heye _].
  - unfold Vector3.lengthSq, up_y; simpl. ring.
  - rewrite Heye. apply length_of_square; [lra|].
    change (_getEye info w)
      with (Vector3.sub (Vector3.mk 0 0 5) Vector3.zero).
    unfold Vector3.lengthSq; simpl. ring.
Defined.

(** One orbit step on an entry with its axis, for the loop. *)
Lemma rotate__total_step (direction : Vector3.t) (info : ObjectInfo.t)
    (c : Control.t) (w : World.t) (axis0 : Vector3.t) :
  Last.axis (ObjectInfo.last info) = Some axis0 →
  ∃ info' w',
    rotate_ direction info c w = Ok (info', w')
    ∧ is_Some (Last.axis (ObjectInfo.last info'))
    ∧ change_events 1 w w'.
Proof.
  intros Haxis. unfold rotate_, rotate_settle.
  assert (∀ a info1 axis1,
            Last.axis (ObjectInfo.last info1) = Some axis1 →
            ∃ info' w',
              rotate_apply info1 (_getEye info w) a w = Ok (info', w')
              ∧ is_Some (Last.axis (ObjectInfo.last info'))
              ∧ change_events 1 w w') as Happly.
  { intros a info1 axis1 Haxis1.
    destruct (rotate_apply_spec info1 (_getEye info w) a w axis1 Haxis1)
      as (info' & w' & Hrun & _ & Haxis' & _ & _ & _ & Hev).
    exists info', w'. split_and!; [done | by eexists | done]. }
  destruct (JS.truthy (Vector3.length direction)).
  - rewrite Haxis. cbn [bind]. by eapply Happly.
  - destruct (JS.truthy (Control.dynamicDampingFactor c)).
    + destruct (Last.angle (ObjectInfo.last info)) as [a|].
      * destruct (JS.truthy a).
        -- cbn [bind]. by eapply Happly.
        -- cbn [bind]. exists info, w.
           split_and!; [done | by eexists | by apply change_events_refl].
      * cbn [bind]. exists info, w.
        split_and!; [done | by eexists | by apply change_events_refl].
    + cbn [bind]. exists info, w.
      split_and!; [done | by eexists | by apply change_events_refl].
Qed.

(** ** Orbit: a whole move *)

Lemma forEachM_total {S : Type} (P : ObjectInfo.t → Prop)
    (world : S → World.t)
    (f : ObjectInfo.t → S → result (ObjectInfo.t * S)) :
  (∀ info s, P info →
     ∃ info' s', f info s = Ok (info', s') ∧ P info'
                 ∧ change_events 1 (world s) (world s')) →
  ∀ l s, Forall P l →
    ∃ l' s', forEachM f l s = Ok (l', s') ∧ Forall P l'
             ∧ length l' = length l
             ∧ change_events (length l) (world s) (world s').
Proof.
  intros Hstep. induction l as [|info l IH]; intros s Hall.
  { exists [], s. split_and!; try done. by apply change_events_refl. }
  apply Forall_cons in Hall as [Hinfo Hall].
  destruct (Hstep info s Hinfo) as (info' & s1 & Hrun & Hinfo' & Hev).
  destruct (IH s1 Hall) as (l' & s2 & Hrun' & Hall' & Hlen & Hev').
  exists (info' :: l'), s2. cbn [forEachM]. rewrite Hrun. cbn [bind].
  rewrite Hrun'. cbn [bind]. split_and!.
  - done.
  - by constructor.
  - simpl. by rewrite Hlen.
  - by apply (change_events_trans 1 (length l) _ (world s1)).
Qed.

Lemma new_RotationControl_axes (objects : list oid) (element : Dom)
    (w : World.t) :
  axes_defined (new_RotationControl objects element w).1
  ∧ Control.class (new_RotationControl objects element w).1 = RotationControl.
Proof.
  unfold new_RotationControl, new_TouchControl.
  destruct (new_MouseControl objects element w) as [c w1].
  set (f := fun (info : ObjectInfo.t) (_ : unit) => _).
  assert (∀ l, Forall (fun info => is_Some (Last.axis (ObjectInfo.last info)))
                 (forEach f l tt).1) as Hall.
  { induction l as [|info l IH]; [constructor|].
    simpl. destruct (forEach f l tt) as [l' []]. simpl in *.
    constructor; [by eexists | done]. }
  specialize (Hall (Control._objInfo (Control.set_class TouchControl c))).
  destruct (forEach f _ tt) as [infos []]. by split.
Qed.

Lemma RotationControl__doMove_total (x y : R) (c : Control.t) (w : World.t) :
  axes_defined c →
  ∃ c' w',
    RotationControl__doMove x y c w = Ok (c', w')
    ∧ axes_defined c'
    ∧ same_controller c c'
    ∧ Mouse.capture (Control._mouse c') = Mouse.capture (Control._mouse c)
    ∧ change_events (length (Control._objInfo c)) w w'.
Proof.
  intros Haxes. unfold RotationControl__doMove.
  set (c1 := MouseControl__doMove x y (_saveMove None None c)).
  assert (same_controller c c1
          ∧ Control._objInfo c1 = Control._objInfo c
          ∧ Mouse.capture (Control._mouse c1) = Mouse.capture (Control._mouse c))
    as (Hsame & Hinfos & Hcap).
  { destruct (_saveMove_same None None c) as [Hs1 Hc1].
    destruct (_saveMove_same (Some x) (Some y) (_saveMove None None c))
      as [Hs2 Hc2].
    destruct (_saveMove_fields None None c) as (_ & _ & Hi1 & _).
    destruct (_saveMove_fields (Some x) (Some y) (_saveMove None None c))
      as (_ & _ & Hi2 & _).
    unfold c1, MouseControl__doMove. split_and!.
    - by eapply same_controller_trans.
    - congruence.
    - congruence. }
  set (direction := Vector3.mk _ _ 0).
  destruct (forEachM_total
              (fun info => is_Some (Last.axis (ObjectInfo.last info)))
              (fun w => w)
              (fun info w => rotate_ direction info c1 w)) with
    (l := Control._objInfo c1) (s := w)
    as (infos & w' & Hrun & Hall & Hlen & Hev).
  - intros info s [axis0 Haxis0].
    destruct (rotate__total_step direction info c1 s axis0 Haxis0)
      as (info' & s' & Hr & Ha & He).
    by exists info', s'.
  - by rewrite Hinfos.
  - rewrite Hrun. cbn [bind].
    exists (Control.set__objInfo infos c1), w'. split_and!.
    + done.
    + done.
    + unfold same_controller in *. simpl.
      destruct Hsame as (A1 & A2 & A3 & A4 & A5 & A6 & A7).
      split_and!; try done. by rewrite Hlen, Hinfos.
    + done.
    + by rewrite <- Hinfos.
Qed.

(** X16.  A rotation controller whose entries all have their axis, as its
    constructor leaves them, never throws on a move: the move returns, the
    entries still have their axis, the controller is otherwise the same
    but for the pointer state, it is capturing exactly if it was, and at
    most one [moveChange] per entry has been dispatched. *)
Theorem RotationControl__doMove_returns (x y : R) (c : Control.t)
    (w : World.t) :
  (∀ objects element w0,
     axes_defined (new_RotationControl objects element w0).1)
  ∧ (axes_defined c →
     ∃ c' w',
       RotationControl__doMove x y c w = Ok (c', w')
       ∧ axes_defined c'
       ∧ same_controller c c'
       ∧ Mouse.capture (Control._mouse c') = Mouse.capture (Control._mouse c)
       ∧ change_events (length (Control._objInfo c)) w w').
Proof.
  split; [intros; apply new_RotationControl_axes|].
  apply RotationControl__doMove_total.
Qed.

Lemma RotationControl__doMove_returns_witness :
  let c := Control.set__objInfo [rotation_info_of (Vector3.mk 0 0 5)]
             (rotation_of 1 0.2 []) in
  let w := world_of (Vector3.mk 0 0 5) Vector3.zero in
  ∃ c' w', RotationControl__doMove 60 50 c w = Ok (c', w').
Proof.
  intros c w.
  destruct (RotationControl__doMove_returns 60 50 c w) as [_ Hmove].
  destruct Hmove as (c' & w' & Hrun & _).
  - constructor; [by eexists | constructor].
  - by exists c', w'.
Defined.

(** ** A whole drag *)

Lemma PanControl__doMove_same (x y : R) (c : Control.t) (w : World.t) :
  let c' := (PanControl__doMove x y c w).1 in
  let w' := (PanControl__doMove x y c w).2 in
  same_controller c c'
  ∧ Mouse.capture (Control._mouse c') = Mouse.capture (Control._mouse c)
  ∧ change_events (length (Control._objInfo c)) w w'.
Proof.
  unfold PanControl__doMove.
  set (c1 := MouseControl__doMove x y c).
  destruct (_saveMove_same (Some x) (Some y) c) as [Hsame Hcap].
  destruct (_saveMove_fields (Some x) (Some y) c) as (_ & _ & Hinfos & _).
  change (_saveMove (Some x) (Some y) c) with c1 in Hsame, Hcap, Hinfos.
  set (change := Vector2.sub _ _).
  pose proof (forEach_length (fun info w => pan_ change info c1 w)
                (Control._objInfo c1) w) as Hlen.
  pose proof (forEach_change_events (fun w => w)
                (fun info w => pan_ change info c1 w)
                (fun info w => pan__events change info c1 w)
                (Control._objInfo c1) w) as Hev.
  destruct (forEach _ (Control._objInfo c1) w) as [infos w1].
  cbn [fst snd] in Hlen, Hev. rewrite Hinfos in Hlen, Hev.
  assert (same_controller c (Control.set__objInfo infos c1)) as Hsame'.
  { unfold same_controller in *. simpl.
    destruct Hsame as (A1 & A2 & A3 & A4 & A5 & A6 & _). by split_and!. }
  destruct (JS.truthy (Vector2.lengthSq change)).
  - destruct (JS.truthy _); cbn [fst snd].
    + split_and!; done.
    + destruct (_saveMove_same None None (Control.set__objInfo infos c1))
        as [Hs Hc].
      split_and!; [by eapply same_controller_trans | by rewrite Hc | done].
  - cbn [fst snd]. split_and!; [done | done | by apply change_events_refl].
Qed.

Lemma ZoomControl__doMove_same (x y : R) (c : Control.t) (w : World.t) :
  let c' := (ZoomControl__doMove x y c w).1 in
  let w' := (ZoomControl__doMove x y c w).2 in
  same_controller c c'
  ∧ Mouse.capture (Control._mouse c') = Mouse.capture (Control._mouse c)
  ∧ change_events (length (Control._objInfo c)) w w'.
Proof.
  unfold ZoomControl__doMove.
  set (c1 := MouseControl__doMove x y c).
  destruct (_saveMove_same (Some x) (Some y) c) as [Hsame Hcap].
  destruct (_saveMove_fields (Some x) (Some y) c) as (_ & _ & Hinfos & _).
  change (_saveMove (Some x) (Some y) c) with c1 in Hsame, Hcap, Hinfos.
  destruct (doZoom__same (Mouse.capture (Control._mouse c1)) c1 w)
    as (Hs & Hc & _ & Hev).
  split_and!.
  - by eapply same_controller_trans.
  - congruence.
  - by rewrite <- Hinfos.
Qed.

(** A move while capturing, whatever the class. *)
Lemma mouseMove__capturing (e : MouseEvent) (c : Control.t) (w : World.t) :
  Mouse.capture (Control._mouse c) = true →
  (Control.class c = RotationControl → axes_defined c) →
  ∃ c' w',
    mouseMove_ e c w = Ok (c', w')
    ∧ same_controller c c'
    ∧ Mouse.capture (Control._mouse c') = true
    ∧ (Control.class c = RotationControl → axes_defined c')
    ∧ change_events (length (Control._objInfo c)) w w'.
Proof.
  intros Hcap Haxes. unfold mouseMove_, _doMove. rewrite Hcap.
  destruct (Control.class c) eqn:Hclass.
  - destruct (_saveMove_same (Some (pageX e)) (Some (pageY e)) c) as [Hs Hc].
    eexists _, _. split; [reflexivity|]. unfold MouseControl__doMove.
    split_and!; [done | congruence | done | by apply change_events_refl].
  - destruct (_saveMove_same (Some (pageX e)) (Some (pageY e)) c) as [Hs Hc].
    eexists _, _. split; [reflexivity|]. unfold MouseControl__doMove.
    split_and!; [done | congruence | done | by apply change_events_refl].
  - destruct (RotationControl__doMove_total (pageX e) (pageY e) c w)
      as (c' & w' & Hrun & Ha & Hs & Hc & Hev); [by apply Haxes|].
    exists c', w'. split_and!; [done | done | congruence | done | done].
  - destruct (PanControl__doMove_same (pageX e) (pageY e) c w)
      as (Hs & Hc & Hev).
    eexists _, _. split; [apply f_equal, surjective_pairing|].
    split_and!; [done | congruence | done | done].
  - destruct (ZoomControl__doMove_same (pageX e) (pageY e) c w)
      as (Hs & Hc & Hev).
    eexists _, _. split; [apply f_equal, surjective_pairing|].
    split_and!; [done | congruence | done | done].
Qed.

Lemma run_app (evs1 evs2 : list DomEvent) :
  ∀ c w,
    run (evs1 ++ evs2) c w
    = bind (run evs1 c w) (fun '(c1, w1) => run evs2 c1 w1).
Proof.
  induction evs1 as [|ev evs1 IH]; intros c w; [done|].
  simpl. destruct (deliver ev c w) as [[c1 w1]|msg]; simpl; [apply IH|done].
Qed.

(** Any number of moves while capturing. *)
Lemma run_moves (moves : list MouseEvent) :
  ∀ c w,
    Mouse.capture (Control._mouse c) = true →
    (Control.class c = RotationControl → axes_defined c) →
    ∃ c' w',
      run (mousemove <$> moves) c w = Ok (c', w')
      ∧ same_controller c c'
      ∧ Mouse.capture (Control._mouse c') = true
      ∧ (Control.class c = RotationControl → axes_defined c')
      ∧ change_events (length moves * length (Control._objInfo c)) w w'.
Proof.
  induction moves as [|e moves IH]; intros c w Hcap Haxes.
  { exists c, w.
    split_and!;
      [done | apply same_controller_refl | done | done
      | by apply change_events_refl]. }
  destruct (mouseMove__capturing e c w Hcap Haxes)
    as (c1 & w1 & Hrun1 & Hsame1 & Hcap1 & Haxes1 & Hev1).
  assert (Control.class c1 = Control.class c) as Hclass
    by (by destruct Hsame1 as [-> _]).
  assert (length (Control._objInfo c1) = length (Control._objInfo c)) as Hlen
    by (by destruct Hsame1 as (_ & _ & _ & _ & _ & _ & ->)).
  destruct (IH c1 w1 Hcap1) as (c2 & w2 & Hrun2 & Hsame2 & Hcap2 & Haxes2 & Hev2).
  { rewrite Hclass. exact Haxes1. }
  exists c2, w2. rewrite fmap_cons. cbn [run deliver]. rewrite Hrun1.
  cbn [bind]. split_and!.
  - done.
  - by eapply same_controller_trans.
  - done.
  - intros Hrot. apply Haxes2. by rewrite Hclass.
  - rewrite Hlen in Hev2. simpl.
    by apply (change_events_trans _ _ _ w1).
Qed.

(** A release while capturing. *)
Lemma mouseUp__capturing (e : MouseEvent) (c : Control.t) (w : World.t) :
  Mouse.capture (Control._mouse c) = true →
  let c' := (mouseUp_ e c w).1 in
  let w' := (mouseUp_ e c w).2 in
  same_controller c c'
  ∧ Mouse.capture (Control._mouse c') = false
  ∧ Control._objInfo c' = Control._objInfo c
  ∧ ∃ curr prev,
      World.events w'
      = World.events w ++ [MoveEvent EventEnum.moveStop curr prev]
      ∧ World.scene w' = World.scene w
      ∧ World.heap w' = World.heap w.
Proof.
  intros Hcap. unfold mouseUp_. rewrite Hcap. cbn [negb].
  set (c1 := Control.set__mouse _ c). unfold _stopMove.
  destruct (Control.class c1) eqn:Hclass;
    unfold RotationControl__stopMove, MouseControl__stopMove, _dispatchMove;
    cbn [fst snd];
    (split_and!; [done | done | done | by eexists _, _]).
Qed.

Lemma _startMove_same (x y : R) (c : Control.t) :
  same_controller c (_startMove x y c)
  ∧ Control._objInfo (_startMove x y c) = Control._objInfo c
  ∧ Mouse.capture (Control._mouse (_startMove x y c))
    = Mouse.capture (Control._mouse c).
Proof.
  unfold _startMove.
  destruct (_saveMove_same (Some x) (Some y) c) as [Hs1 Hc1].
  destruct (_saveMove_same None None (_saveMove (Some x) (Some y) c))
    as [Hs2 Hc2].
  destruct (_saveMove_fields (Some x) (Some y) c) as (_ & _ & Hi1 & _).
  destruct (_saveMove_fields None None (_saveMove (Some x) (Some y) c))
    as (_ & _ & Hi2 & _).
  split_and!; [by eapply same_controller_trans | congruence | congruence].
Qed.

(** X17.  A whole drag: a press with the bound button, any number of
    moves, a release.  On any controller (a rotation controller having its
    axes) the run returns; the events it dispatches are one [moveStart],
    then only [moveChange] events, at most one per move and per entry,
    then one [moveStop]; and the controller ends not capturing, otherwise
    the same but for its entries' bookkeeping and its pointer state. *)
Theorem drag_lifecycle (press : MouseEvent) (moves : list MouseEvent)
    (release : MouseEvent) (c : Control.t) (w : World.t) :
  button press = ButtonEnum.value (Control.button_ c) →
  (Control.class c = RotationControl → axes_defined c) →
  ∃ c' w' start changes stop,
    run (mousedown press :: (mousemove <$> moves) ++ [mouseup release]) c w
    = Ok (c', w')
    ∧ World.events w' = World.events w ++ [start] ++ changes ++ [stop]
    ∧ type start = EventEnum.moveStart
    ∧ type stop = EventEnum.moveStop
    ∧ Forall (fun ev => type ev = EventEnum.moveChange) changes
    ∧ (length changes ≤ length moves * length (Control._objInfo c))%nat
    ∧ Mouse.capture (Control._mouse c') = false
    ∧ same_controller c c'.
Proof.
  intros Hbutton Haxes.
  assert (same_controller c (mouseDown_ press c w).1
          ∧ Control._objInfo (mouseDown_ press c w).1 = Control._objInfo c
          ∧ Mouse.capture (Control._mouse (mouseDown_ press c w).1) = true
          ∧ ∃ curr prev,
              World.events (mouseDown_ press c w).2
              = World.events w ++ [MoveEvent EventEnum.moveStart curr prev])
    as (Hsame1 & Hinfos1 & Hcap1 & curr1 & prev1 & Hev1).
  { unfold mouseDown_. rewrite decide_False by (by intros []).
    cbn [fst snd]. set (c0 := Control.set__mouse _ c).
    destruct (_startMove_same (pageX press) (pageY press) c0)
      as (H1 & H2 & H3).
    split_and!; [exact H1 | exact H2 | by rewrite H3 | by eexists _, _]. }
  destruct (mouseDown_ press c w) as [c1 w1] eqn:Hs1. cbn [fst snd] in *.
  assert (Control.class c1 = Control.class c) as Hclass1
    by (by destruct Hsame1 as [-> _]).
  destruct (run_moves moves c1 w1 Hcap1)
    as (c2 & w2 & Hrun2 & Hsame2 & Hcap2 & _ & changes & Hev2 & Hlen2 & Hall2).
  { rewrite Hclass1. intros Hrot. unfold axes_defined. rewrite Hinfos1.
    by apply Haxes. }
  destruct (mouseUp__capturing release c2 w2 Hcap2)
    as (Hsame3 & Hcap3 & _ & curr3 & prev3 & Hev3 & _).
  exists (mouseUp_ release c2 w2).1, (mouseUp_ release c2 w2).2,
    (MoveEvent EventEnum.moveStart curr1 prev1), changes,
    (MoveEvent EventEnum.moveStop curr3 prev3).
  split_and!; try done.
  - cbn [run deliver]. rewrite Hs1. cbn [bind].
    rewrite run_app, Hrun2. cbn [bind run deliver].
    by destruct (mouseUp_ release c2 w2).
  - rewrite Hev3, Hev2, Hev1. by rewrite <- !app_assoc.
  - by rewrite Hinfos1 in Hlen2.
  - eapply same_controller_trans; [exact Hsame1|].
    by eapply same_controller_trans.
Qed.

(** A zoom drag on the example camera: press with the middle button, two
    moves, release. *)
Lemma drag_lifecycle_witness :
  let info := info_of (Vector3.mk 0 0 5) (Vector3.mk 0 0 5) in
  let c := zoom_of 0 Infinity [info] mouse0 0 0 in
  let w := world_of (Vector3.mk 0 0 5) Vector3.zero in
  let e x y := Build_MouseEvent 1 x y in
  ∃ c' w',
    run [mousedown (e 50 50); mousemove (e 50 60); mousemove (e 50 70);
         mouseup (e 50 70)] c w = Ok (c', w')
    ∧ Mouse.capture (Control._mouse c') = false
    ∧ (2 ≤ length (World.events w') ≤ 4)%nat.
Proof.
  intros info c w e.
  destruct (drag_lifecycle (e 50 50) [e 50 60; e 50 70] (e 50 70) c w)
    as (c' & w' & start & changes & stop & Hrun & Hev & _ & _ & _ & Hlen
        & Hcap & _).
  - reflexivity.
  - intros Hrot. discriminate Hrot.
  - assert (World.events w = []) as Hw by reflexivity.
    assert (length changes ≤ 2)%nat as Hlen' by exact Hlen.
    exists c', w'. rewrite Hev, Hw, !length_app.
    split_and!; [exact Hrun | exact Hcap | simpl; lia | simpl; lia].
Defined.

(** ** The target interface leaves the rest alone *)

(** X18.  [setTarget] changes one thing: the target of the first entry
    for the object.  Every other entry keeps its place and its content,
    also a later entry for the same object; the changed entry keeps its
    object, snapshot and bookkeeping; no object is moved or turned, no
    event is dispatched, and no vector already on the heap is written. *)
Theorem setTarget_changes_one_entry (obj : oid) (target : loc)
    (c : Control.t) (w : World.t) :
  let c' := (setTarget obj target c w).1.2 in
  let w' := (setTarget obj target c w).2 in
  World.scene w' = World.scene w
  ∧ World.events w' = World.events w
  ∧ (∀ a, a ∈ dom (World.heap w) → World.read a w' = World.read a w)
  ∧ same_controller c c'
  ∧ Control._mouse c' = Control._mouse c
  ∧ (∀ i info,
       getObjectInfo_ obj c = Some (i, info) →
       (∀ j, j ≠ i → Control._objInfo c' !! j = Control._objInfo c !! j)
       ∧ ∃ a,
           Control._objInfo c' !! i = Some (ObjectInfo.set_target a info)
           ∧ a ∉ dom (World.heap w)).
Proof.
  intros c' w'. subst c' w'. unfold setTarget.
  destruct (getObjectInfo_ obj c) as [[i info]|] eqn:Hfind.
  - pose proof (alloc_fresh (World.read target w) w) as Hfresh.
    pose proof (fun a => alloc_read_old a (World.read target w) w) as Hold.
    assert (World.scene (World.alloc (World.read target w) w).2
            = World.scene w) as Hsc by done.
    assert (World.events (World.alloc (World.read target w) w).2
            = World.events w) as Hev by done.
    destruct (World.alloc (World.read target w) w) as [a w1].
    cbn [fst snd] in *.
    unfold getObjectInfo_ in Hfind.
    apply list_find_Some in Hfind as (Hi & _ & _).
    split_and!; try done.
    + unfold same_controller; simpl. rewrite length_insert. repeat split.
    + intros i' info' [= <- <-]. split.
      * intros j Hj. simpl. by rewrite list_lookup_insert_ne.
      * exists a. split; [|done]. simpl. apply list_lookup_insert_eq.
        by eapply lookup_lt_Some.
  - cbn [fst snd]. split_and!; done.
Qed.

(** The camera registered twice: only the first entry gets the new
    target. *)
Lemma setTarget_changes_one_entry_witness :
  let info := info_of (Vector3.mk 0 0 5) (Vector3.mk 0 0 5) in
  let c := control_of PanControl ButtonEnum.right [info; info] mouse0 in
  let w := world_of (Vector3.mk 0 0 5) (Vector3.mk 1 2 3) in
  Control._objInfo (setTarget camera target1 c w).1.2 !! 1%nat = Some info.
Proof.
  intros info c w.
  destruct (setTarget_changes_one_entry camera target1 c w)
    as (_ & _ & _ & _ & _ & Hentries).
  destruct (Hentries 0%nat info eq_refl) as [Hothers _].
  rewrite (Hothers 1%nat) by lia. reflexivity.
Defined.

(** X19.  [getTarget] only reads: the scene, the event log and every
    vector already on the heap are as before, and the vector it returns
    sits at an address that was not in use, holding the value of the
    target of the first entry for the object. *)
Theorem getTarget_only_reads (obj : oid) (c : Control.t) (w : World.t) :
  let r := (getTarget obj c w).1 in
  let w' := (getTarget obj c w).2 in
  World.scene w' = World.scene w
  ∧ World.events w' = World.events w
  ∧ (∀ a, a ∈ dom (World.heap w) → World.read a w' = World.read a w)
  ∧ (∀ a, r = Some a →
          (a ∉ dom (World.heap w))
          ∧ ∃ i info,
              getObjectInfo_ obj c = Some (i, info)
              ∧ World.read a w' = World.read (ObjectInfo.target info) w).
Proof.
  intros r w'. subst r w'. unfold getTarget.
  destruct (getObjectInfo_ obj c) as [[i info]|] eqn:Hfind.
  - pose proof (alloc_fresh (World.read (ObjectInfo.target info) w) w)
      as Hfresh.
    pose proof (alloc_read_new (World.read (ObjectInfo.target info) w) w)
      as Hnew.
    pose proof (fun a =>
                  alloc_read_old a (World.read (ObjectInfo.target info) w) w)
      as Hold.
    assert (World.scene
              (World.alloc (World.read (ObjectInfo.target info) w) w).2
            = World.scene w) as Hsc by done.
    assert (World.events
              (World.alloc (World.read (ObjectInfo.target info) w) w).2
            = World.events w) as Hev by done.
    destruct (World.alloc (World.read (ObjectInfo.target info) w) w)
      as [a w1].
    cbn [fst snd] in *. split_and!; try done.
    intros a' [= <-]. split; [done|]. by exists i, info.
  - cbn [fst snd]. split_and!; try done.
Qed.

Lemma getTarget_only_reads_witness :
  let info := info_of (Vector3.mk 0 0 5) (Vector3.mk 0 0 5) in
  let c := control_of PanControl ButtonEnum.right [info] mouse0 in
  let w := world_of (Vector3.mk 0 0 5) (Vector3.mk 1 2 3) in
  World.read target1 (getTarget camera c w).2 = Vector3.mk 1 2 3.
Proof.
  intros info c w.
  destruct (getTarget_only_reads camera c w) as (_ & _ & Hold & _).
  rewrite Hold; [reflexivity|]. apply elem_of_dom. by eexists.
Defined.

(** ** Resetting twice *)

Lemma reset_loop_events (infos : list ObjectInfo.t) :
  ∀ w,
    World.events (forEach reset_each infos w).2
    = World.events w ++ flat_map (reset_event w) infos
    ∧ World.heap (forEach reset_each infos w).2 = World.heap w
    ∧ Forall (fun info' =>
                Last.pos (ObjectInfo.last info') = ObjectInfo.pos info')
        (forEach reset_each infos w).1.
Proof.
  induction infos as [|info infos IH]; intros w; simpl.
  { split_and!; [by rewrite app_nil_r | done | constructor]. }
  pose proof (reset_each_spec info w) as Hstep.
  destruct (reset_each info w) as [info1 w1]. cbn [fst snd] in Hstep.
  destruct Hstep as (_ & _ & _ & Hheap & Hev & _ & Hpos & _ & _ & Hlast).
  specialize (IH w1).
  destruct (forEach reset_each infos w1) as [infos' w']. cbn [fst snd] in *.
  destruct IH as (Hev' & Hheap' & Hall).
  split_and!.
  - rewrite Hev', Hev, <- app_assoc. do 2 f_equal.
    apply flat_map_ext. intros i. unfold reset_event.
    by rewrite (read_heap_eq _ w w1 Hheap).
  - by rewrite Hheap'.
  - constructor; [congruence | done].
Qed.

(** X20.  A reset straight after a reset is silent: it dispatches no
    event. After any reset every entry's last reported position is its
    snapshot. *)
Theorem reset_twice_is_silent (c : Control.t) (w : World.t) :
  let c1 := (reset c w).1 in
  let w1 := (reset c w).2 in
  Forall (fun info => Last.pos (ObjectInfo.last info) = ObjectInfo.pos info)
         (Control._objInfo c1)
  ∧ World.events (reset c1 w1).2 = World.events w1.
Proof.
  intros c1 w1. subst c1 w1.
  destruct (reset_loop_events (Control._objInfo c) w) as (_ & _ & Hall).
  assert (reset c w
          = (Control.set__objInfo
               (forEach reset_each (Control._objInfo c) w).1 c,
             (forEach reset_each (Control._objInfo c) w).2)) as ->.
  { unfold reset. by destruct (forEach reset_each (Control._objInfo c) w). }
  cbn [fst snd]. set (w1 := (forEach reset_each (Control._objInfo c) w).2).
  set (infos := (forEach reset_each (Control._objInfo c) w).1) in *.
  split; [exact Hall|].
  assert (World.events (reset (Control.set__objInfo infos c) w1).2
          = World.events (forEach reset_each infos w1).2) as ->.
  { unfold reset. cbn [Control._objInfo Control.set__objInfo].
    by destruct (forEach reset_each infos w1). }
  destruct (reset_loop_events infos w1) as (Hev & _ & _). rewrite Hev.
  assert (flat_map (reset_event w1) infos = []) as ->; [|by rewrite app_nil_r].
  clear Hev. induction Hall as [|info l Hlast Hall IH]; [done|].
  simpl. rewrite IH, app_nil_r. unfold reset_event.
  rewrite decide_True; [done|].
  rewrite Hlast, distanceToSquared_self. pose proof EPS_pos. lra.
Qed.

(** ** Integer arithmetic of the orbit coordinates *)

Lemma Int_part_IZR (n : Z) : Int_part (IZR n) = n.
Proof. symmetry. apply Int_part_spec. lra. Qed.

Lemma trunc_IZR (n : Z) : JS.trunc (IZR n) = n.
Proof.
  unfold JS.trunc. case_decide as Hsign.
  - apply Int_part_IZR.
  - rewrite <- opp_IZR, Int_part_IZR. lia.
Qed.

Lemma ToInt32_IZR (n : Z) :
  (- 2147483648 ≤ n < 2147483648)%Z → JS.ToInt32 (IZR n) = n.
Proof.
  intros Hn. unfold JS.ToInt32, JS.wrap32. rewrite trunc_IZR.
  rewrite Z.mod_small by lia. lia.
Qed.

Lemma shr_1_even (k : Z) :
  (0 ≤ k < 1073741824)%Z → JS.shr (IZR (2 * k)) 1 = IZR k.
Proof.
  intros Hk. unfold JS.shr. rewrite ToInt32_IZR by lia.
  f_equal. rewrite Z.shiftr_div_pow2 by lia.
  change (2 ^ 1)%Z with 2%Z. rewrite Z.mul_comm. by apply Z.div_mul.
Qed.

Lemma shl_1 (n : Z) :
  (- 1073741824 ≤ n < 1073741824)%Z → JS.shl (IZR n) 1 = IZR (2 * n).
Proof.
  intros Hn. unfold JS.shl, JS.wrap32. rewrite ToInt32_IZR by lia.
  f_equal. rewrite Z.shiftl_mul_pow2 by lia. change (2 ^ 1)%Z with 2%Z.
  rewrite Z.mod_small by lia. lia.
Qed.

(** X21.  The orbit coordinates of a surface of even width [2 * k] and
    even height [2 * j] (integers, in pixels): the centre of the surface
    maps to (0, 0); on the centre line the left edge maps to x = -1 and
    the right edge to x = 1; the top edge maps to y = height / width, so
    the vertical scale is that of the width. *)
Theorem RotationControl__offsetCalc_centre (c : Control.t) (left top : R)
    (k j : Z) :
  getRect c = Rect.mk left top (IZR (2 * k)) (IZR (2 * j)) →
  (0 < k < 1073741824)%Z →
  (0 ≤ j < 1073741824)%Z →
  RotationControl__offsetCalc c (left + IZR k) (top + IZR j) = Vector2.mk 0 0
  ∧ RotationControl__offsetCalc c left (top + IZR j) = Vector2.mk (-1) 0
  ∧ RotationControl__offsetCalc c (left + IZR (2 * k)) (top + IZR j)
    = Vector2.mk 1 0
  ∧ RotationControl__offsetCalc c (left + IZR k) top
    = Vector2.mk 0 (IZR (2 * j) / IZR (2 * k)).
Proof.
  intros Hrect Hk Hj. unfold RotationControl__offsetCalc. rewrite Hrect.
  cbn [Rect.left Rect.top Rect.width Rect.height].
  rewrite shr_1_even by lia.
  assert (IZR k ≠ 0) as Hk0 by (apply not_0_IZR; lia).
  assert (IZR (2 * k) ≠ 0) as H2k0 by (apply not_0_IZR; lia).
  replace (top - (top + IZR j)) with (IZR (- j)) by (rewrite opp_IZR; ring).
  replace (top - top) with (IZR 0) by ring.
  rewrite !shl_1 by lia.
  rewrite !mult_IZR, opp_IZR. rewrite mult_IZR in H2k0.
  split_and!; f_equal; field; done.
Qed.

(** A 100 by 60 surface at the page origin: its centre (50, 30) has orbit
    coordinates (0, 0). *)
Lemma RotationControl__offsetCalc_centre_witness :
  let c :=
    Control.set_rect_ (Rect.mk 0 0 100 60) (rotation_of 1 0.2 []) in
  RotationControl__offsetCalc c (0 + 50) (0 + 30) = Vector2.mk 0 0.
Proof.
  intros c.
  apply (RotationControl__offsetCalc_centre c 0 0 50 30);
    [reflexivity | lia | lia].
Defined.

(** ** The pinch lags one move behind *)

(** X22.  On a zoom controller with one entry, not capturing, a touch
    move with two or more contacts zooms by the ratio of the distances
    recorded before it, and only then records the distance between the
    contacts it carries: the object goes to its target plus its eye scaled
    by [touchStart_ / touchEnd_] and clamped to the distance bounds (it is
    left alone if [touchStart_] is zero), while the pair moves up to
    ([touchEnd_], new distance).  So the first move after a touch start,
    where both recorded distances are equal, leaves an object within the
    bounds where it stands however far the contacts have moved, and the
    next step, the new distance not being zero, will use the ratio of the
    old distance to the new one. *)
Theorem ZoomControl__touchMove_lags (e : TouchEvent) (info : ObjectInfo.t)
    (c : Control.t) (w : World.t) (t0 t1 : Touch) (rest : list Touch) :
  let dx := touch_pageX t0 - touch_pageX t1 in
  let dy := touch_pageY t0 - touch_pageY t1 in
  let d := sqrt (dx * dx + dy * dy) in
  let ratio := Control.touchStart_ c / Control.touchEnd_ c in
  Control.class c = ZoomControl →
  Mouse.capture (Control._mouse c) = false →
  Control._objInfo c = [info] →
  Control.touchEnd_ c ≠ 0 →
  touches e = t0 :: t1 :: rest →
  ∃ c' w',
    ZoomControl__touchMove e c w = Ok (c', w')
    ∧ (Control.touchStart_ c ≠ 0 →
       Object3D.position (World.object (ObjectInfo.obj info) w')
       = Vector3.addVectors (World.read (ObjectInfo.target info) w)
                            (zoomed_eye ratio info c w))
    ∧ (Control.touchStart_ c = 0 → w' = w)
    ∧ (Control.touchStart_ c = Control.touchEnd_ c →
       (∀ M, Control.maxDistance c = Finite M →
             Vector3.lengthSq (_getEye info w) <= M * M) →
       Control.minDistance c * Control.minDistance c
       <= Vector3.lengthSq (_getEye info w) →
       Object3D.position (World.object (ObjectInfo.obj info) w')
       = Object3D.position (World.object (ObjectInfo.obj info) w))
    ∧ World.read (ObjectInfo.target info) w'
      = World.read (ObjectInfo.target info) w
    ∧ Control.touchStart_ c' = Control.touchEnd_ c
    ∧ Control.touchEnd_ c' = d
    ∧ (d ≠ 0 → (zoom_factor false c').1 = Control.touchEnd_ c / d).
Proof.
  intros dx dy d ratio Hclass Hcap Hinfos Hapart Htouches.
  unfold ZoomControl__touchMove. rewrite Htouches.
  rewrite decide_True by (simpl; lia).
  unfold distanceCalc_, _doMove. rewrite Hclass. cbn [bind].
  fold dx. fold dy. fold d.
  unfold ZoomControl__doMove.
  set (c1 := MouseControl__doMove _ _ c).
  destruct (MouseControl__doMove_fields
              (JS.shr (touch_pageX t0 + touch_pageX t1) 1)
              (JS.shr (touch_pageY t0 + touch_pageY t1) 1) c)
    as (_ & _ & Hinfos1 & _ & _ & Hcap1).
  fold c1 in Hinfos1, Hcap1. rewrite Hcap1, Hcap.
  assert (Control.touchStart_ c1 = Control.touchStart_ c
          ∧ Control.touchEnd_ c1 = Control.touchEnd_ c
          ∧ Control.minDistance c1 = Control.minDistance c
          ∧ Control.maxDistance c1 = Control.maxDistance c)
    as (Hts & Hte & Hmin1 & Hmax1).
  { unfold c1, MouseControl__doMove, _saveMove. by case_match. }
  assert ((zoom_factor false c1).1 = ratio) as Hfactor.
  { unfold zoom_factor; simpl. by rewrite Hts, Hte. }
  destruct (zoom__moves false info c1 w) as (Hmove & Hzero & Hheap & _).
  rewrite Hfactor in Hmove, Hzero.
  rewrite (zoomed_eye_agree ratio info c c1 w w) in Hmove by done.
  pose proof (zoom__controller false info c1 w) as Hctl.
  unfold doZoom_. rewrite Hinfos1, Hinfos. cbn [forEach].
  assert (doZoom_each false info (Control.dynamicDampingFactor c1, c1, w)
          = ((zoom_ false info c1 w).1.1.2,
             (if (zoom_ false info c1 w).1.1.1 is None then 0
              else Control.dynamicDampingFactor c1,
              (zoom_ false info c1 w).1.2, (zoom_ false info c1 w).2)))
    as ->.
  { unfold doZoom_each. by destruct (zoom_ false info c1 w) as [[[? ?] ?] ?]. }
  set (w2 := (zoom_ false info c1 w).2) in *.
  set (c2 := (zoom_ false info c1 w).1.2) in *.
  assert (Control.touchStart_ c2 = Control.touchEnd_ c
          ∧ Control.touchEnd_ c2 = Control.touchEnd_ c) as [Hts2 Hte2].
  { rewrite Hctl. unfold zoom_factor; simpl. by rewrite Hte. }
  assert (ratio = 0 ↔ Control.touchStart_ c = 0) as Hratio.
  { unfold ratio. split.
    - intros Hz. apply Rmult_integral in Hz as [Hz|Hz]; [done|].
      by apply Rinv_neq_0_compat in Hapart.
    - intros ->. unfold Rdiv. ring. }
  assert (Control.touchStart_ c = Control.touchEnd_ c →
          (∀ M, Control.maxDistance c = Finite M →
                Vector3.lengthSq (_getEye info w) <= M * M) →
          Control.minDistance c * Control.minDistance c
          <= Vector3.lengthSq (_getEye info w) →
          Object3D.position (World.object (ObjectInfo.obj info) w2)
          = Object3D.position (World.object (ObjectInfo.obj info) w)) as Hstay.
  { intros Hsame Hmax Hmin.
    assert (ratio = 1) as Hone by (unfold ratio; rewrite Hsame; by field).
    rewrite Hmove by (rewrite Hratio, Hsame; done).
    rewrite Hone, zoomed_eye_within; rewrite multiplyScalar_one; [|done|done].
    unfold _getEye. apply add_sub_restore. }
  cbn [fst snd].
  destruct (JS.truthy _); cbn [fst snd].
  - eexists _, _. split; [reflexivity|].
    split_and!; [ | | done | by apply read_heap_eq | | reflexivity | ].
    + intros Hstart. apply Hmove. by rewrite Hratio.
    + intros Hstart. apply Hzero. by rewrite Hratio.
    + simpl. exact Hts2.
    + intros _. unfold zoom_factor; simpl. by rewrite Hts2.
  - eexists _, _. split; [reflexivity|].
    split_and!; [ | | done | by apply read_heap_eq | | reflexivity | ].
    + intros Hstart. apply Hmove. by rewrite Hratio.
    + intros Hstart. apply Hzero. by rewrite Hratio.
    + unfold _saveMove; simpl. exact Hts2.
    + intros _. unfold zoom_factor, _saveMove; simpl. by rewrite Hts2.
Qed.

(** The example camera, at distance 5, under a pinch.  Right after a
    touch start with the contacts 5 apart, a move that brings them 10
    apart leaves the camera where it is; the move after that, made with
    the pair (5, 10) recorded, brings the camera to distance 2.5. *)
Lemma ZoomControl__touchMove_lags_witness :
  let info := info_of (Vector3.mk 0 0 5) (Vector3.mk 0 0 5) in
  let w := world_of (Vector3.mk 0 0 5) Vector3.zero in
  let e := Build_TouchEvent [Build_Touch 0 0; Build_Touch 6 8] in
  (∃ c' w',
     ZoomControl__touchMove e (zoom_of 0 Infinity [info] mouse0 5 5) w
     = Ok (c', w')
     ∧ Object3D.position (World.object camera w') = Vector3.mk 0 0 5)
  ∧ (∃ c' w',
       ZoomControl__touchMove e (zoom_of 0 Infinity [info] mouse0 5 10) w
       = Ok (c', w')
       ∧ Object3D.position (World.object camera w') = Vector3.mk 0 0 2.5).
Proof.
  intros info w e. split.
  - destruct (ZoomControl__touchMove_lags e info
                (zoom_of 0 Infinity [info] mouse0 5 5) w
                (Build_Touch 0 0) (Build_Touch 6 8) [])
      as (c' & w' & Hrun & _ & _ & Hstay & _); try reflexivity.
    { simpl. lra. }
    exists c', w'. split; [exact Hrun|].
    apply Hstay; [reflexivity | intros M [=] |].
    pose proof (lengthSq_nonneg (_getEye info w)).
    change (Control.minDistance _) with 0. lra.
  - destruct (ZoomControl__touchMove_lags e info
                (zoom_of 0 Infinity [info] mouse0 5 10) w
                (Build_Touch 0 0) (Build_Touch 6 8) [])
      as (c' & w' & Hrun & Hmove & _); try reflexivity.
    { simpl. lra. }
    exists c', w'. split; [exact Hrun|].
    change (ObjectInfo.obj info) with camera in Hmove.
    rewrite Hmove by (simpl; lra).
    rewrite zoomed_eye_within.
    + unfold info, w. rewrite _getEye_example, read_world_of.
      unfold Vector3.addVectors, Vector3.add, Vector3.multiplyScalar,
        Vector3.sub; simpl. f_equal; lra.
    + intros M [=].
    + match goal with
      | |- _ <= Vector3.lengthSq ?v => pose proof (lengthSq_nonneg v)
      end.
      change (Control.minDistance _) with 0. lra.
Defined.

(** ** Pointer events outside a drag *)

(** X23.  Outside a drag nothing happens: on a controller that is not
    capturing, any sequence of moves, releases and presses with a button
    other than the bound one returns, leaving the controller and the world
    exactly as they were.  And whatever its class, a controller that does
    not extend [THREE.TouchControl] ignores touch events, and one that is
    no zoom controller ignores the wheel. *)
Theorem idle_events_ignored (evs : list DomEvent) (c : Control.t)
    (w : World.t) :
  (Mouse.capture (Control._mouse c) = false →
   Forall (idle_event c) evs →
   run evs c w = Ok (c, w))
  ∧ (∀ e, isTouchControl (Control.class c) = false →
          deliver (touchstart e) c w = Ok (c, w)
          ∧ deliver (touchmove e) c w = Ok (c, w)
          ∧ deliver (touchend e) c w = Ok (c, w))
  ∧ (∀ e, Control.class c ≠ ZoomControl → deliver (wheel e) c w = Ok (c, w)).
Proof.
  split_and!.
  - intros Hcap Hidle. induction Hidle as [|ev evs Hev _ IH]; [done|].
    assert (deliver ev c w = Ok (c, w)) as Hstep.
    { destruct ev as [e|e|e|e|e|e|e]; simpl in Hev; try done.
      - unfold deliver, mouseDown_. by rewrite decide_True.
      - unfold deliver, mouseMove_. by rewrite Hcap.
      - unfold deliver, mouseUp_. by rewrite Hcap. }
    cbn [run]. rewrite Hstep. exact IH.
  - intros e Htouch. unfold deliver. by rewrite Htouch.
  - intros e Hclass. unfold deliver. by rewrite decide_False.
Qed.

(** A pan controller bound to the right button, not capturing: a move, a
    press with the left button and a release change nothing. *)
Lemma idle_events_ignored_witness :
  let c := control_of PanControl ButtonEnum.right [] mouse0 in
  let w := world_of (Vector3.mk 0 0 5) Vector3.zero in
  run [mousemove (Build_MouseEvent 0 30 20);
       mousedown (Build_MouseEvent 0 30 20);
       mouseup (Build_MouseEvent 0 30 20)] c w
  = Ok (c, w).
Proof.
  intros c w.
  apply (idle_events_ignored _ c w); [reflexivity|].
  repeat constructor. simpl. discriminate.
Defined.
